(** * Discord Mosaic TTS: clip matching and catalog curation

    A shallow embedding of the core of the repository: the text
    heuristics and clip ranking of [utils.py], the word-timing splitter
    and catalog writer of [clip_parser.py], and the fingerprint engine
    and duplicate resolver of [deduplicator.py].

    Conventions.
    - A Python [str] is a list of Unicode code points ([pystr]).
    - Whisper timings (Python floats) are rationals ([Q]), the exact
      values of the floats; only subtraction and comparison are
      applied to them, and the subtraction is exact where the code
      rounds it to a float.
    - Embeddings, fingerprints and similarities are real numbers ([R]):
      the code takes square roots and cosines of them.  Rounding of the
      IEEE arithmetic is not modelled: a statement about a value, as
      opposed to one about the order of values, holds over the reals
      only.  [Doubles] redoes the similarity of fingerprints in IEEE
      double precision, to show what the rounding does.
    - The file system is a finite map from file names to contents. *)

From stdpp Require Import gmap.
From Stdlib Require Import List ZArith NArith QArith Qminmax Reals Lra Lia.
From Stdlib Require Import Bool String Ascii Permutation Sorted.
From Stdlib Require PrimFloat.
Import ListNotations.

(** * Python strings *)

Module PyStr.

Definition pystr := list N.

(** ASCII literals of the development. *)
Definition str (s : string) : pystr :=
  List.map N_of_ascii (list_ascii_of_string s).

(** [str.isspace] of one code point: the complete Unicode table, which
    is also the class [\s] of [re] on [str] patterns. *)
Definition is_space (c : N) : bool :=
  (((9 <=? c) && (c <=? 13)) || ((28 <=? c) && (c <=? 32))
   || (c =? 133) || (c =? 160) || (c =? 5760)
   || ((8192 <=? c) && (c <=? 8202))
   || (c =? 8232) || (c =? 8233) || (c =? 8239) || (c =? 8287)
   || (c =? 12288))%N.

Fixpoint lstrip (t : pystr) : pystr :=
  match t with
  | c :: t' => if is_space c then lstrip t' else t
  | [] => []
  end.

Definition rstrip (t : pystr) : pystr := rev (lstrip (rev t)).

(** [text.strip()] *)
Definition strip (t : pystr) : pystr := rstrip (lstrip t).

(** [t[i:j]] for [0 <= i], [0 <= j], on strings, lists and arrays;
    Python clips to the length. *)
Definition slice {A : Type} (t : list A) (i j : nat) : list A :=
  firstn (j - i) (skipn i t).

Fixpoint pystr_eqb (a b : pystr) : bool :=
  match a, b with
  | [], [] => true
  | x :: a', y :: b' => (x =? y)%N && pystr_eqb a' b'
  | _, _ => false
  end.

(** [sep.join(parts)] *)
Fixpoint join (sep : pystr) (parts : list pystr) : pystr :=
  match parts with
  | [] => []
  | [p] => p
  | p :: ps => p ++ sep ++ join sep ps
  end.

(** [str.lower] on the ASCII letters (the only ones the development
    lowers explicitly). *)
Definition ascii_lower (c : N) : N :=
  if ((65 <=? c) && (c <=? 90))%N then (c + 32)%N else c.

(** A [for] loop whose body may [return]: the first iteration that
    returns decides. *)
Fixpoint for_first {A B : Type} (xs : list A) (body : A -> option B)
  : option B :=
  match xs with
  | [] => None
  | x :: xs' =>
      match body x with
      | Some b => Some b
      | None => for_first xs' body
      end
  end.

Lemma pystr_eqb_eq (a b : pystr) : pystr_eqb a b = true <-> a = b.
Proof.
  revert b; induction a as [|x a IH]; intros [|y b]; simpl; split;
    try easy.
  - rewrite andb_true_iff, N.eqb_eq, IH. intros [-> ->]; reflexivity.
  - intros E; injection E as -> ->.
    rewrite N.eqb_refl; simpl. apply IH; reflexivity.
Qed.

Lemma lstrip_suffix (t : pystr) : exists p, t = p ++ lstrip t.
Proof.
  induction t as [|c t [p Hp]]; simpl.
  - exists []; reflexivity.
  - destruct (is_space c).
    + exists (c :: p); simpl; congruence.
    + exists []; reflexivity.
Qed.

Lemma rstrip_prefix (t : pystr) : exists s, t = rstrip t ++ s.
Proof.
  unfold rstrip. destruct (lstrip_suffix (rev t)) as [p Hp].
  exists (rev p).
  rewrite <- rev_app_distr, <- Hp, rev_involutive; reflexivity.
Qed.

(** A trimmed string is a contiguous piece of the original. *)
Lemma strip_infix (t : pystr) : exists p s, t = p ++ strip t ++ s.
Proof.
  unfold strip. destruct (lstrip_suffix t) as [p Hp].
  destruct (rstrip_prefix (lstrip t)) as [s Hs].
  exists p, s. rewrite <- Hs; exact Hp.
Qed.

Lemma lstrip_head (t : pystr) :
  match lstrip t with c :: _ => is_space c = false | [] => True end.
Proof.
  induction t as [|c t IH]; simpl; [exact I|].
  destruct (is_space c) eqn:E; [exact IH | exact E].
Qed.

Lemma lstrip_id (t : pystr) :
  match t with c :: _ => is_space c = false | [] => True end ->
  lstrip t = t.
Proof. destruct t as [|c t]; simpl; [easy|]. intros ->; reflexivity. Qed.

Lemma lstrip_idem (t : pystr) : lstrip (lstrip t) = lstrip t.
Proof. apply lstrip_id, lstrip_head. Qed.

Lemma lstrip_app_nonspace (t : pystr) (c : N) :
  is_space c = false ->
  exists u, lstrip (t ++ [c]) = u ++ [c].
Proof.
  intros Hc. induction t as [|d t [u Hu]]; simpl.
  - rewrite Hc. exists []; reflexivity.
  - destruct (is_space d).
    + exists u; exact Hu.
    + exists (d :: t); reflexivity.
Qed.

(** Trimming the left of a string that does not end in a space leaves
    one that does not end in a space. *)
Lemma lstrip_rev_head (t : pystr) :
  match rev t with c :: _ => is_space c = false | [] => True end ->
  match rev (lstrip t) with c :: _ => is_space c = false | [] => True end.
Proof.
  destruct (rev t) as [|c r] eqn:E.
  - intros _. apply (f_equal (@rev N)) in E.
    rewrite rev_involutive in E; subst t; exact I.
  - intros Hc. apply (f_equal (@rev N)) in E.
    rewrite rev_involutive in E; simpl in E; subst t.
    destruct (lstrip_app_nonspace (rev r) c Hc) as [u ->].
    rewrite rev_app_distr; simpl; exact Hc.
Qed.

Lemma strip_idem (t : pystr) : strip (strip t) = strip t.
Proof.
  unfold strip, rstrip.
  set (a := lstrip t).
  assert (Ha : match a with c :: _ => is_space c = false | [] => True end)
    by apply lstrip_head.
  set (b := lstrip (rev a)).
  assert (Hb : match b with c :: _ => is_space c = false | [] => True end)
    by apply lstrip_head.
  assert (Hrb : match rev b with c :: _ => is_space c = false | [] => True end).
  { unfold b. apply lstrip_rev_head. rewrite rev_involutive; exact Ha. }
  rewrite (lstrip_id (rev b) Hrb), rev_involutive.
  rewrite (lstrip_id b Hb); reflexivity.
Qed.

End PyStr.

(** * The fragment of Python's [re] that [utils.py] uses *)

Module Regex.
Import PyStr.

(** Patterns.  [Chr p] is one character of a class (a literal, a set,
    [\s]); [Star] is the greedy [*]; [WordB w] is [\b] for the word
    class [w]. *)
Inductive regex : Type :=
| Eps
| Chr (p : N -> bool)
| Cat (r1 r2 : regex)
| Alt (r1 r2 : regex)
| Star (r : regex)
| WordB (w : N -> bool).

(** The matcher's cursor: the character before it (for [\b]) and the
    text after it. *)
Definition cursor : Type := option N * pystr.

Definition remaining (cur : cursor) : nat := List.length (snd cur).

Definition word_before (w : N -> bool) (cur : cursor) : bool :=
  match fst cur with Some c => w c | None => false end.

Definition word_after (w : N -> bool) (cur : cursor) : bool :=
  match snd cur with c :: _ => w c | [] => false end.

(** Greedy iteration: every way of matching once more and going on, in
    the engine's order of preference, then stopping here.  An
    iteration that consumes nothing is not repeated. *)
Fixpoint star_iter (step : cursor -> list cursor) (fuel : nat)
  (cur : cursor) : list cursor :=
  match fuel with
  | O => [cur]
  | S f =>
      flat_map
        (fun c' =>
           if (remaining c' <? remaining cur)%nat
           then star_iter step f c' else [])
        (step cur) ++ [cur]
  end.

(** All the ways [r] matches at the cursor, as the cursors after the
    match, in the order the backtracking engine tries them. *)
Fixpoint rmatch (r : regex) (cur : cursor) : list cursor :=
  match r with
  | Eps => [cur]
  | Chr p =>
      match snd cur with
      | c :: t => if p c then [(Some c, t)] else []
      | [] => []
      end
  | Cat r1 r2 => flat_map (rmatch r2) (rmatch r1 cur)
  | Alt r1 r2 => rmatch r1 cur ++ rmatch r2 cur
  | Star r1 => star_iter (rmatch r1) (S (remaining cur)) cur
  | WordB w =>
      if xorb (word_before w cur) (word_after w cur) then [cur] else []
  end.

(** [pattern.search(text)] as a truth value. *)
Fixpoint search_from (r : regex) (prev : option N) (t : pystr) : bool :=
  match rmatch r (prev, t) with
  | _ :: _ => true
  | [] =>
      match t with
      | [] => false
      | c :: t' => search_from r (Some c) t'
      end
  end.

Definition search (r : regex) (t : pystr) : bool := search_from r None t.

(** The match the engine reports at the cursor, when it consumes at
    least one character. *)
Definition first_match (r : regex) (cur : cursor) : option cursor :=
  match rmatch r cur with
  | c' :: _ => if (remaining c' <? remaining cur)%nat then Some c' else None
  | [] => None
  end.

(** [re.split(pattern, text)] for a pattern without groups whose
    matches are never empty: scan left to right, cut at each leftmost
    match.  [acc] is the piece being read, reversed. *)
Fixpoint split_go (r : regex) (fuel : nat) (cur : cursor) (acc : pystr)
  : list pystr :=
  match fuel with
  | O => [rev acc ++ snd cur]
  | S f =>
      match first_match r cur with
      | Some cur' => rev acc :: split_go r f cur' []
      | None =>
          match snd cur with
          | [] => [rev acc]
          | c :: t => split_go r f (Some c, t) (c :: acc)
          end
      end
  end.

Definition re_split (r : regex) (t : pystr) : list pystr :=
  split_go r (S (List.length t)) (None, t) [].

(** Pattern combinators. *)
Definition chr (x : N) : regex := Chr (N.eqb x).

Definition one_of (s : string) : regex :=
  Chr (fun c => existsb (N.eqb c) (str s)).

Definition ws : regex := Chr is_space.

Definition plus (r : regex) : regex := Cat r (Star r).

Fixpoint seq_of (rs : list regex) : regex :=
  match rs with
  | [] => Eps
  | [r] => r
  | r :: rs' => Cat r (seq_of rs')
  end.

Definition lit (s : string) : regex := seq_of (List.map chr (str s)).

(** [r{n,}] *)
Fixpoint at_least (n : nat) (r : regex) : regex :=
  match n with
  | O => Star r
  | S n' => Cat r (at_least n' r)
  end.

(** Simple lower-casing of [re.IGNORECASE], exact on every code point
    whose lower case is an ASCII letter: A-Z, U+0130 and U+212A. *)
Definition unicode_tolower (c : N) : N :=
  if ((65 <=? c) && (c <=? 90))%N then (c + 32)%N
  else if (c =? 304)%N then 105%N
  else if (c =? 8490)%N then 107%N
  else c.

(** A pattern character [x] (lower case, ASCII) under
    [re.IGNORECASE]; the engine also lets [s] match U+017F and [i]
    match U+0131. *)
Definition chr_ci (x : N) : regex :=
  Chr (fun c =>
         (unicode_tolower c =? x)%N
         || ((x =? 115) && (c =? 383))%N
         || ((x =? 105) && (c =? 305))%N).

Definition lit_ci (s : string) : regex := seq_of (List.map chr_ci (str s)).

(** A syntactic guarantee that every match of [r] consumes at least one
    character. *)
Fixpoint consuming (r : regex) : bool :=
  match r with
  | Chr _ => true
  | Cat r1 r2 => consuming r1 || consuming r2
  | Alt r1 r2 => consuming r1 && consuming r2
  | Eps | Star _ | WordB _ => false
  end.

(** What is left after a match is a suffix of what was there before. *)
Definition suffix_of (c' cur : cursor) : Prop :=
  exists mid, snd cur = mid ++ snd c'.

Lemma suffix_of_refl (cur : cursor) : suffix_of cur cur.
Proof. exists []; reflexivity. Qed.

Lemma suffix_of_trans (a b c : cursor) :
  suffix_of a b -> suffix_of b c -> suffix_of a c.
Proof.
  intros [m1 H1] [m2 H2]. exists (m2 ++ m1).
  rewrite H2, H1, app_assoc; reflexivity.
Qed.

Lemma star_iter_suffix (step : cursor -> list cursor) :
  (forall cur c', In c' (step cur) -> suffix_of c' cur) ->
  forall fuel cur c', In c' (star_iter step fuel cur) -> suffix_of c' cur.
Proof.
  intros Hstep fuel; induction fuel as [|f IH]; intros cur c'; simpl.
  - intros [<-|[]]; apply suffix_of_refl.
  - rewrite in_app_iff, in_flat_map.
    intros [[c1 [H1 H2]]|[<-|[]]]; [|apply suffix_of_refl].
    destruct (remaining c1 <? remaining cur)%nat; [|destruct H2].
    eapply suffix_of_trans; [apply IH; exact H2 | apply Hstep; exact H1].
Qed.

Lemma rmatch_suffix (r : regex) :
  forall cur c', In c' (rmatch r cur) -> suffix_of c' cur.
Proof.
  induction r as [|p|r1 IH1 r2 IH2|r1 IH1 r2 IH2|r1 IH1|w];
    intros cur c'; cbn [rmatch].
  - intros [<-|[]]; apply suffix_of_refl.
  - destruct cur as [prev [|c t]]; simpl; [intros []|].
    destruct (p c); [|intros []].
    intros [<-|[]]. exists [c]; reflexivity.
  - rewrite in_flat_map. intros [c1 [H1 H2]].
    eapply suffix_of_trans; [apply IH2; exact H2 | apply IH1; exact H1].
  - rewrite in_app_iff. intros [H|H]; [apply IH1 | apply IH2]; exact H.
  - apply star_iter_suffix; exact IH1.
  - destruct (xorb _ _); [|intros []].
    intros [<-|[]]; apply suffix_of_refl.
Qed.

Lemma first_match_suffix (r : regex) (cur c' : cursor) :
  first_match r cur = Some c' -> suffix_of c' cur.
Proof.
  unfold first_match. destruct (rmatch r cur) as [|c1 l] eqn:E; [easy|].
  destruct (remaining c1 <? remaining cur)%nat; [|easy].
  intros [= <-]. apply rmatch_suffix with r. rewrite E; left; reflexivity.
Qed.

Lemma suffix_of_remaining (c' cur : cursor) :
  suffix_of c' cur -> (remaining c' <= remaining cur)%nat.
Proof.
  intros [mid H]. unfold remaining. rewrite H, length_app. lia.
Qed.

Lemma consuming_progress (r : regex) :
  consuming r = true ->
  forall cur c', In c' (rmatch r cur) ->
                 (remaining c' < remaining cur)%nat.
Proof.
  induction r as [|p|r1 IH1 r2 IH2|r1 IH1 r2 IH2|r1 IH1|w];
    cbn [consuming]; intros Hc cur c'; try discriminate; cbn [rmatch].
  - destruct cur as [prev [|c t]]; simpl; [intros []|].
    destruct (p c); [|intros []].
    intros [<-|[]]. unfold remaining; simpl; lia.
  - rewrite in_flat_map. intros [c1 [H1 H2]].
    pose proof (suffix_of_remaining _ _ (rmatch_suffix r1 _ _ H1)) as L1.
    pose proof (suffix_of_remaining _ _ (rmatch_suffix r2 _ _ H2)) as L2.
    apply orb_true_iff in Hc. destruct Hc as [Hc|Hc].
    + specialize (IH1 Hc _ _ H1). lia.
    + specialize (IH2 Hc _ _ H2). lia.
  - apply andb_true_iff in Hc. destruct Hc as [Hc1 Hc2].
    rewrite in_app_iff. intros [H|H]; [apply IH1 | apply IH2]; assumption.
Qed.

(** For a consuming pattern the reported match is the engine's first
    one. *)
Lemma first_match_consuming (r : regex) (cur : cursor) :
  consuming r = true ->
  first_match r cur = hd_error (rmatch r cur).
Proof.
  intros Hc. unfold first_match.
  destruct (rmatch r cur) as [|c1 l] eqn:E; [reflexivity|].
  assert (H : (remaining c1 < remaining cur)%nat).
  { apply (consuming_progress r Hc). rewrite E; left; reflexivity. }
  apply Nat.ltb_lt in H. rewrite H. reflexivity.
Qed.

(** The fuel that [rmatch] and [re_split] hand out is never used up:
    any amount above the number of remaining characters gives the same
    result. *)
Lemma star_iter_fuel (step : cursor -> list cursor) (f1 : nat) :
  forall (f2 : nat) (cur : cursor),
    (remaining cur < f1)%nat -> (remaining cur < f2)%nat ->
    star_iter step f1 cur = star_iter step f2 cur.
Proof.
  induction f1 as [|f1 IH]; intros f2 cur H1 H2; [lia|].
  destruct f2 as [|f2]; [lia|]. simpl.
  f_equal. apply flat_map_ext. intros c'.
  destruct (remaining c' <? remaining cur)%nat eqn:E; [|reflexivity].
  apply Nat.ltb_lt in E. apply IH; lia.
Qed.

Lemma first_match_progress (r : regex) (cur c' : cursor) :
  first_match r cur = Some c' -> (remaining c' < remaining cur)%nat.
Proof.
  unfold first_match. destruct (rmatch r cur) as [|c1 l]; [easy|].
  destruct (remaining c1 <? remaining cur)%nat eqn:E; [|easy].
  intros [= <-]. apply Nat.ltb_lt; exact E.
Qed.

Lemma split_go_fuel (r : regex) (f1 : nat) :
  forall (f2 : nat) (cur : cursor) (acc : pystr),
    (remaining cur < f1)%nat -> (remaining cur < f2)%nat ->
    split_go r f1 cur acc = split_go r f2 cur acc.
Proof.
  induction f1 as [|f1 IH]; intros f2 cur acc H1 H2; [lia|].
  destruct f2 as [|f2]; [lia|]. simpl.
  destruct (first_match r cur) as [cur'|] eqn:E.
  - apply first_match_progress in E. f_equal. apply IH; lia.
  - destruct cur as [prev [|c t]]; [reflexivity|].
    unfold remaining in *; simpl in *. apply IH; simpl; lia.
Qed.

Lemma re_split_fuel (r : regex) (t : pystr) (extra : nat) :
  re_split r t = split_go r (S (List.length t) + extra) (None, t) [].
Proof. unfold re_split. apply split_go_fuel; unfold remaining; simpl; lia. Qed.

End Regex.

(** * The fragment of numpy the similarity computations use *)

Module Numpy.
Local Open Scope R_scope.

(** A one-dimensional array of floats. *)
Definition vector : Type := list R.

(** The sum of the products of the paired entries; [np.dot(a, b)] on
    arrays of one length. *)
Fixpoint dot (a b : vector) : R :=
  match a, b with
  | x :: a', y :: b' => x * y + dot a' b'
  | _, _ => 0
  end.

(** [np.dot(a, b)], which raises [ValueError] on arrays of different
    lengths. *)
Definition np_dot (a b : vector) : option R :=
  if (List.length a =? List.length b)%nat then Some (dot a b) else None.

(** [np.linalg.norm(a)] *)
Definition norm (a : vector) : R := sqrt (dot a a).

(** Comparisons of floats as truth values: [x == 0], [x <= y],
    [x == y]. *)
Definition is_zero (x : R) : bool :=
  if Req_dec_T x 0 then true else false.
Definition Rleb (x y : R) : bool := if Rle_dec x y then true else false.
Definition Reqb (x y : R) : bool := if Req_dec_T x y then true else false.

Lemma Rleb_true (x y : R) : Rleb x y = true <-> x <= y.
Proof. unfold Rleb. destruct (Rle_dec x y); split; easy. Qed.

Lemma Rleb_false (x y : R) : Rleb x y = false <-> y < x.
Proof.
  unfold Rleb. destruct (Rle_dec x y); split; try easy; intros; lra.
Qed.

Lemma Reqb_true (x y : R) : Reqb x y = true <-> x = y.
Proof. unfold Reqb. destruct (Req_dec_T x y); split; easy. Qed.

Lemma is_zero_false (x : R) : is_zero x = false <-> x <> 0.
Proof. unfold is_zero. destruct (Req_dec_T x 0); split; easy. Qed.

Lemma is_zero_true (x : R) : is_zero x = true <-> x = 0.
Proof. unfold is_zero. destruct (Req_dec_T x 0); split; easy. Qed.

Lemma dot_comm (a b : vector) : dot a b = dot b a.
Proof.
  revert b; induction a as [|x a IH]; intros [|y b]; simpl;
    try reflexivity.
  rewrite IH. apply f_equal2; [apply Rmult_comm | reflexivity].
Qed.

Lemma dot_self_nonneg (a : vector) : 0 <= dot a a.
Proof.
  induction a as [|x a IH]; simpl; [lra|].
  pose proof (Rle_0_sqr x) as H. unfold Rsqr in H. lra.
Qed.

Lemma dot_nonneg (a b : vector) :
  Forall (fun x => 0 <= x) a -> Forall (fun x => 0 <= x) b ->
  0 <= dot a b.
Proof.
  intros Ha; revert b; induction Ha as [|x a Hx Ha IH]; intros b Hb;
    simpl; [lra|].
  destruct Hb as [|y b Hy Hb]; [lra|].
  specialize (IH b Hb). pose proof (Rmult_le_pos x y Hx Hy). lra.
Qed.

(** Cauchy-Schwarz. *)
Lemma dot_sqr_le (a b : vector) :
  dot a b * dot a b <= dot a a * dot b b.
Proof.
  revert b; induction a as [|x a IH]; intros [|y b]; simpl;
    [lra | lra | lra |].
  - specialize (IH b).
    pose proof (dot_self_nonneg a) as Ha.
    pose proof (dot_self_nonneg b) as Hb.
    set (D := dot a b) in *. set (A := dot a a) in *.
    set (B := dot b b) in *.
    assert (Hc : 2 * (x * y) * D <= x * x * B + y * y * A).
    { destruct (Req_dec_T A 0) as [HA|HA].
      - assert (HD : D = 0) by nra. rewrite HD.
        pose proof (Rle_0_sqr x) as Hx. unfold Rsqr in Hx. nra.
      - assert (HApos : 0 < A) by lra.
        assert (H1 : 0 <= (x * D - A * y) * (x * D - A * y)).
        { pose proof (Rle_0_sqr (x * D - A * y)) as H.
          unfold Rsqr in H; exact H. }
        assert (H2 : x * x * (D * D) <= x * x * (A * B)).
        { apply Rmult_le_compat_l; [|exact IH].
          pose proof (Rle_0_sqr x) as Hx. unfold Rsqr in Hx; exact Hx. }
        assert (H3 : 0 <= A * (x * x * B + y * y * A - 2 * (x * y) * D))
          by nra.
        assert (H4 : 0 <= x * x * B + y * y * A - 2 * (x * y) * D).
        { apply Rmult_le_reg_l with A; [exact HApos|]. lra. }
        lra. }
    nra.
Qed.

Lemma norm_nonneg (a : vector) : 0 <= norm a.
Proof. apply sqrt_pos. Qed.

Lemma norm_sqr (a : vector) : norm a * norm a = dot a a.
Proof. apply sqrt_sqrt, dot_self_nonneg. Qed.

(** For non-negative arrays of non-zero norm the cosine is in [0, 1]. *)
Lemma cosine_range (a b : vector) :
  Forall (fun x => 0 <= x) a -> Forall (fun x => 0 <= x) b ->
  norm a <> 0 -> norm b <> 0 ->
  0 <= dot a b / (norm a * norm b) <= 1.
Proof.
  intros Ha Hb Hna Hnb.
  pose proof (norm_nonneg a) as Pa. pose proof (norm_nonneg b) as Pb.
  assert (Hpos : 0 < norm a * norm b) by (apply Rmult_lt_0_compat; lra).
  pose proof (dot_nonneg a b Ha Hb) as Hd.
  split.
  - apply Rmult_le_pos; [exact Hd|].
    apply Rlt_le, Rinv_0_lt_compat; exact Hpos.
  - apply Rmult_le_reg_r with (norm a * norm b); [exact Hpos|].
    unfold Rdiv. rewrite Rmult_assoc, Rinv_l by lra.
    rewrite Rmult_1_r, Rmult_1_l.
    pose proof (dot_sqr_le a b) as Hcs.
    rewrite <- (norm_sqr a), <- (norm_sqr b) in Hcs.
    destruct (Rle_dec (dot a b) (norm a * norm b)) as [H|H]; [exact H|].
    exfalso. apply Rnot_le_lt in H.
    assert (norm a * norm b * (norm a * norm b) < dot a b * dot a b)
      by nra.
    nra.
Qed.

End Numpy.

(** * The catalog and the files it refers to *)

Module Catalog.
Import PyStr.

(** One persisted catalog entry, with the keys [clip_parser.py]
    writes. *)
Record clip : Type := mk_clip {
  clip_file : pystr;
  source_file : pystr;
  text : pystr;
  text_original : pystr;
  start : Q;
  end_ : Q;
  duration : Q;
  energy_db : Q
}.

(** The [filters] snapshot of the catalog. *)
Record filters : Type := mk_filters {
  hallucination_detection : bool;
  emotional_enhancement : bool;
  discord_audio_mode : bool;
  min_energy_db : Q;
  min_transcript_length : Z
}.

(** The content of [micro_clips.json]. *)
Record catalog : Type := mk_catalog {
  generated_at : pystr;
  whisper_model : pystr;
  whisper_prompt : pystr;
  catalog_filters : filters;
  total_clips : Z;
  clips : list clip
}.

(** The part of the file system the catalog tools touch: the catalog
    file (absent, or holding a catalog) and the files of the clip
    directory by name, with their bytes. *)
Record files : Type := mk_files {
  catalog_json : option catalog;
  clip_dir : gmap pystr (list N)
}.

End Catalog.

(** * [utils.py]: text heuristics and clip matching *)

Module Utils.
Import PyStr Regex Numpy Catalog.

(** ** Semantic beat splitting *)

(** [\s+word\s+] *)
Definition conjunction (w : string) : regex :=
  seq_of [plus ws; lit w; plus ws].

(** [r'[.!?;]|\s+but\s+|\s+and\s+|\s+so\s+|\s+then\s+'] *)
Definition split_regex : regex :=
  Alt (one_of ".!?;")
    (Alt (conjunction "but")
       (Alt (conjunction "and")
          (Alt (conjunction "so") (conjunction "then")))).

Definition nonempty (t : pystr) : bool :=
  match t with [] => false | _ :: _ => true end.

(** [[b.strip() for b in re.split(split_regex, text) if b.strip()]] *)
Definition beats_of (text : pystr) : list pystr :=
  List.map strip
    (List.filter (fun b => nonempty (strip b)) (re_split split_regex text)).

Definition split_semantic_beats (text : pystr) : list pystr :=
  match beats_of text with
  | [] => [strip text]
  | beats => beats
  end.

(** The fragments [bs] occur in [t] one after the other, without
    overlap, in this order. *)
Inductive in_order : list pystr -> pystr -> Prop :=
| in_order_nil (t : pystr) : in_order [] t
| in_order_cons (b : pystr) (bs : list pystr) (pre rest : pystr) :
    in_order bs rest -> in_order (b :: bs) (pre ++ b ++ rest).

(** ** Whisper hallucination detection *)

Section Hallucination.

(** [str.isalnum] above the ASCII range: the Unicode character
    database, which is not part of the repository. *)
Variable uni_alnum : N -> bool.

(** The class [\w] of [re] on [str] patterns. *)
Definition is_word (c : N) : bool :=
  if (c <? 128)%N then
    (((48 <=? c) && (c <=? 57)) || ((65 <=? c) && (c <=? 90))
     || (c =? 95) || ((97 <=? c) && (c <=? 122)))%N
  else uni_alnum c.

(** The group [\bword\s*] repeated [{n,}] under [re.IGNORECASE] *)
Definition filler (w : string) (n : nat) : regex :=
  at_least n (seq_of [WordB is_word; lit_ci w; Star ws]).

Definition dots_or_spaces : regex := Star (Alt (chr 46) ws).

Definition _HALLUCINATION_PATTERNS : list regex :=
  [ filler "ha" 5;
    filler "haha" 4;
    filler "lol" 4;
    filler "um" 5;
    filler "uh" 5;
    seq_of [lit_ci "thank you"; dots_or_spaces; lit_ci "thank you";
            dots_or_spaces; lit_ci "thank you"];
    lit_ci "please subscribe";
    lit_ci "like and subscribe";
    lit_ci "see you in the next";
    Cat (lit_ci "[music]") (plus (Cat (Star ws) (lit_ci "[music]")));
    plus (chr 9834) ].

(** [chunk == next1 == next2] at position [i] for chunks of [length]. *)
Definition repeats_thrice (text : pystr) (length i : nat) : bool :=
  let chunk := slice text i (i + length) in
  let next1 := slice text (i + length) (i + length * 2) in
  let next2 := slice text (i + length * 2) (i + length * 3) in
  pystr_eqb chunk next1 && pystr_eqb next1 next2.

Definition is_whisper_hallucination (text : pystr) : bool :=
  if negb (nonempty text) || (List.length text <? 50)%nat then false
  else if existsb (fun pattern => search pattern text)
            _HALLUCINATION_PATTERNS then true
  else if existsb
            (fun length =>
               existsb (repeats_thrice text length)
                 (seq 0 (List.length text - length * 3)))
            (seq 8 23) then true
  else if (500 <? List.length text)%nat then true
  else false.

End Hallucination.

(** The word table restricted to ASCII, for running the detector on
    ASCII text. *)
Definition ascii_only : N -> bool := fun _ => false.

(** ** Hallucination cleanup *)

(** [chunk == next_chunk] at position [i] for chunks of [length]. *)
Definition repeats_once (text : pystr) (length i : nat) : bool :=
  pystr_eqb (slice text i (i + length))
    (slice text (i + length) (i + length * 2)).

(** The body of the inner loop: [return cleaned] or go on. *)
Definition clean_at (text : pystr) (length i : nat) : option pystr :=
  if repeats_once text length i then
    let cleaned := strip (firstn i text) in
    if (0 <? List.length cleaned)%nat then Some cleaned else None
  else None.

Definition clean_hallucination (text : pystr) : pystr :=
  match
    for_first (seq 2 19)
      (fun length =>
         for_first (seq 0 (List.length text - length * 2))
           (clean_at text length))
  with
  | Some cleaned => cleaned
  | None => strip (firstn 100 text)
  end.

(** A substring of length [L] at position [i] that is immediately
    followed by a copy of itself. *)
Definition immediate_repeat (text : pystr) (L i : nat) : Prop :=
  (i + 2 * L <= List.length text)%nat /\
  slice text i (i + L) = slice text (i + L) (i + 2 * L).

(** An ordinary sentence of 80 characters. *)
Definition normal_sentence : pystr :=
  str "We walked along the river this morning and watched the boats drift past the pier".

(** ** Clip matching *)

(** A catalog entry after [clip["embedding"] = encode_text(clip["text"])]. *)
Record embedded_clip : Type := mk_embedded {
  meta : clip;
  embedding : vector
}.

(** [config.SEMANTIC_THRESHOLD], [config.MULTI_CLIP_MODE] and
    [config.MAX_CLIPS_PER_BEAT]. *)
Definition SEMANTIC_THRESHOLD : R := 6 / 10.
Definition MULTI_CLIP_MODE : bool := true.
Definition MAX_CLIPS_PER_BEAT : Z := 3.

(** [cosine_similarity(a, b)]: the zero-norm test comes before the
    product, which raises on arrays of different lengths. *)
Definition cosine_similarity (a b : vector) : option R :=
  let norm_a := norm a in
  let norm_b := norm b in
  if is_zero norm_a || is_zero norm_b then Some 0%R
  else
    match np_dot a b with
    | Some d => Some (d / (norm_a * norm_b))%R
    | None => None
    end.

(** The loop that fills [scored]; an exception in one iteration ends
    the call. *)
Fixpoint score_clips (phrase_emb : vector) (clips : list embedded_clip)
  : option (list (R * embedded_clip)) :=
  match clips with
  | [] => Some []
  | clip :: rest =>
      match cosine_similarity phrase_emb (embedding clip) with
      | None => None
      | Some sim =>
          match score_clips phrase_emb rest with
          | None => None
          | Some scored => Some ((sim, clip) :: scored)
          end
      end
  end.

(** [scored.sort(reverse=True, key=lambda x: x[0])].  Python's sort is
    stable, also with [reverse=True]: the result is the one list that
    is non-increasing in the key and keeps entries of equal key in
    their original order.  It is computed here by insertion from the
    right: an entry goes before the first entry whose key is not
    greater than its own. *)
Fixpoint insert_desc {A : Type} (x : R * A) (l : list (R * A))
  : list (R * A) :=
  match l with
  | [] => [x]
  | y :: l' =>
      if Rleb (fst y) (fst x) then x :: l else y :: insert_desc x l'
  end.

Definition sort_desc {A : Type} (l : list (R * A)) : list (R * A) :=
  fold_right insert_desc [] l.

(** [l[:n]] for any integer [n]: a negative [n] counts from the end. *)
Definition slice_to {A : Type} (l : list A) (n : Z) : list A :=
  if (0 <=? n)%Z then firstn (Z.to_nat n) l
  else firstn (List.length l - Z.to_nat (- n)) l.

Section Matching.

(** [encode_text]: the sentence-transformer model, which is not part
    of the repository. *)
Variable encode_text : pystr -> vector.

Definition find_best_clips (phrase_text : pystr)
  (clips : list embedded_clip) (top_n : Z) (min_similarity : option R)
  : option (list embedded_clip) :=
  let min_similarity :=
    match min_similarity with
    | Some m => m
    | None => SEMANTIC_THRESHOLD
    end in
  let phrase_emb := encode_text phrase_text in
  match score_clips phrase_emb clips with
  | None => None
  | Some scored =>
      let scored := sort_desc scored in
      Some (slice_to
              (List.map snd
                 (List.filter (fun p => Rleb min_similarity (fst p)) scored))
              top_n)
  end.

(** The selection of [process_message] in [main.py] for one beat, with
    its fallback. *)
Definition select_clips (beat : pystr) (clips : list embedded_clip)
  : option (list embedded_clip) :=
  let top_n := if MULTI_CLIP_MODE then MAX_CLIPS_PER_BEAT else 1%Z in
  match find_best_clips beat clips top_n None with
  | Some [] => find_best_clips beat clips 1 (Some 0%R)
  | selected => selected
  end.

End Matching.

(** The similarity of a clip to a query embedding, where it is
    defined. *)
Definition similarity (phrase_emb : vector) (c : embedded_clip) : R :=
  match cosine_similarity phrase_emb (embedding c) with
  | Some sim => sim
  | None => 0%R
  end.

(** A catalog of one clip whose text is encoded opposite to every
    query, and the encoder that does so. *)
Definition opposite_clip : embedded_clip :=
  {| meta := mk_clip (str "a_0000.wav") (str "a.wav") (str "no") (str "no")
               0 1 1 (-20);
     embedding := [(-1)%R; 0%R] |}.

Definition fixed_encoder : pystr -> vector := fun _ => [1%R; 0%R].

(** Two clips whose texts are encoded like every query. *)
Definition agreeing_clip (name : string) : embedded_clip :=
  {| meta := mk_clip (str name) (str "a.wav") (str "yes") (str "yes")
               0 1 1 (-20);
     embedding := [1%R; 0%R] |}.

(** ** Facts about beat splitting *)

(** [split_regex] never matches the empty string, as [re_split]
    assumes. *)
Lemma split_regex_consuming : consuming split_regex = true.
Proof. reflexivity. Qed.

Lemma in_order_head (b : pystr) (bs : list pystr) (rest : pystr) :
  in_order bs rest -> in_order (b :: bs) (b ++ rest).
Proof. intros H. apply (in_order_cons b bs [] rest H). Qed.

Lemma in_order_single (b : pystr) : in_order [b] b.
Proof.
  rewrite <- (app_nil_r b) at 2. apply in_order_head. constructor.
Qed.

Lemma in_order_skip (bs : list pystr) (pre rest : pystr) :
  in_order bs rest -> in_order bs (pre ++ rest).
Proof.
  intros H; destruct H as [t|b bs pre' rest' H].
  - constructor.
  - rewrite app_assoc. constructor; exact H.
Qed.

Lemma in_order_shrink (b b' : pystr) (bs : list pystr) (t p s : pystr) :
  in_order (b :: bs) t -> b = p ++ b' ++ s -> in_order (b' :: bs) t.
Proof.
  intros H E; inversion H as [|b0 bs0 pre rest Hr]; subst.
  replace (pre ++ (p ++ b' ++ s) ++ rest)
    with ((pre ++ p) ++ b' ++ (s ++ rest))
    by (repeat rewrite <- app_assoc; reflexivity).
  constructor. apply in_order_skip; exact Hr.
Qed.

Lemma in_order_filter (f : pystr -> bool) (bs : list pystr) (t : pystr) :
  in_order bs t -> in_order (List.filter f bs) t.
Proof.
  induction 1 as [t|b bs pre rest H IH]; simpl.
  - constructor.
  - destruct (f b).
    + constructor; exact IH.
    + rewrite app_assoc. apply in_order_skip; exact IH.
Qed.

Lemma in_order_map_strip (bs : list pystr) (t : pystr) :
  in_order bs t -> in_order (List.map strip bs) t.
Proof.
  induction 1 as [t|b bs pre rest H IH]; simpl.
  - constructor.
  - destruct (strip_infix b) as [p [s E]].
    apply in_order_shrink with (b := b) (p := p) (s := s); [|exact E].
    constructor; exact IH.
Qed.

Lemma split_go_in_order (r : regex) (fuel : nat) :
  forall (cur : cursor) (acc : pystr),
    in_order (split_go r fuel cur acc) (rev acc ++ snd cur).
Proof.
  induction fuel as [|f IH]; intros cur acc; simpl.
  - apply in_order_single.
  - destruct (first_match r cur) as [cur'|] eqn:E.
    + destruct (first_match_suffix r cur cur' E) as [mid Hm].
      rewrite Hm.
      apply in_order_head.
      apply in_order_skip. apply (IH cur' []).
    + destruct cur as [prev [|c t]]; simpl.
      * rewrite app_nil_r. apply in_order_single.
      * specialize (IH (Some c, t) (c :: acc)). simpl in IH.
        rewrite <- app_assoc in IH. exact IH.
Qed.

Lemma re_split_in_order (r : regex) (t : pystr) : in_order (re_split r t) t.
Proof. apply (split_go_in_order r (S (List.length t)) (None, t) []). Qed.

Lemma beats_of_in_order (text : pystr) : in_order (beats_of text) text.
Proof.
  unfold beats_of. apply in_order_map_strip, in_order_filter.
  apply re_split_in_order.
Qed.

Lemma beats_of_trimmed (text : pystr) :
  Forall (fun b => strip b = b /\ b <> []) (beats_of text).
Proof.
  unfold beats_of. apply Forall_forall. intros b Hb.
  apply in_map_iff in Hb. destruct Hb as [p [<- Hp]].
  apply filter_In in Hp. destruct Hp as [_ Hp].
  split; [apply strip_idem|].
  destruct (strip p); [discriminate | discriminate].
Qed.

Lemma beats_of_nil_iff (text : pystr) :
  beats_of text = [] <->
  Forall (fun p => strip p = []) (re_split split_regex text).
Proof.
  unfold beats_of.
  induction (re_split split_regex text) as [|p ps IH]; simpl.
  - split; [constructor | reflexivity].
  - destruct (strip p) eqn:E; simpl.
    + rewrite IH. split; intros H.
      * constructor; [exact E | exact H].
      * inversion H; assumption.
    + split; [discriminate|]. intros H; inversion H; congruence.
Qed.

(** C7.  For every text, [split_semantic_beats] returns a non-empty
    list of trimmed fragments that occur in the text in the order
    returned; when splitting on the terminators and the conjunctions
    leaves no non-empty fragment the result is the trimmed text alone,
    and otherwise it is the list of the non-empty trimmed fragments. *)
Theorem split_semantic_beats_spec (text : pystr) :
  split_semantic_beats text <> [] /\
  Forall (fun b => strip b = b) (split_semantic_beats text) /\
  in_order (split_semantic_beats text) text /\
  (Forall (fun p => strip p = []) (re_split split_regex text) ->
   split_semantic_beats text = [strip text]) /\
  (~ Forall (fun p => strip p = []) (re_split split_regex text) ->
   split_semantic_beats text = beats_of text /\
   Forall (fun b => b <> []) (split_semantic_beats text)).
Proof.
  pose proof (beats_of_in_order text) as Hord.
  pose proof (beats_of_trimmed text) as Htrim.
  pose proof (beats_of_nil_iff text) as Hnil.
  unfold split_semantic_beats.
  destruct (beats_of text) as [|b bs] eqn:E.
  - split; [discriminate|]. split; [|split; [|split]].
    + constructor; [apply strip_idem | constructor].
    + destruct (strip_infix text) as [p [s Hps]].
      rewrite Hps at 2. constructor. constructor.
    + reflexivity.
    + intros H. exfalso. apply H, Hnil; reflexivity.
  - split; [discriminate|]. split; [|split; [|split]].
    + eapply Forall_impl; [|exact Htrim]. intros a [Ha _]; exact Ha.
    + exact Hord.
    + intros H. apply Hnil in H. discriminate.
    + intros _. split; [reflexivity|].
      eapply Forall_impl; [|exact Htrim]. intros a [_ Ha]; exact Ha.
Qed.

Lemma split_semantic_beats_spec_witness :
  Forall (fun p => strip p = []) (re_split split_regex (str " and ")) /\
  split_semantic_beats (str " and ") = [strip (str " and ")].
Proof.
  assert (H : Forall (fun p => strip p = [])
                (re_split split_regex (str " and "))).
  { vm_compute. repeat constructor. }
  split; [exact H|].
  apply (proj1 (proj2 (proj2 (proj2
           (split_semantic_beats_spec (str " and ")))))).
  exact H.
Defined.

Example split_semantic_beats_message :
  split_semantic_beats (str "That's amazing! I love it so much.")
  = [str "That's amazing"; str "I love it"; str "much"].
Proof. vm_compute. reflexivity. Qed.

Example split_semantic_beats_fallback :
  split_semantic_beats (str " and ") = [str "and"].
Proof. vm_compute. reflexivity. Qed.

(** ** Facts about hallucination detection *)

(** C2 (amended).  [is_whisper_hallucination] returns [False] for
    every text shorter than 50 characters, whatever it contains: so
    for the empty text, for [ha ha ha ha ha ha] (17 characters) and for
    [please subscribe and hit the bell] (33 characters); and it returns
    [False] for a normal 80-character sentence without repetition. *)
Theorem is_whisper_hallucination_short (uni_alnum : N -> bool) :
  (forall text : pystr,
     (List.length text < 50)%nat ->
     is_whisper_hallucination uni_alnum text = false) /\
  is_whisper_hallucination uni_alnum (str "") = false /\
  is_whisper_hallucination uni_alnum (str "ha ha ha ha ha ha") = false /\
  is_whisper_hallucination uni_alnum
    (str "please subscribe and hit the bell") = false /\
  List.length normal_sentence = 80%nat /\
  is_whisper_hallucination uni_alnum normal_sentence = false.
Proof.
  assert (Hshort : forall text : pystr,
             (List.length text < 50)%nat ->
             is_whisper_hallucination uni_alnum text = false).
  { intros text Hlen. unfold is_whisper_hallucination.
    apply Nat.ltb_lt in Hlen. rewrite Hlen, orb_true_r; reflexivity. }
  split; [exact Hshort|].
  split; [apply Hshort; simpl; lia|].
  split; [apply Hshort; simpl; lia|].
  split; [apply Hshort; simpl; lia|].
  split; [reflexivity|].
  vm_compute. reflexivity.
Qed.

Lemma is_whisper_hallucination_short_witness :
  (List.length (str "um um um um um") < 50)%nat /\
  is_whisper_hallucination ascii_only (str "um um um um um") = false.
Proof.
  split; [simpl; lia|].
  apply (proj1 (is_whisper_hallucination_short ascii_only)
           (str "um um um um um")).
  simpl; lia.
Defined.

(** C2 as stated fails on its own examples: both texts are shorter
    than 50 characters, so the length guard answers before any pattern
    is tried. *)
Lemma is_whisper_hallucination_short_examples :
  is_whisper_hallucination ascii_only (str "ha ha ha ha ha ha") <> true /\
  is_whisper_hallucination ascii_only
    (str "please subscribe and hit the bell") <> true.
Proof. split; vm_compute; discriminate. Qed.

(** The pattern table decides from 50 characters on. *)
Example is_whisper_hallucination_filler :
  is_whisper_hallucination ascii_only
    (str "ha ha ha ha ha ha and then some more text to reach fifty chars")
  = true.
Proof. vm_compute; reflexivity. Qed.

Example is_whisper_hallucination_outro :
  is_whisper_hallucination ascii_only
    (str "well this is it, please SUBSCRIBE and hit the bell, thanks")
  = true.
Proof. vm_compute; reflexivity. Qed.

Example is_whisper_hallucination_loop :
  is_whisper_hallucination ascii_only
    (str "I said abcdefgh abcdefgh abcdefgh and that was all there was to it")
  = true.
Proof. vm_compute; reflexivity. Qed.

(** ** Facts about hallucination cleanup *)

Lemma for_first_seq_Some {B : Type} (body : nat -> option B) (n a : nat)
  (b : B) :
  for_first (seq a n) body = Some b ->
  exists x, (a <= x < a + n)%nat /\ body x = Some b /\
            forall x', (a <= x' < x)%nat -> body x' = None.
Proof.
  revert a; induction n as [|n IH]; intros a; simpl; [discriminate|].
  destruct (body a) as [b0|] eqn:E.
  - intros [= <-]. exists a. split; [lia|]. split; [exact E|]. lia.
  - intros H. destruct (IH (S a) H) as [x [Hx [Hb Hmin]]].
    exists x. split; [lia|]. split; [exact Hb|].
    intros x' Hx'. destruct (Nat.eq_dec x' a) as [->|Hne]; [exact E|].
    apply Hmin; lia.
Qed.

Lemma for_first_seq_None {B : Type} (body : nat -> option B) (n a : nat) :
  for_first (seq a n) body = None <->
  forall x, (a <= x < a + n)%nat -> body x = None.
Proof.
  revert a; induction n as [|n IH]; intros a; simpl.
  - split; [intros _ x Hx; lia | reflexivity].
  - destruct (body a) as [b0|] eqn:E.
    + split; [discriminate|]. intros H.
      rewrite <- E. apply H; lia.
    + rewrite IH. split; intros H x Hx.
      * destruct (Nat.eq_dec x a) as [->|Hne]; [exact E | apply H; lia].
      * apply H; lia.
Qed.

Lemma clean_at_Some (text : pystr) (L i : nat) (c : pystr) :
  clean_at text L i = Some c ->
  slice text i (i + L) = slice text (i + L) (i + 2 * L) /\
  c = strip (firstn i text) /\ c <> [].
Proof.
  unfold clean_at, repeats_once.
  replace (i + 2 * L)%nat with (i + L * 2)%nat by lia.
  destruct (pystr_eqb _ _) eqn:E; [|discriminate].
  apply pystr_eqb_eq in E.
  destruct (strip (firstn i text)) as [|x s] eqn:Es; [discriminate|].
  intros [= <-].
  split; [exact E|]. split; [reflexivity | discriminate].
Qed.

Lemma for_first_seq_first {B : Type} (body : nat -> option B) (n a x : nat)
  (b : B) :
  (a <= x < a + n)%nat -> body x = Some b ->
  (forall x', (a <= x' < x)%nat -> body x' = None) ->
  for_first (seq a n) body = Some b.
Proof.
  revert a; induction n as [|n IH]; intros a Hx Hb Hmin; [lia|].
  simpl. destruct (Nat.eq_dec a x) as [->|Hne].
  - rewrite Hb; reflexivity.
  - rewrite (Hmin a) by lia. apply IH; [lia | exact Hb |].
    intros x' Hx'. apply Hmin; lia.
Qed.

Lemma clean_at_repeat (text : pystr) (L i : nat) :
  slice text i (i + L) = slice text (i + L) (i + 2 * L) ->
  strip (firstn i text) <> [] ->
  clean_at text L i = Some (strip (firstn i text)).
Proof.
  unfold clean_at, repeats_once. intros E Hne.
  replace (i + 2 * L)%nat with (i + L * 2)%nat in E by lia.
  apply pystr_eqb_eq in E. rewrite E.
  destruct (strip (firstn i text)); [contradiction | reflexivity].
Qed.

Lemma clean_at_no_candidate (text : pystr) (L i : nat) :
  (slice text i (i + L) = slice text (i + L) (i + 2 * L) ->
   strip (firstn i text) = []) ->
  clean_at text L i = None.
Proof.
  unfold clean_at, repeats_once. intros H.
  replace (i + 2 * L)%nat with (i + L * 2)%nat in H by lia.
  destruct (pystr_eqb _ _) eqn:E; [|reflexivity].
  apply pystr_eqb_eq in E. rewrite (H E). reflexivity.
Qed.

(** C8 (amended).  [clean_hallucination] tries the lengths 2..20 in
    increasing order and, for each, the positions from left to right.
    (1) It returns the trimmed prefix before the first immediate
    repeat, in that order, whose trimmed prefix is not empty, when
    that repeat is followed by at least one more character.  (2) When
    every immediate repeat has an empty trimmed prefix (in particular
    when there is none, or the only one starts the text) it returns
    the first 100 characters trimmed.  (3) In all cases the result is
    either the first 100 characters trimmed or the non-empty trimmed
    prefix before some immediate repeat. *)
Theorem clean_hallucination_scan (text : pystr) :
  (forall L i : nat,
      (2 <= L <= 20)%nat -> immediate_repeat text L i ->
      (i + 2 * L < List.length text)%nat ->
      strip (firstn i text) <> [] ->
      (forall L' i' : nat,
          (2 <= L')%nat -> (L' < L \/ (L' = L /\ i' < i))%nat ->
          immediate_repeat text L' i' ->
          strip (firstn i' text) = []) ->
      clean_hallucination text = strip (firstn i text)) /\
  ((forall L i : nat,
      (2 <= L <= 20)%nat -> immediate_repeat text L i ->
      strip (firstn i text) = []) ->
   clean_hallucination text = strip (firstn 100 text)) /\
  (clean_hallucination text = strip (firstn 100 text) \/
   exists L i : nat,
     (2 <= L <= 20)%nat /\ immediate_repeat text L i /\
     clean_hallucination text = strip (firstn i text) /\
     clean_hallucination text <> []).
Proof.
  split; [|split].
  - intros L i HL [_ Hrep] Hroom Hne Hfirst.
    unfold clean_hallucination.
    rewrite (for_first_seq_first _ 19 2 L (strip (firstn i text)));
      [reflexivity | lia | |].
    + apply (for_first_seq_first _ _ 0 i); [lia | |].
      * apply clean_at_repeat; assumption.
      * intros i' Hi'. apply clean_at_no_candidate. intros Hrep'.
        apply (Hfirst L i'); [lia | right; lia |].
        split; [lia | exact Hrep'].
    + intros L' HL'. apply for_first_seq_None. intros i' Hi'.
      apply clean_at_no_candidate. intros Hrep'.
      apply (Hfirst L' i'); [lia | left; lia |].
      split; [lia | exact Hrep'].
  - intros Hall. unfold clean_hallucination.
    destruct (for_first (seq 2 19) _) as [c|] eqn:E; [|reflexivity].
    exfalso. apply for_first_seq_Some in E.
    destruct E as [L [HL [Hin _]]].
    apply for_first_seq_Some in Hin. destruct Hin as [i [Hi [Hc _]]].
    apply clean_at_Some in Hc. destruct Hc as [Heq [Hc Hne]].
    apply Hne. rewrite Hc. apply (Hall L i); [lia|].
    split; [lia | exact Heq].
  - unfold clean_hallucination.
    destruct (for_first (seq 2 19) _) as [c|] eqn:E; [|left; reflexivity].
    right. apply for_first_seq_Some in E.
    destruct E as [L [HL [Hin _]]].
    apply for_first_seq_Some in Hin. destruct Hin as [i [Hi [Hc _]]].
    apply clean_at_Some in Hc. destruct Hc as [Heq [Hc Hne]].
    exists L, i. split; [lia|]. split; [split; [lia | exact Heq]|].
    split; [exact Hc | exact Hne].
Qed.

Lemma clean_hallucination_scan_witness :
  clean_hallucination (str "abcdefg") = strip (firstn 100 (str "abcdefg")).
Proof.
  apply (proj1 (proj2 (clean_hallucination_scan (str "abcdefg")))).
  intros L i HL [Hlen Hrep]. exfalso.
  change (List.length (str "abcdefg")) with 7%nat in Hlen.
  assert (HL' : (L = 2 \/ L = 3)%nat) by lia.
  assert (Hi : (i = 0 \/ i = 1 \/ i = 2 \/ i = 3)%nat) by lia.
  destruct HL' as [-> | ->];
    destruct Hi as [-> | [-> | [-> | ->]]];
    solve [discriminate Hrep | simpl in Hlen; lia].
Defined.

(** C8 as stated fails: the scan is by length first, so the repeat
    that decides need not be the leftmost one.  Here [abc] repeats at
    position 1 and nothing repeats at position 0, yet the result is the
    prefix before the later, shorter repeat of [qr]. *)
Lemma clean_hallucination_not_earliest :
  let t := str "xabcabc qrqr " in
  immediate_repeat t 3 1 /\
  (forall L : nat, (2 <= L <= 20)%nat -> ~ immediate_repeat t L 0) /\
  clean_hallucination t = str "xabcabc" /\
  clean_hallucination t <> strip (firstn 1 t).
Proof.
  cbv zeta. split; [split; [simpl; lia | reflexivity]|].
  split.
  - intros L HL [Hlen Hrep].
    change (List.length (str "xabcabc qrqr ")) with 13%nat in Hlen.
    assert (HL' : (L = 2 \/ L = 3 \/ L = 4 \/ L = 5 \/ L = 6)%nat) by lia.
    destruct HL' as [-> | [-> | [-> | [-> | ->]]]]; discriminate Hrep.
  - split; [vm_compute; reflexivity | vm_compute; discriminate].
Qed.

(** A repeat at the very start does not by itself trigger the
    truncation: the scan goes on to the next repeat. *)
Example clean_hallucination_start_repeat :
  let t := str "ababXcdcdYY" in
  immediate_repeat t 2 0 /\
  clean_hallucination t = str "ababX" /\
  strip (firstn 100 t) = t.
Proof.
  cbv zeta. split; [split; [simpl; lia | reflexivity]|].
  split; vm_compute; reflexivity.
Qed.

Example clean_hallucination_hello :
  clean_hallucination (str "hello hello world") = str "hello hello world".
Proof. vm_compute; reflexivity. Qed.

(** The positions tried stop one short of a repeat that ends exactly
    at the end of the text. *)
Example clean_hallucination_end_repeat :
  immediate_repeat (str "xyabab") 2 2 /\
  clean_hallucination (str "xyabab") = str "xyabab".
Proof. split; [split; [simpl; lia | reflexivity] | vm_compute; reflexivity]. Qed.
(** ** Facts about clip matching *)

Section SortFacts.
Context {A : Type}.
Implicit Types (x : R * A) (l : list (R * A)).

Definition desc (x y : R * A) : Prop := (fst y <= fst x)%R.

Lemma insert_desc_perm x l : Permutation (insert_desc x l) (x :: l).
Proof.
  induction l as [|y l IH]; simpl; [reflexivity|].
  destruct (Rleb (fst y) (fst x)); [reflexivity|].
  rewrite IH. apply perm_swap.
Qed.

Lemma sort_desc_perm l : Permutation (sort_desc l) l.
Proof.
  induction l as [|x l IH]; simpl; [reflexivity|].
  rewrite insert_desc_perm. constructor; exact IH.
Qed.

Lemma insert_desc_sorted x l :
  StronglySorted desc l -> StronglySorted desc (insert_desc x l).
Proof.
  induction 1 as [|y l Hs IH Hy]; simpl.
  - constructor; constructor.
  - destruct (Rleb (fst y) (fst x)) eqn:E.
    + apply Rleb_true in E. constructor; [constructor; assumption|].
      constructor; [exact E|].
      eapply Forall_impl; [|exact Hy]. unfold desc; intros z Hz; lra.
    + apply Rleb_false in E. constructor; [exact IH|].
      apply (Permutation_Forall (Permutation_sym (insert_desc_perm x l))).
      constructor; [unfold desc; lra | exact Hy].
Qed.

Lemma sort_desc_sorted l : StronglySorted desc (sort_desc l).
Proof.
  induction l as [|x l IH]; simpl; [constructor|].
  apply insert_desc_sorted; exact IH.
Qed.

(** Stability: entries of one key keep their order. *)
Lemma insert_desc_stable (s : R) x l :
  List.filter (fun p => Reqb (fst p) s) (insert_desc x l)
  = List.filter (fun p => Reqb (fst p) s) (x :: l).
Proof.
  induction l as [|y l IH]; [reflexivity|].
  cbn [insert_desc]. destruct (Rleb (fst y) (fst x)) eqn:E;
    [reflexivity|].
  apply Rleb_false in E.
  cbn [List.filter] in *. rewrite IH.
  destruct (Reqb (fst y) s) eqn:Ey; destruct (Reqb (fst x) s) eqn:Ex;
    try reflexivity.
  apply Reqb_true in Ey, Ex. lra.
Qed.

Lemma sort_desc_stable (s : R) l :
  List.filter (fun p => Reqb (fst p) s) (sort_desc l)
  = List.filter (fun p => Reqb (fst p) s) l.
Proof.
  induction l as [|x l IH]; [reflexivity|].
  cbn [sort_desc fold_right]. fold (sort_desc l).
  rewrite insert_desc_stable. cbn [List.filter]. rewrite IH; reflexivity.
Qed.

Lemma insert_desc_filter_length (f : R * A -> bool) x l :
  List.length (List.filter f (insert_desc x l))
  = List.length (List.filter f (x :: l)).
Proof.
  induction l as [|y l IH]; [reflexivity|].
  cbn [insert_desc]. destruct (Rleb (fst y) (fst x)); [reflexivity|].
  cbn [List.filter] in *.
  destruct (f y); destruct (f x); cbn [List.length] in *; rewrite IH;
    reflexivity.
Qed.

Lemma sort_desc_filter_length (f : R * A -> bool) l :
  List.length (List.filter f (sort_desc l)) = List.length (List.filter f l).
Proof.
  induction l as [|x l IH]; [reflexivity|].
  cbn [sort_desc fold_right]. fold (sort_desc l).
  rewrite insert_desc_filter_length. cbn [List.filter].
  destruct (f x); cbn [List.length]; rewrite IH; reflexivity.
Qed.

End SortFacts.

Section ListFacts.
Context {A : Type}.

Lemma filter_firstn (f : A -> bool) (n : nat) (l : list A) :
  exists m, List.filter f (firstn n l) = firstn m (List.filter f l).
Proof.
  revert n; induction l as [|x l IH]; intros [|n]; simpl;
    try (exists 0%nat; reflexivity).
  destruct (IH n) as [m Hm]. destruct (f x).
  - exists (S m). simpl; rewrite Hm; reflexivity.
  - exists m; exact Hm.
Qed.

Lemma filter_filter_sub (f g : A -> bool) (l : list A) :
  (forall x, f x = true -> g x = true) ->
  List.filter f (List.filter g l) = List.filter f l.
Proof.
  intros H; induction l as [|x l IH]; simpl; [reflexivity|].
  destruct (g x) eqn:Eg; simpl.
  - rewrite IH; reflexivity.
  - destruct (f x) eqn:Ef; [|exact IH].
    rewrite (H x Ef) in Eg; discriminate.
Qed.

Lemma filter_filter_disj (f g : A -> bool) (l : list A) :
  (forall x, f x = true -> g x = false) ->
  List.filter f (List.filter g l) = [].
Proof.
  intros H; induction l as [|x l IH]; simpl; [reflexivity|].
  destruct (g x) eqn:Eg; simpl; [|exact IH].
  destruct (f x) eqn:Ef; [|exact IH].
  rewrite (H x Ef) in Eg; discriminate.
Qed.

Lemma StronglySorted_filter (R : A -> A -> Prop) (f : A -> bool)
  (l : list A) :
  StronglySorted R l -> StronglySorted R (List.filter f l).
Proof.
  induction 1 as [|x l Hs IH Hx]; simpl; [constructor|].
  destruct (f x); [|exact IH].
  constructor; [exact IH|].
  apply Forall_forall. intros y Hy. apply filter_In in Hy.
  rewrite Forall_forall in Hx. apply Hx, Hy.
Qed.

Lemma StronglySorted_firstn (R : A -> A -> Prop) (n : nat) (l : list A) :
  StronglySorted R l -> StronglySorted R (firstn n l).
Proof.
  intros H; revert n; induction H as [|x l Hs IH Hx]; intros [|n]; simpl;
    try constructor.
  - apply IH.
  - apply Forall_forall. intros y Hy.
    rewrite Forall_forall in Hx. apply Hx.
    rewrite <- (firstn_skipn n l). apply in_or_app; left; exact Hy.
Qed.

Lemma In_firstn (n : nat) (l : list A) (x : A) :
  In x (firstn n l) -> In x l.
Proof.
  intros H. rewrite <- (firstn_skipn n l). apply in_or_app; left; exact H.
Qed.

End ListFacts.

Lemma score_clips_Some (q : vector) (clips : list embedded_clip)
  (scored : list (R * embedded_clip)) :
  score_clips q clips = Some scored ->
  scored = List.map (fun c => (similarity q c, c)) clips.
Proof.
  revert scored; induction clips as [|c clips IH]; simpl; intros scored.
  - intros [= <-]; reflexivity.
  - unfold similarity.
    destruct (cosine_similarity q (embedding c)) as [sim|]; [|discriminate].
    destruct (score_clips q clips) as [rest|]; [|discriminate].
    intros [= <-]. rewrite (IH rest eq_refl); reflexivity.
Qed.

(** Embeddings of the query's dimension never raise. *)
Lemma score_clips_total (q : vector) (clips : list embedded_clip) :
  Forall (fun c => List.length (embedding c) = List.length q) clips ->
  exists scored, score_clips q clips = Some scored.
Proof.
  induction 1 as [|c clips Hc Hcs [rest IH]]; simpl.
  - exists []; reflexivity.
  - unfold cosine_similarity, np_dot. rewrite Hc, Nat.eqb_refl, IH.
    destruct (is_zero (norm q) || is_zero (norm (embedding c)));
      eexists; reflexivity.
Qed.

Lemma slice_to_nonneg {A : Type} (l : list A) (n : Z) :
  (0 <= n)%Z -> slice_to l n = firstn (Z.to_nat n) l.
Proof.
  intros H. unfold slice_to.
  destruct (0 <=? n)%Z eqn:E; [reflexivity|].
  apply Z.leb_gt in E. lia.
Qed.

Section Ranked.
Variable q : vector.

Definition consistent (p : R * embedded_clip) : Prop :=
  fst p = similarity q (snd p).

Lemma map_snd_sorted (l : list (R * embedded_clip)) :
  Forall consistent l -> StronglySorted desc l ->
  StronglySorted (fun c1 c2 => (similarity q c2 <= similarity q c1)%R)
    (List.map snd l).
Proof.
  intros Hc Hs; induction Hs as [|p l Hs IH Hp]; simpl; [constructor|].
  inversion Hc as [|p0 l0 Hcp Hcl]; subst.
  constructor; [apply IH; exact Hcl|].
  apply Forall_forall. intros c Hin. apply in_map_iff in Hin.
  destruct Hin as [p' [<- Hin']].
  rewrite Forall_forall in Hp, Hcl.
  specialize (Hp p' Hin'). specialize (Hcl p' Hin').
  unfold desc, consistent in *. rewrite <- Hcp, <- Hcl; exact Hp.
Qed.

Lemma map_snd_filter_key (s : R) (l : list (R * embedded_clip)) :
  Forall consistent l ->
  List.filter (fun c => Reqb (similarity q c) s) (List.map snd l)
  = List.map snd (List.filter (fun p => Reqb (fst p) s) l).
Proof.
  induction 1 as [|p l Hp Hl IH]; simpl; [reflexivity|].
  unfold consistent in Hp. rewrite <- Hp.
  destruct (Reqb (fst p) s); simpl; rewrite IH; reflexivity.
Qed.

Lemma scored_consistent (clips : list embedded_clip) :
  Forall consistent (List.map (fun c => (similarity q c, c)) clips).
Proof.
  apply Forall_forall. intros p Hp. apply in_map_iff in Hp.
  destruct Hp as [c [<- _]]. reflexivity.
Qed.

Lemma scored_filter_key (s : R) (clips : list embedded_clip) :
  List.map snd
    (List.filter (fun p => Reqb (fst p) s)
       (List.map (fun c => (similarity q c, c)) clips))
  = List.filter (fun c => Reqb (similarity q c) s) clips.
Proof.
  induction clips as [|c clips IH]; simpl; [reflexivity|].
  destruct (Reqb (similarity q c) s); simpl; rewrite IH; reflexivity.
Qed.

(** What [find_best_clips] computes from the scores, for [0 <= top_n]. *)
Definition ranked (clips : list embedded_clip) (m : R) (n : nat)
  : list embedded_clip :=
  List.map snd
    (firstn n
       (List.filter (fun p => Rleb m (fst p))
          (sort_desc (List.map (fun c => (similarity q c, c)) clips)))).

Lemma scored_filter_length (f : R -> bool) (clips : list embedded_clip) :
  List.length
    (List.filter (fun p => f (fst p))
       (List.map (fun c => (similarity q c, c)) clips))
  = List.length (List.filter (fun c => f (similarity q c)) clips).
Proof.
  induction clips as [|c clips IH]; simpl; [reflexivity|].
  destruct (f (similarity q c)); simpl; rewrite IH; reflexivity.
Qed.

Lemma ranked_length (clips : list embedded_clip) (m : R) (n : nat) :
  List.length (ranked clips m n)
  = Nat.min n
      (List.length
         (List.filter (fun c => Rleb m (similarity q c)) clips)).
Proof.
  unfold ranked. rewrite length_map, length_firstn.
  rewrite (sort_desc_filter_length (fun p => Rleb m (fst p))).
  rewrite (scored_filter_length (Rleb m)). reflexivity.
Qed.

Lemma ranked_spec (clips : list embedded_clip) (m : R) (n : nat) :
  (List.length (ranked clips m n) <= n)%nat /\
  StronglySorted (fun c1 c2 => (similarity q c2 <= similarity q c1)%R)
    (ranked clips m n) /\
  Forall (fun c => (m <= similarity q c)%R) (ranked clips m n) /\
  (forall s : R, exists k : nat,
      List.filter (fun c => Reqb (similarity q c) s) (ranked clips m n)
      = firstn k (List.filter (fun c => Reqb (similarity q c) s) clips)) /\
  incl (ranked clips m n) clips.
Proof.
  unfold ranked.
  set (scored := List.map (fun c => (similarity q c, c)) clips).
  set (L := sort_desc scored).
  set (F := List.filter (fun p => Rleb m (fst p)) L).
  assert (HcL : Forall consistent L).
  { apply (Permutation_Forall (Permutation_sym (sort_desc_perm scored))).
    apply scored_consistent. }
  assert (HcF : Forall consistent F).
  { apply Forall_forall. intros p Hp. apply filter_In in Hp.
    rewrite Forall_forall in HcL. apply HcL, Hp. }
  assert (HcN : Forall consistent (firstn n F)).
  { apply Forall_forall. intros p Hp. apply In_firstn in Hp.
    rewrite Forall_forall in HcF. apply HcF, Hp. }
  split; [rewrite length_map, length_firstn; lia|].
  split.
  { apply map_snd_sorted; [exact HcN|].
    apply StronglySorted_firstn, StronglySorted_filter, sort_desc_sorted. }
  split.
  { apply Forall_forall. intros c Hc. apply in_map_iff in Hc.
    destruct Hc as [p [<- Hp]].
    rewrite Forall_forall in HcN. rewrite <- (HcN p Hp).
    apply In_firstn in Hp. apply filter_In in Hp.
    apply Rleb_true, Hp. }
  split.
  { intros s. rewrite (map_snd_filter_key s _ HcN).
    destruct (filter_firstn (fun p => Reqb (fst p) s) n F) as [k Hk].
    rewrite Hk. unfold F.
    destruct (Rle_dec m s) as [Hms|Hms].
    - rewrite filter_filter_sub.
      + unfold L. rewrite sort_desc_stable.
        exists k. rewrite <- firstn_map. unfold scored.
        rewrite scored_filter_key; reflexivity.
      + intros p Hp. apply Reqb_true in Hp. apply Rleb_true. lra.
    - rewrite filter_filter_disj.
      + exists 0%nat. rewrite firstn_nil; reflexivity.
      + intros p Hp. apply Reqb_true in Hp. apply Rleb_false. lra. }
  intros c Hc. apply in_map_iff in Hc. destruct Hc as [p [<- Hp]].
  apply In_firstn in Hp. apply filter_In in Hp. destruct Hp as [Hp _].
  apply (Permutation_in _ (sort_desc_perm scored)) in Hp.
  apply in_map_iff in Hp. destruct Hp as [c [<- Hc]]. exact Hc.
Qed.

Lemma ranked_nonempty (clips : list embedded_clip) (m : R) (n : nat)
  (c : embedded_clip) :
  In c clips -> (m <= similarity q c)%R -> (1 <= n)%nat ->
  ranked clips m n <> [].
Proof.
  intros Hin Hm Hn. unfold ranked.
  set (scored := List.map (fun c => (similarity q c, c)) clips).
  assert (Hp : In (similarity q c, c)
                 (List.filter (fun p => Rleb m (fst p)) (sort_desc scored))).
  { apply filter_In. split.
    - apply (Permutation_in _ (Permutation_sym (sort_desc_perm scored))).
      apply in_map_iff. exists c; split; [reflexivity | exact Hin].
    - apply Rleb_true; exact Hm. }
  destruct (List.filter _ _) as [|p F]; [destruct Hp|].
  destruct n as [|n]; [lia|]. simpl; discriminate.
Qed.

End Ranked.

Lemma find_best_clips_ranked (encode_text : pystr -> vector)
  (phrase_text : pystr) (clips : list embedded_clip) (top_n : Z)
  (min_similarity : option R) :
  (0 <= top_n)%Z ->
  Forall (fun c => List.length (embedding c)
                   = List.length (encode_text phrase_text)) clips ->
  find_best_clips encode_text phrase_text clips top_n min_similarity
  = Some (ranked (encode_text phrase_text) clips
            (match min_similarity with
             | Some m => m
             | None => SEMANTIC_THRESHOLD
             end)
            (Z.to_nat top_n)).
Proof.
  intros Hn Hdim. unfold find_best_clips, ranked.
  destruct (score_clips_total _ _ Hdim) as [scored Hs].
  rewrite Hs. apply score_clips_Some in Hs. subst scored.
  rewrite slice_to_nonneg by exact Hn.
  rewrite firstn_map; reflexivity.
Qed.

(** C1 (amended).  For every list of clips whose embeddings have the
    dimension of the query embedding, every query text, every
    [top_n >= 0] and every [min_similarity], [find_best_clips] returns
    clips of the catalog, at most [top_n] of them (exactly [top_n], or
    all the clips that reach the threshold when they are fewer),
    ordered by non-increasing cosine similarity to the query, none
    below [min_similarity] (the configured threshold when it is
    omitted), and clips of equal similarity in their catalog order. *)
Theorem find_best_clips_spec (encode_text : pystr -> vector)
  (phrase_text : pystr) (clips : list embedded_clip) (top_n : Z)
  (min_similarity : option R) :
  (0 <= top_n)%Z ->
  Forall (fun c => List.length (embedding c)
                   = List.length (encode_text phrase_text)) clips ->
  let sim := similarity (encode_text phrase_text) in
  let threshold :=
    match min_similarity with
    | Some m => m
    | None => SEMANTIC_THRESHOLD
    end in
  exists selected : list embedded_clip,
    find_best_clips encode_text phrase_text clips top_n min_similarity
    = Some selected /\
    (Z.of_nat (List.length selected) <= top_n)%Z /\
    List.length selected
    = Nat.min (Z.to_nat top_n)
        (List.length (List.filter (fun c => Rleb threshold (sim c)) clips)) /\
    StronglySorted (fun c1 c2 => (sim c2 <= sim c1)%R) selected /\
    Forall (fun c => (threshold <= sim c)%R) selected /\
    (forall s : R, exists k : nat,
        List.filter (fun c => Reqb (sim c) s) selected
        = firstn k (List.filter (fun c => Reqb (sim c) s) clips)) /\
    incl selected clips.
Proof.
  intros Hn Hdim sim threshold.
  rewrite (find_best_clips_ranked _ _ _ _ _ Hn Hdim).
  fold threshold.
  destruct (ranked_spec (encode_text phrase_text) clips threshold
              (Z.to_nat top_n)) as [H1 [H2 [H3 [H4 H5]]]].
  eexists. split; [reflexivity|].
  split; [lia|]. split; [apply ranked_length|].
  split; [exact H2|]. split; [exact H3|].
  split; [exact H4 | exact H5].
Qed.

Lemma find_best_clips_spec_witness :
  let clips := [opposite_clip; agreeing_clip "b_0000.wav"] in
  let sim := similarity (fixed_encoder (str "yes please")) in
  exists selected : list embedded_clip,
    find_best_clips fixed_encoder (str "yes please") clips 3 None
    = Some selected /\
    (Z.of_nat (List.length selected) <= 3)%Z /\
    List.length selected
    = Nat.min (Z.to_nat 3)
        (List.length
           (List.filter (fun c => Rleb SEMANTIC_THRESHOLD (sim c)) clips)) /\
    StronglySorted (fun c1 c2 => (sim c2 <= sim c1)%R) selected /\
    Forall (fun c => (SEMANTIC_THRESHOLD <= sim c)%R) selected /\
    (forall s : R, exists k : nat,
        List.filter (fun c => Reqb (sim c) s) selected
        = firstn k (List.filter (fun c => Reqb (sim c) s) clips)) /\
    incl selected clips.
Proof.
  apply (find_best_clips_spec fixed_encoder (str "yes please")
           [opposite_clip; agreeing_clip "b_0000.wav"] 3 None).
  - lia.
  - repeat constructor.
Defined.

Lemma norm_unit : norm [1%R; 0%R] = 1%R.
Proof.
  unfold norm; simpl.
  replace (1 * 1 + (0 * 0 + 0))%R with 1%R by lra. apply sqrt_1.
Qed.

Lemma norm_minus_unit : norm [(-1)%R; 0%R] = 1%R.
Proof.
  unfold norm; simpl.
  replace (-1 * -1 + (0 * 0 + 0))%R with 1%R by lra. apply sqrt_1.
Qed.

Lemma is_zero_one : is_zero 1 = false.
Proof. unfold is_zero. destruct (Req_dec_T 1 0); [lra | reflexivity]. Qed.

Lemma cosine_similarity_agreeing :
  cosine_similarity [1%R; 0%R] [1%R; 0%R] = Some 1%R.
Proof.
  unfold cosine_similarity. rewrite norm_unit, is_zero_one. simpl.
  f_equal. field.
Qed.

Lemma cosine_similarity_opposite :
  cosine_similarity [1%R; 0%R] [(-1)%R; 0%R] = Some (-1)%R.
Proof.
  unfold cosine_similarity.
  rewrite norm_unit, norm_minus_unit, is_zero_one. simpl.
  f_equal. field.
Qed.

(** C1 as stated fails for a negative [top_n]: the slice then drops
    clips from the end instead of keeping none, and one clip is more
    than [-1] clips. *)
Lemma find_best_clips_negative_top_n :
  find_best_clips fixed_encoder (str "yes")
    [agreeing_clip "a_0000.wav"; agreeing_clip "a_0001.wav"] (-1)
    (Some 0%R)
  = Some [agreeing_clip "a_0000.wav"] /\
  ~ (Z.of_nat (List.length [agreeing_clip "a_0000.wav"]) <= -1)%Z.
Proof.
  split; [|simpl; lia].
  unfold find_best_clips, fixed_encoder. cbn [score_clips embedding agreeing_clip].
  rewrite cosine_similarity_agreeing.
  cbn [sort_desc fold_right insert_desc fst].
  rewrite (proj2 (Rleb_true 1 1)) by lra.
  cbn [List.filter fst].
  rewrite (proj2 (Rleb_true 0 1)) by lra.
  reflexivity.
Qed.

(** C4.  The fallback of [process_message] filters with
    [min_similarity=0], so a catalog whose only clip has a negative
    similarity to the beat yields no clip at all. *)
Theorem select_clips_fallback_empty :
  similarity (fixed_encoder (str "no way")) opposite_clip = (-1)%R /\
  find_best_clips fixed_encoder (str "no way") [opposite_clip] 1 (Some 0%R)
  = Some [] /\
  select_clips fixed_encoder (str "no way") [opposite_clip] = Some [].
Proof.
  assert (H0 : find_best_clips fixed_encoder (str "no way") [opposite_clip]
                 1 (Some 0%R) = Some []).
  { unfold find_best_clips, fixed_encoder.
    cbn [score_clips embedding opposite_clip].
    rewrite cosine_similarity_opposite.
    cbn [sort_desc fold_right insert_desc List.filter fst].
    rewrite (proj2 (Rleb_false 0 (-1))) by lra. reflexivity. }
  split; [|split; [exact H0|]].
  - unfold similarity, fixed_encoder. cbn [embedding opposite_clip].
    rewrite cosine_similarity_opposite; reflexivity.
  - unfold select_clips. cbn [MULTI_CLIP_MODE].
    replace (find_best_clips fixed_encoder (str "no way") [opposite_clip]
               MAX_CLIPS_PER_BEAT None) with (Some (@nil embedded_clip)).
    + exact H0.
    + unfold find_best_clips, fixed_encoder.
      cbn [score_clips embedding opposite_clip].
      rewrite cosine_similarity_opposite.
      cbn [sort_desc fold_right insert_desc List.filter fst].
      rewrite (proj2 (Rleb_false SEMANTIC_THRESHOLD (-1)))
        by (unfold SEMANTIC_THRESHOLD; lra).
      reflexivity.
Qed.

(** The fallback does return one clip as soon as some clip has a
    non-negative similarity to the beat. *)
Lemma find_best_clips_fallback_one (encode_text : pystr -> vector)
  (beat : pystr) (clips : list embedded_clip) (c : embedded_clip) :
  Forall (fun c => List.length (embedding c)
                   = List.length (encode_text beat)) clips ->
  In c clips -> (0 <= similarity (encode_text beat) c)%R ->
  exists best : embedded_clip,
    find_best_clips encode_text beat clips 1 (Some 0%R) = Some [best].
Proof.
  intros Hdim Hin Hc.
  rewrite (find_best_clips_ranked _ _ _ 1 (Some 0%R)) by (lia || exact Hdim).
  pose proof (ranked_nonempty (encode_text beat) clips 0 (Z.to_nat 1) c
                Hin Hc ltac:(simpl; lia)) as Hne.
  destruct (ranked_spec (encode_text beat) clips 0 (Z.to_nat 1))
    as [Hlen _].
  destruct (ranked (encode_text beat) clips 0 (Z.to_nat 1))
    as [|best [|x rest]].
  - contradiction.
  - exists best; reflexivity.
  - simpl in Hlen; lia.
Qed.

End Utils.

(** * [clip_parser.py]: the word-timing splitter and the catalog writer *)

Module ClipParser.
Import PyStr Catalog.
Local Open Scope Q_scope.

(** One entry of a Whisper segment's [words].  The timings are
    Python floats; a rational is the exact value of the float, and
    differences of timings are taken exactly. *)
Record word : Type := mk_word {
  w_word : pystr;
  w_start : Q;
  w_end : Q
}.

(** A Whisper segment, and also an emitted sub-segment (which has no
    [words] key: [segment.get("words", [])] is then the empty list). *)
Record segment : Type := mk_segment {
  seg_start : Q;
  seg_end : Q;
  seg_text : pystr;
  seg_words : list word
}.

(** [current_words[-1]["end"]]; the code reads it only when
    [current_words] is non-empty. *)
Definition last_end (current_words : list word) : Q :=
  match rev current_words with
  | w :: _ => w_end w
  | [] => 0
  end.

(** The dictionary appended to [sub_segments] when a chunk is closed. *)
Definition close_chunk (chunk_start : Q) (current_words : list word)
  : segment :=
  {| seg_start := chunk_start;
     seg_end := last_end current_words;
     seg_text :=
       join (str " ") (List.map (fun cw => strip (w_word cw)) current_words);
     seg_words := [] |}.

(** The loop state: [sub_segments], [current_words], [chunk_start]. *)
Definition split_state : Type := list segment * list word * Q.

Definition nonempty_words (ws : list word) : bool :=
  match ws with [] => false | _ :: _ => true end.

(** One iteration of [for w in words]. *)
Definition split_step (max_dur : Q) (st : split_state) (w : word)
  : split_state :=
  let '(sub_segments, current_words, chunk_start) := st in
  if nonempty_words current_words
     && negb (Qle_bool (w_end w - chunk_start) max_dur)
  then (sub_segments ++ [close_chunk chunk_start current_words],
        [w], w_start w)
  else (sub_segments, current_words ++ [w], chunk_start).

Definition split_segment_by_words (seg : segment) (max_dur : Q)
  : list segment :=
  match seg_words seg with
  | [] => [seg]
  | w0 :: _ =>
      let '(sub_segments, current_words, chunk_start) :=
        fold_left (split_step max_dur) (seg_words seg) ([], [], w_start w0)
      in
      if nonempty_words current_words
      then sub_segments ++ [close_chunk chunk_start current_words]
      else sub_segments
  end.

(** The sub-segment that a run of consecutive words becomes. *)
Definition chunk_segment (c : list word) : segment :=
  match c with
  | w :: _ => close_chunk (w_start w) c
  | [] => close_chunk 0 []
  end.

(** Time spans that follow one another: each starts no later than it
    ends, and ends no later than the next one starts. *)
Fixpoint chained (spans : list (Q * Q)) : Prop :=
  match spans with
  | [] => True
  | (s, e) :: rest =>
      s <= e /\
      match rest with
      | [] => True
      | (s', _) :: _ => e <= s'
      end /\
      chained rest
  end.


Definition word_span (w : word) : Q * Q := (w_start w, w_end w).



Definition two_words : segment :=
  {| seg_start := 0; seg_end := 11; seg_text := str "aaah b";
     seg_words := [mk_word (str " aaah") 0 10; mk_word (str " b") 10 11] |}.

(** A chunk of several words passed the duration test when its last
    word was added. *)
Definition bounded (max_dur : Q) (c : list word) : Prop :=
  (2 <= List.length c)%nat ->
  seg_end (chunk_segment c) - seg_start (chunk_segment c) <= max_dur.

(** ** The catalog builder *)

(** [utils.build_whisper_prompt()] *)
Definition build_whisper_prompt : pystr :=
  join (str " ")
    [ str "Niiaaaa, pleeeease, nooo, yesss, I looove this, that's sooo cool!";
      str "Umm, ahh, hmm, uhh, like, you know...";
      str "*laughs* Hahaha, hehe, that's hilarious!";
      str "*sighs* Ahh... umm... I don't know...";
      str "Preserve all drawn-out words, laughter, sighs, and emotional emphasis exactly as spoken." ].

(** The [config] values recorded in the catalog. *)
Definition FILTER_HALLUCINATIONS : bool := true.
Definition ENHANCE_TRANSCRIPTS : bool := true.
Definition DISCORD_AUDIO_MODE : bool := true.
Definition MIN_CLIP_ENERGY_DB : Q := -45.
Definition MIN_TRANSCRIPT_LENGTH : Z := 4.

(** The parsed arguments that decide the run; the directories are
    those of [files]. *)
Record args : Type := mk_args {
  arg_model : pystr;
  arg_force : bool;
  arg_dedupe : bool
}.

(** How a run ends: [sys.exit(0)] before any work, an exception out of
    the loading of the model or the processing of a file, or the end
    of [main]. *)
Inductive outcome : Type :=
| Exited (fs : files)
| Raised
| Completed (fs : files).

(** [f.endswith(suffix)] *)
Definition endswith (f suffix : pystr) : bool :=
  pystr_eqb (skipn (List.length f - List.length suffix) f) suffix.

(** [os.remove] of every listed file. *)
Definition remove_files (names : list pystr) (dir : gmap pystr (list N))
  : gmap pystr (list N) :=
  fold_right (fun f dir => delete f dir) dir names.

Section Builder.

(** [str.lower], by the Unicode tables. *)
Variable lower : pystr -> pystr.

(** [whisper.load_model(name)]: [true] when the model loads, [false]
    when the call raises (an unknown name, a failed download). *)
Variable load_model : pystr -> bool.

(** [process_audio_file(filepath, model, output_dir)]: Whisper and
    pydub at work; it returns the clips of one recording and writes
    their files, or raises. *)
Variable process_audio_file :
  pystr -> pystr -> files -> option (list clip * files).

(** [datetime.now().isoformat()] *)
Variable now : pystr.

(** The sorted names of the audio files of the input directory. *)
Variable audio_files : list pystr.

(** [existing_catalog[filename]], the old entries of one source file
    in catalog order; the key is present when there is one at least. *)
Definition existing_for (old_clips : list clip) (filename : pystr)
  : list clip :=
  List.filter (fun c => pystr_eqb (source_file c) filename) old_clips.

(** [filename in existing_catalog] *)
Definition in_existing (old_clips : list clip) (filename : pystr) : bool :=
  match existing_for old_clips filename with
  | [] => false
  | _ :: _ => true
  end.

(** [for filename in audio_files] *)
Fixpoint process_files (force : bool) (model : pystr)
  (old_clips : list clip) (filenames : list pystr) (all_clips : list clip)
  (fs : files) : option (list clip * files) :=
  match filenames with
  | [] => Some (all_clips, fs)
  | filename :: rest =>
      if negb force && in_existing old_clips filename
      then process_files force model old_clips rest
             (all_clips ++ existing_for old_clips filename) fs
      else
        match process_audio_file filename model fs with
        | None => None
        | Some (new_clips, fs') =>
            process_files force model old_clips rest
              (all_clips ++ new_clips) fs'
        end
  end.

(** The deduplication pass: the first clip of each
    [(source_file, text.lower().strip())] key stays. *)
Fixpoint dedupe (seen : gset (pystr * pystr)) (all_clips : list clip)
  : list clip :=
  match all_clips with
  | [] => []
  | c :: rest =>
      let key := (source_file c, strip (lower (text c))) in
      if bool_decide (key ∈ seen) then dedupe seen rest
      else c :: dedupe ({[ key ]} ∪ seen) rest
  end.

(** The end of [main]: deduplicate, remove the orphaned [.wav] files,
    save the catalog. *)
Definition finish (a : args) (all_clips : list clip) (fs : files) : files :=
  let all_clips := dedupe ∅ all_clips in
  let catalog_files : gset pystr :=
    list_to_set (List.map clip_file all_clips) in
  let orphaned :=
    List.filter
      (fun f =>
         endswith f (str ".wav") && negb (bool_decide (f ∈ catalog_files)))
      (List.map fst (map_to_list (clip_dir fs))) in
  let catalog :=
    {| generated_at := now;
       whisper_model := arg_model a;
       whisper_prompt := firstn 80 build_whisper_prompt ++ str "...";
       catalog_filters :=
         {| hallucination_detection := FILTER_HALLUCINATIONS;
            emotional_enhancement := ENHANCE_TRANSCRIPTS;
            discord_audio_mode := DISCORD_AUDIO_MODE;
            min_energy_db := MIN_CLIP_ENERGY_DB;
            min_transcript_length := MIN_TRANSCRIPT_LENGTH |};
       total_clips := Z.of_nat (List.length all_clips);
       clips := all_clips |} in
  {| catalog_json := Some catalog;
     clip_dir := remove_files orphaned (clip_dir fs) |}.

Definition main (a : args) (fs : files) : outcome :=
  if arg_dedupe a then
    match catalog_json fs with
    | None => Exited fs
    | Some data => Completed (finish a (clips data) fs)
    end
  else
    let old_clips :=
      match catalog_json fs with
      | Some data => if negb (arg_force a) then clips data else []
      | None => []
      end in
    match audio_files with
    | [] => Exited fs
    | _ =>
        if load_model (arg_model a) then
          match
            process_files (arg_force a) (arg_model a) old_clips audio_files
              [] fs
          with
          | None => Raised
          | Some (all_clips, fs') => Completed (finish a all_clips fs')
          end
        else Raised
    end.

End Builder.

(** A catalog that lists one sentence twice, next to a stray file. *)
Definition repeated_files : files :=
  {| catalog_json :=
       Some {| generated_at := str "2024-01-01T00:00:00";
               whisper_model := str "base";
               whisper_prompt := str "...";
               catalog_filters := mk_filters true true true (-45) 4;
               total_clips := 3;
               clips :=
                 [ mk_clip (str "talk_0000.wav") (str "talk.wav")
                     (str "hello there") (str "hello there") 0 1 1 (-20);
                   mk_clip (str "talk_0001.wav") (str "talk.wav")
                     (str "Hello there ") (str "Hello there") 2 3 1 (-20);
                   mk_clip (str "talk_0002.wav") (str "talk.wav")
                     (str "bye") (str "bye") 4 5 1 (-20) ] |};
     clip_dir :=
       <[ str "talk_0000.wav" := [1]%N ]>
         (<[ str "talk_0001.wav" := [2]%N ]>
            (<[ str "talk_0002.wav" := [3]%N ]>
               (<[ str "old_0007.wav" := [4]%N ]> ∅))) |}.

(** Stand-ins for the external services on these files. *)
Definition ascii_lower_str (t : pystr) : pystr := List.map ascii_lower t.
Definition no_whisper : pystr -> pystr -> files -> option (list clip * files) :=
  fun _ _ _ => None.
Definition any_model : pystr -> bool := fun _ => true.

(** ** Facts about the splitter *)

Lemma last_end_snoc (c : list word) (w : word) :
  last_end (c ++ [w]) = w_end w.
Proof. unfold last_end. rewrite rev_app_distr; reflexivity. Qed.

Lemma last_end_cons (w : word) (c : list word) :
  c <> [] -> last_end (w :: c) = last_end c.
Proof.
  intros Hc. unfold last_end; simpl.
  destruct (rev c) as [|x r] eqn:E; [|reflexivity].
  apply (f_equal (@rev word)) in E. rewrite rev_involutive in E.
  contradiction.
Qed.


(** The loop invariant, after the words [w0 :: ws]. *)
Lemma split_loop_inv (max_dur : Q) (w0 : word) (ws : list word) :
  exists (chunks : list (list word)) (w : word) (cur : list word),
    fold_left (split_step max_dur) (w0 :: ws) ([], [], w_start w0)
    = (List.map chunk_segment chunks, w :: cur, w_start w) /\
    List.concat chunks ++ w :: cur = w0 :: ws /\
    Forall (fun c => c <> []) chunks /\
    Forall (bounded max_dur) chunks /\
    bounded max_dur (w :: cur).
Proof.
  induction ws as [|x ws IH] using rev_ind.
  - exists [], w0, []. simpl. repeat split; try constructor.
    unfold bounded; simpl; lia.
  - destruct IH as [chunks [w [cur [Hst [Hcat [Hne [Hbd Hcur]]]]]]].
    rewrite app_comm_cons, fold_left_app, Hst. simpl.
    destruct (Qle_bool (w_end x - w_start w) max_dur) eqn:E; simpl.
    + exists chunks, w, (cur ++ [x]). split; [reflexivity|].
      split; [change (w0 :: ws ++ [x]) with ((w0 :: ws) ++ [x]);
              rewrite <- Hcat, <- app_assoc; reflexivity|].
      split; [exact Hne|]. split; [exact Hbd|].
      intros _. unfold chunk_segment, close_chunk; simpl.
      rewrite app_comm_cons, last_end_snoc.
      apply Qle_bool_iff; exact E.
    + exists (chunks ++ [w :: cur]), x, []. split.
      * rewrite map_app; reflexivity.
      * split.
        { change (w0 :: ws ++ [x]) with ((w0 :: ws) ++ [x]).
          rewrite <- Hcat, concat_app; simpl.
          rewrite app_nil_r, <- app_assoc; reflexivity. }
        split; [apply Forall_app; split;
                  [exact Hne | constructor; [discriminate | constructor]]|].
        split; [apply Forall_app; split;
                  [exact Hbd | constructor; [exact Hcur | constructor]]|].
        unfold bounded; simpl; lia.
Qed.

Lemma chained_chunk (w : word) (c rest : list word) :
  chained (List.map word_span ((w :: c) ++ rest)) ->
  w_start w <= last_end (w :: c) /\
  match rest with
  | [] => True
  | w' :: _ => last_end (w :: c) <= w_start w'
  end /\
  chained (List.map word_span rest).
Proof.
  revert w; induction c as [|w2 c IH]; intros w.
  - simpl. intros [H1 [H2 H3]]. split; [exact H1|]. split; [|exact H3].
    destruct rest; [exact I | exact H2].
  - intros H. simpl in H. destruct H as [H1 [H2 H3]].
    destruct (IH w2 H3) as [H4 [H5 H6]].
    rewrite last_end_cons by discriminate.
    split; [|split; [exact H5 | exact H6]].
    apply Qle_trans with (w_end w); [exact H1|].
    apply Qle_trans with (w_start w2); [exact H2 | exact H4].
Qed.







(** Without word timings the segment is returned as it is. *)
Lemma split_segment_by_words_no_words (seg : segment) (max_dur : Q) :
  seg_words seg = [] -> split_segment_by_words seg max_dur = [seg].
Proof. intros H. unfold split_segment_by_words. rewrite H; reflexivity. Qed.

(** ** Facts about the catalog builder *)

Section BuilderFacts.
Variable lower : pystr -> pystr.
Variable load_model : pystr -> bool.
Variable process_audio_file :
  pystr -> pystr -> files -> option (list clip * files).
Variable now : pystr.
Variable audio_files : list pystr.

Local Abbreviation run_main :=
  (main lower load_model process_audio_file now audio_files).

Lemma finish_total_clips (a : args) (all_clips : list clip) (fs : files) :
  exists written : catalog,
    catalog_json (finish lower now a all_clips fs) = Some written /\
    total_clips written = Z.of_nat (List.length (clips written)).
Proof. unfold finish. eexists. split; reflexivity. Qed.

(** A completed run has written a catalog whose count is the number
    of its clips. *)
Lemma main_completed_total_clips (a : args) (fs fs' : files) :
  run_main a fs = Completed fs' ->
  exists written : catalog,
    catalog_json fs' = Some written /\
    total_clips written = Z.of_nat (List.length (clips written)).
Proof.
  unfold main. destruct (arg_dedupe a).
  - destruct (catalog_json fs) as [data|]; [|discriminate].
    intros [= <-]. apply finish_total_clips.
  - destruct audio_files as [|f rest]; [discriminate|].
    destruct (load_model (arg_model a)); [|discriminate].
    destruct (process_files _ _ _ _ _ _ _) as [[all_clips fs1]|];
      [|discriminate].
    intros [= <-]. apply finish_total_clips.
Qed.

(** A run that exits early has written nothing. *)
Lemma main_exited_unchanged (a : args) (fs fs' : files) :
  run_main a fs = Exited fs' -> fs' = fs.
Proof.
  unfold main. destruct (arg_dedupe a).
  - destruct (catalog_json fs); [discriminate|]. intros [= <-]; reflexivity.
  - destruct audio_files as [|f rest];
      [intros [= <-]; reflexivity|].
    destruct (load_model (arg_model a)); [|discriminate].
    destruct (process_files _ _ _ _ _ _ _) as [[all_clips fs1]|];
      discriminate.
Qed.

End BuilderFacts.

(** The dedupe-only run on [repeated_files]: the second spelling of
    the sentence and the stray file go, the count follows. *)
Example main_dedupe_repeated :
  exists fs' : files,
    main ascii_lower_str any_model no_whisper (str "2024-02-02T00:00:00") []
      (mk_args (str "base") false true) repeated_files
    = Completed fs' /\
    option_map (fun c => (total_clips c, List.map clip_file (clips c)))
      (catalog_json fs')
    = Some (2%Z, [str "talk_0000.wav"; str "talk_0002.wav"]) /\
    clip_dir fs' !! str "old_0007.wav" = None /\
    clip_dir fs' !! str "talk_0001.wav" = None /\
    clip_dir fs' !! str "talk_0002.wav" = Some [3%N].
Proof.
  eexists. split; [reflexivity|]. vm_compute. repeat split; reflexivity.
Qed.

End ClipParser.

(** * [deduplicator.py] in double precision *)

Module Doubles.
Import PrimFloat.
Local Open Scope float_scope.

(** [np.dot] of two flat arrays of one length: the products are
    summed, here from the left (the order of the sum is that of the
    BLAS routine; it does not matter where every partial sum is
    exact). *)
Definition dot (a b : list float) : float :=
  fold_left (fun acc xy => acc + fst xy * snd xy) (combine a b) 0.

(** [np.dot(a, b)]: it raises on arrays of different lengths. *)
Definition np_dot (a b : list float) : option float :=
  if (List.length a =? List.length b)%nat then Some (dot a b) else None.

(** [np.linalg.norm(a)], the square root of [a.dot(a)] *)
Definition norm (a : list float) : float := sqrt (dot a a).

(** The float of a length. *)
Fixpoint of_nat (n : nat) : float :=
  match n with
  | O => 0
  | S n' => of_nat n' + 1
  end.

(** [fingerprint_similarity(fp1, fp2)] on arrays of doubles *)
Definition fingerprint_similarity (fp1 fp2 : list (list float))
  : option float :=
  if ((List.length fp1 =? 0)%nat || (List.length fp2 =? 0)%nat)%bool
  then Some 0
  else
    let min_len := Nat.min (List.length fp1) (List.length fp2) in
    let max_len := Nat.max (List.length fp1) (List.length fp2) in
    let len_ratio := of_nat min_len / of_nat max_len in
    if len_ratio <? 0.5 then Some 0
    else
      let a := List.concat (firstn min_len fp1) in
      let b := List.concat (firstn min_len fp2) in
      match np_dot a b with
      | None => None
      | Some dot =>
          let norm_a := norm a in
          let norm_b := norm b in
          if ((norm_a =? 0) || (norm_b =? 0))%bool then Some 0
          else
            let cosine_sim := dot / (norm_a * norm_b) in
            Some (cosine_sim * len_ratio)
      end.

(** A fingerprint of one frame and two bands. *)
Definition one_frame : list (list float) := [[2; 3]].

(** The double next above 1, written [1.0000000000000002]. *)
Definition above_one : float := 0x1.0000000000001p+0.

(** [x <= 1.0] *)
Definition at_most_one (x : float) : bool := x <=? 1.

End Doubles.

(** * [deduplicator.py]: fingerprints and the duplicate resolver *)

Module Deduplicator.
Import PyStr Numpy Catalog.

(** ** Audio fingerprinting *)

(** A fingerprint: one row of band energies per analysis frame;
    [np.array([])] is the empty list. *)
Definition fingerprint : Type := list (list R).

(** The keyword arguments of [audio_to_fingerprint]; no caller
    overrides them. *)
Definition n_bins : nat := 32.
Definition hop_ms : Z := 50.

(** [int(16000 * hop_ms / 1000)] and [hop * 2] *)
Definition hop : Z := 16000 * hop_ms / 1000.
Definition window : Z := hop * 2.

Definition sum (l : list R) : R := fold_right Rplus 0%R l.

(** [np.mean(l)] *)
Definition mean (l : list R) : R := (sum l / INR (List.length l))%R.

(** [np.abs(samples).max()] of a non-empty array *)
Definition abs_max (samples : list R) : R :=
  match List.map Rabs samples with
  | [] => 0%R
  | x :: l => fold_left Rmax l x
  end.

(** [np.hanning(M)] *)
Definition hanning (M : nat) : list R :=
  match M with
  | O => []
  | S O => [1%R]
  | _ =>
      List.map
        (fun n => (0.5 - 0.5 * cos (2 * PI * INR n / INR (M - 1)))%R)
        (seq 0 M)
  end.

(** [frame * np.hanning(len(frame))] *)
Fixpoint times (a b : list R) : list R :=
  match a, b with
  | x :: a', y :: b' => (x * y)%R :: times a' b'
  | _, _ => []
  end.

(** [np.abs(np.fft.rfft(frame))]: the moduli of the first
    [n // 2 + 1] coefficients of the discrete Fourier transform. *)
Definition rfft_abs (frame : list R) : list R :=
  let n := List.length frame in
  let indexed := combine (seq 0 n) frame in
  List.map
    (fun k =>
       let angle (t : nat) := (2 * PI * INR k * INR t / INR n)%R in
       let re := sum (List.map (fun tx => (snd tx * cos (angle (fst tx)))%R)
                        indexed) in
       let im := sum (List.map (fun tx => (- (snd tx * sin (angle (fst tx))))%R)
                        indexed) in
       sqrt (re * re + im * im))
    (seq 0 (n / 2 + 1)).

(** The inner loop: the spectrum averaged into [n_bins] bands. *)
Definition bands (spectrum : list R) : list R :=
  let bin_size := Nat.max 1 (List.length spectrum / n_bins) in
  List.map
    (fun b =>
       let band_start := (b * bin_size)%nat in
       let band_end :=
         Nat.min ((b + 1) * bin_size) (List.length spectrum) in
       if (band_start <? List.length spectrum)%nat
       then mean (slice spectrum band_start band_end)
       else 0%R)
    (seq 0 n_bins).

(** [max(1, (len(samples) - window) // hop)] *)
Definition n_frames (len : nat) : Z :=
  Z.max 1 ((Z.of_nat len - window) / hop).

(** [audio_to_fingerprint], from the samples that
    [audio.set_channels(1).set_frame_rate(16000).get_array_of_samples()]
    yields (pydub's conversion is not part of the repository; a silent
    recording converts to zero samples). *)
Definition audio_to_fingerprint (pcm : list Z) : fingerprint :=
  let samples := List.map IZR pcm in
  if (List.length samples =? 0)%nat then []
  else
    let peak := abs_max samples in
    let samples :=
      if Rlt_dec 0 peak then List.map (fun x => (x / peak)%R) samples
      else samples in
    List.map
      (fun i =>
         let start := (i * Z.to_nat hop)%nat in
         let frame := slice samples start (start + Z.to_nat window) in
         let frame := times frame (hanning (List.length frame)) in
         let spectrum := rfft_abs frame in
         bands spectrum)
      (seq 0 (Z.to_nat (n_frames (List.length samples)))).

(** ** Fingerprint similarity *)

Definition fingerprint_similarity (fp1 fp2 : fingerprint) : option R :=
  if (List.length fp1 =? 0)%nat || (List.length fp2 =? 0)%nat then Some 0%R
  else
    let min_len := Nat.min (List.length fp1) (List.length fp2) in
    let max_len := Nat.max (List.length fp1) (List.length fp2) in
    let len_ratio := (INR min_len / INR max_len)%R in
    if Rlt_dec len_ratio 0.5 then Some 0%R
    else
      let a := List.concat (firstn min_len fp1) in
      let b := List.concat (firstn min_len fp2) in
      match np_dot a b with
      | None => None
      | Some dot =>
          let norm_a := norm a in
          let norm_b := norm b in
          if is_zero norm_a || is_zero norm_b then Some 0%R
          else
            let cosine_sim := (dot / (norm_a * norm_b))%R in
            Some (cosine_sim * len_ratio)%R
      end.

(** What [audio_to_fingerprint] produces: rows of [n] bands, none
    negative. *)
Definition is_fingerprint (n : nat) (fp : fingerprint) : Prop :=
  Forall (fun frame =>
            List.length frame = n /\ Forall (fun x => (0 <= x)%R) frame) fp.

(** One second of silence at 16 kHz. *)
Definition silence : list Z := repeat 0%Z (Z.to_nat 16000).

(** ** Finding duplicates *)

Inductive dupe_type : Type := exact | waveform.

(** One entry of [all_dupes]. *)
Record dupe : Type := mk_dupe {
  keep : clip;
  remove : clip;
  dupe_similarity : R;
  dupe_kind : dupe_type
}.

(** One entry of [wave_dupes]. *)
Record wave_pair : Type := mk_wave_pair {
  clip_a : clip;
  clip_b : clip;
  pair_similarity : R
}.

(** [hash_groups[h].append(clip)] on a dictionary that keeps the order
    in which its keys were first inserted. *)
Fixpoint group_add (h : N) (c : clip) (groups : list (N * list clip))
  : list (N * list clip) :=
  match groups with
  | [] => [(h, [c])]
  | (h', group) :: rest =>
      if (h =? h')%N then (h', group ++ [c]) :: rest
      else (h', group) :: group_add h c rest
  end.

(** The quick filter of the pair loop: both durations positive and
    their ratio below one half. *)
Definition durations_differ (dur_i dur_j : Q) : bool :=
  negb (Qle_bool dur_i 0) && negb (Qle_bool dur_j 0)
  && negb (Qle_bool (1 # 2) (Qmin dur_i dur_j / Qmax dur_i dur_j)).

Definition pair_seen (key : nat * nat) (seen_pairs : list (nat * nat))
  : bool :=
  existsb (fun k => (fst k =? fst key)%nat && (snd k =? snd key)%nat)
    seen_pairs.

Section Resolver.

(** [raw_bytes_hash]: the MD5 digest of a file's bytes
    ([hashlib] is not part of the repository). *)
Variable raw_bytes_hash : list N -> N.

(** [AudioSegment.from_file(path)] followed by the conversion to mono
    16 kHz samples; [None] when pydub raises. *)
Variable decode : list N -> option (list Z).

(** [round(sim, 3)] *)
Variable round3 : R -> R.

(** The loop state of the pair comparison: [wave_dupes] and
    [seen_pairs]; [None] once an exception was raised. *)
Definition pair_state : Type := option (list wave_pair * list (nat * nat)).

(** The body of [for j in range(i + 1, len(clips))]. *)
Definition compare_pair (threshold : R) (i : nat) (ci : clip)
  (fi : fingerprint) (st : pair_state)
  (item : nat * (clip * option fingerprint)) : pair_state :=
  match st with
  | None => None
  | Some (wave_dupes, seen_pairs) =>
      let '(j, (cj, fj)) := item in
      match fj with
      | None => st
      | Some fj =>
          if durations_differ (duration ci) (duration cj) then st
          else
            match fingerprint_similarity fi fj with
            | None => None
            | Some sim =>
                if Rleb threshold sim then
                  let pair_key := (Nat.min i j, Nat.max i j) in
                  if pair_seen pair_key seen_pairs then st
                  else
                    Some (wave_dupes ++ [mk_wave_pair ci cj (round3 sim)],
                          pair_key :: seen_pairs)
                else st
            end
      end
  end.

(** The body of [for i in range(len(clips))]. *)
Definition compare_from (threshold : R)
  (items : list (nat * (clip * option fingerprint))) (st : pair_state)
  (item : nat * (clip * option fingerprint)) : pair_state :=
  let '(i, (ci, fi)) := item in
  match fi with
  | None => st
  | Some fi =>
      fold_left (compare_pair threshold i ci fi) (skipn (S i) items) st
  end.

(** The fingerprint of one clip, [None] when its file is missing or
    cannot be decoded. *)
Definition fingerprint_of (fs : files) (c : clip) : option fingerprint :=
  match clip_dir fs !! clip_file c with
  | None => None
  | Some bytes =>
      match decode bytes with
      | Some pcm => Some (audio_to_fingerprint pcm)
      | None => None
      end
  end.

Definition exact_pairs (group : list clip) : list dupe :=
  match group with
  | [] => []
  | keep :: rest => List.map (fun d => mk_dupe keep d 1%R exact) rest
  end.

Definition resolve_pair (pair : wave_pair) : dupe :=
  let a := clip_a pair in
  let b := clip_b pair in
  if (List.length (text b) <=? List.length (text a))%nat
  then mk_dupe a b (pair_similarity pair) waveform
  else mk_dupe b a (pair_similarity pair) waveform.

(** [find_duplicates(clips_dir, catalog_path, threshold)]: it only
    reads the files.  The second component is [data] ([None] for the
    empty dictionary returned when there is no catalog); the result is
    [None] when the comparison raises. *)
Definition find_duplicates (fs : files) (threshold : R)
  : option (list dupe * option catalog) :=
  match catalog_json fs with
  | None => Some ([], None)
  | Some data =>
      match clips data with
      | [] => Some ([], Some data)
      | _ =>
          let hash_groups :=
            fold_left
              (fun groups c =>
                 match clip_dir fs !! clip_file c with
                 | None => groups
                 | Some bytes => group_add (raw_bytes_hash bytes) c groups
                 end)
              (clips data) [] in
          let exact_dupes :=
            List.filter (fun hg => (1 <? List.length (snd hg))%nat)
              hash_groups in
          let fingerprints := List.map (fingerprint_of fs) (clips data) in
          let items :=
            combine (seq 0 (List.length (clips data)))
              (combine (clips data) fingerprints) in
          match fold_left (compare_from threshold items) items (Some ([], []))
          with
          | None => None
          | Some (wave_dupes, _) =>
              Some (flat_map (fun hg => exact_pairs (snd hg)) exact_dupes
                      ++ List.map resolve_pair wave_dupes,
                    Some data)
          end
      end
  end.

(** ** The command-line tool *)

(** The parsed arguments; [--delete] is a [store_true] flag. *)
Record args : Type := mk_args {
  arg_threshold : R;
  arg_delete : bool
}.

(** What [parse_args] gives for an empty command line. *)
Definition default_args : args :=
  {| arg_threshold := 0.90%R; arg_delete := false |}.

(** A run of the tool: the duplicates it listed and the files as it
    left them. *)
Record run : Type := mk_run {
  reported : list dupe;
  files_after : files
}.

(** [os.remove] of every member of [remove_files] that exists. *)
Definition remove_all (remove_files : gset pystr)
  (dir : gmap pystr (list N)) : gmap pystr (list N) :=
  fold_right (fun clip_file dir => delete clip_file dir) dir
    (elements remove_files).

Definition main (a : args) (fs : files) : run :=
  match find_duplicates fs (arg_threshold a) with
  | None => mk_run [] fs
  | Some (dupes, catalog_data) =>
      match dupes with
      | [] => mk_run [] fs
      | _ =>
          if negb (arg_delete a) then mk_run dupes fs
          else
            let remove_files : gset pystr :=
              list_to_set (List.map (fun d => clip_file (remove d)) dupes) in
            match catalog_data with
            | None => mk_run dupes fs
            | Some data =>
                let kept :=
                  List.filter
                    (fun c => negb (bool_decide (clip_file c ∈ remove_files)))
                    (clips data) in
                let new_count := Z.of_nat (List.length kept) in
                let written :=
                  {| generated_at := generated_at data;
                     whisper_model := whisper_model data;
                     whisper_prompt := whisper_prompt data;
                     catalog_filters := catalog_filters data;
                     total_clips := new_count;
                     clips := kept |} in
                mk_run dupes
                  {| catalog_json := Some written;
                     clip_dir := remove_all remove_files (clip_dir fs) |}
            end
      end
  end.

End Resolver.

(** Two clips cut from one recording whose files hold the same bytes,
    and a third one. *)
Definition clip_named (name text : string) (dur : Q) : clip :=
  mk_clip (str name) (str "talk.wav") (str text) (str text) 0 dur dur (-20).

Definition twin_files : files :=
  {| catalog_json :=
       Some {| generated_at := str "2024-01-01T00:00:00";
               whisper_model := str "base";
               whisper_prompt := str "...";
               catalog_filters := mk_filters true true true (-45) 4;
               total_clips := 3;
               clips := [ clip_named "talk_0000.wav" "hello there" 1;
                          clip_named "talk_0001.wav" "hello there" 1;
                          clip_named "talk_0002.wav" "bye" (1 # 2) ] |};
     clip_dir :=
       <[ str "talk_0000.wav" := [82; 73; 70; 70; 1]%N ]>
         (<[ str "talk_0001.wav" := [82; 73; 70; 70; 1]%N ]>
            (<[ str "talk_0002.wav" := [82; 73; 70; 70; 2]%N ]> ∅)) |}.

(** Stand-ins for the external services on these files: a digest that
    sums the bytes, a decoder that gives up, and no rounding. *)
Definition sum_hash (bytes : list N) : N := fold_right N.add 0%N bytes.
Definition no_decode : list N -> option (list Z) := fun _ => None.
Definition no_round : R -> R := fun x => x.

(** ** Facts about fingerprinting *)

Section FingerprintFacts.
Local Open Scope R_scope.

Definition all_zero (l : list R) : Prop := Forall (fun x => x = 0) l.

Lemma all_zero_repeat (l : list R) :
  all_zero l -> l = repeat 0 (List.length l).
Proof.
  induction 1 as [|x l Hx Hl IH]; simpl; [reflexivity|].
  rewrite Hx, <- IH; reflexivity.
Qed.

Lemma In_slice {A : Type} (l : list A) (i j : nat) (x : A) :
  In x (slice l i j) -> In x l.
Proof.
  unfold slice. intros H.
  rewrite <- (firstn_skipn i l). apply in_or_app; right.
  rewrite <- (firstn_skipn (j - i) (skipn i l)).
  apply in_or_app; left; exact H.
Qed.

Lemma all_zero_slice (l : list R) (i j : nat) :
  all_zero l -> all_zero (slice l i j).
Proof.
  intros H. unfold all_zero in *. rewrite Forall_forall in *.
  intros x Hx. apply H. apply In_slice in Hx; exact Hx.
Qed.

Lemma all_zero_times (a b : list R) : all_zero a -> all_zero (times a b).
Proof.
  intros H; revert b; induction H as [|x a Hx Ha IH]; intros [|y b];
    simpl; try constructor.
  - rewrite Hx; ring.
  - apply IH.
Qed.

Lemma sum_zero_terms {A : Type} (f : A -> R) (l : list A) :
  (forall x, In x l -> f x = 0) -> sum (List.map f l) = 0.
Proof.
  induction l as [|x l IH]; simpl; intros H; [reflexivity|].
  rewrite (H x) by (left; reflexivity).
  rewrite IH by (intros y Hy; apply H; right; exact Hy). ring.
Qed.

Lemma sum_all_zero (l : list R) : all_zero l -> sum l = 0.
Proof.
  induction 1 as [|x l Hx Hl IH]; simpl; [reflexivity|].
  rewrite Hx, IH; ring.
Qed.

Lemma mean_all_zero (l : list R) : all_zero l -> mean l = 0.
Proof.
  intros H. unfold mean. rewrite (sum_all_zero l H).
  unfold Rdiv. ring.
Qed.

Lemma rfft_abs_all_zero (frame : list R) :
  all_zero frame -> all_zero (rfft_abs frame).
Proof.
  intros H. unfold rfft_abs, all_zero. apply Forall_forall.
  intros y Hy. apply in_map_iff in Hy. destruct Hy as [k [<- _]].
  assert (Hsnd : forall tx,
             In tx (combine (seq 0 (List.length frame)) frame) ->
             snd tx = 0).
  { intros [t x] Hin. apply in_combine_r in Hin.
    unfold all_zero in H. rewrite Forall_forall in H.
    simpl. apply H; exact Hin. }
  rewrite !sum_zero_terms.
  - replace (0 * 0 + 0 * 0) with 0 by ring. apply sqrt_0.
  - intros tx Hin. rewrite (Hsnd tx Hin). ring.
  - intros tx Hin. rewrite (Hsnd tx Hin). ring.
Qed.

Lemma map_all_const {B : Type} (f : nat -> B) (b : B) (n : nat) :
  (forall i, f i = b) -> List.map f (seq 0 n) = repeat b n.
Proof.
  intros H. generalize 0%nat. induction n as [|n IH]; intros s; simpl;
    [reflexivity|]. rewrite H, IH; reflexivity.
Qed.

Lemma bands_all_zero (spectrum : list R) :
  all_zero spectrum -> bands spectrum = repeat 0 n_bins.
Proof.
  intros H. unfold bands.
  apply map_all_const. intros b.
  destruct (_ <? _)%nat; [|reflexivity].
  apply mean_all_zero, all_zero_slice, H.
Qed.

Lemma abs_max_all_zero (l : list R) : all_zero l -> abs_max l = 0.
Proof.
  intros H. unfold abs_max.
  assert (Ha : all_zero (List.map Rabs l)).
  { unfold all_zero in *. rewrite Forall_forall in *.
    intros y Hy. apply in_map_iff in Hy. destruct Hy as [x [<- Hx]].
    rewrite (H x Hx). apply Rabs_R0. }
  destruct Ha as [|x m Hx Hm]; [reflexivity|]. subst x.
  induction Hm as [|y m Hy Hm IH]; simpl; [reflexivity|].
  subst y. unfold Rmax at 2. destruct (Rle_dec 0 0); exact IH.
Qed.

Lemma n_frames_pos (len : nat) : (1 <= n_frames len)%Z.
Proof. unfold n_frames. lia. Qed.

(** A silent recording with at least one sample: every frame is a row
    of zeros, and there is at least one frame. *)
Lemma audio_to_fingerprint_zeros (pcm : list Z) :
  pcm <> [] -> Forall (fun x => x = 0%Z) pcm ->
  audio_to_fingerprint pcm
  = repeat (repeat 0 n_bins) (Z.to_nat (n_frames (List.length pcm))).
Proof.
  intros Hne Hz. unfold audio_to_fingerprint.
  assert (Hs : all_zero (List.map IZR pcm)).
  { unfold all_zero. apply Forall_forall. intros y Hy.
    apply in_map_iff in Hy. destruct Hy as [x [<- Hx]].
    rewrite Forall_forall in Hz. rewrite (Hz x Hx); reflexivity. }
  cbv zeta. rewrite (abs_max_all_zero _ Hs).
  destruct (Rlt_dec 0 0) as [H|_]; [lra|].
  rewrite !length_map.
  destruct pcm as [|x pcm]; [contradiction|].
  cbn [List.length Nat.eqb].
  apply map_all_const. intros i.
  apply bands_all_zero, rfft_abs_all_zero, all_zero_times, all_zero_slice.
  exact Hs.
Qed.

Lemma repeat_nonempty {A : Type} (x : A) (n : nat) :
  (1 <= n)%nat -> repeat x n <> [].
Proof. destruct n; [lia | discriminate]. Qed.

Lemma silence_zero : silence <> [] /\ Forall (fun x => x = 0%Z) silence.
Proof.
  unfold silence. split.
  - apply repeat_nonempty. lia.
  - apply Forall_forall. intros x Hx. apply repeat_spec in Hx; exact Hx.
Qed.

Lemma silence_frames : Z.to_nat (n_frames (List.length silence)) = 18%nat.
Proof. unfold silence. rewrite repeat_length. vm_compute; reflexivity. Qed.

Lemma audio_to_fingerprint_silence :
  audio_to_fingerprint silence = repeat (repeat 0 n_bins) 18.
Proof.
  destruct silence_zero as [Hne Hz].
  rewrite (audio_to_fingerprint_zeros silence Hne Hz), silence_frames.
  reflexivity.
Qed.

(** C6 (amended).  [audio_to_fingerprint] returns an empty signature
    for an input without samples.  For a silent input with at least
    one sample it returns [max(1, (len - 1600) // 800)] frames of 32
    zero bands each, which is not empty. *)
Theorem audio_to_fingerprint_silent :
  audio_to_fingerprint [] = [] /\
  forall pcm : list Z,
    pcm <> [] -> Forall (fun x => x = 0%Z) pcm ->
    audio_to_fingerprint pcm
    = repeat (repeat 0 n_bins) (Z.to_nat (n_frames (List.length pcm))) /\
    (1 <= n_frames (List.length pcm))%Z /\
    audio_to_fingerprint pcm <> [].
Proof.
  split; [reflexivity|]. intros pcm Hne Hz.
  pose proof (n_frames_pos (List.length pcm)) as Hpos.
  split; [apply audio_to_fingerprint_zeros; assumption|].
  split; [exact Hpos|].
  rewrite (audio_to_fingerprint_zeros pcm Hne Hz).
  apply repeat_nonempty. lia.
Qed.

Lemma audio_to_fingerprint_silent_witness :
  audio_to_fingerprint [0%Z; 0%Z; 0%Z]
  = repeat (repeat 0 n_bins) (Z.to_nat (n_frames 3)) /\
  (1 <= n_frames 3)%Z /\
  audio_to_fingerprint [0%Z; 0%Z; 0%Z] <> [].
Proof.
  apply (proj2 audio_to_fingerprint_silent [0%Z; 0%Z; 0%Z]).
  - discriminate.
  - repeat constructor.
Defined.

(** C6 as stated fails: one second of silence has a signature of 18
    frames. *)
Lemma audio_to_fingerprint_silence_not_empty :
  Forall (fun x => x = 0%Z) silence /\
  List.length (audio_to_fingerprint silence) = 18%nat /\
  audio_to_fingerprint silence <> [].
Proof.
  split; [apply silence_zero|].
  rewrite audio_to_fingerprint_silence. split; [reflexivity | discriminate].
Qed.

End FingerprintFacts.

Section FingerprintShape.
Local Open Scope R_scope.

Lemma sum_nonneg (l : list R) : Forall (fun x => 0 <= x) l -> 0 <= sum l.
Proof. induction 1 as [|x l Hx Hl IH]; simpl; lra. Qed.

Lemma mean_nonneg (l : list R) : Forall (fun x => 0 <= x) l -> 0 <= mean l.
Proof.
  intros H. unfold mean. destruct l as [|x l].
  - simpl. unfold Rdiv. rewrite Rmult_0_l. lra.
  - pose proof (sum_nonneg _ H) as Hs.
    assert (Hl : 0 < INR (List.length (x :: l)))
      by (apply lt_0_INR; simpl; lia).
    unfold Rdiv. apply Rmult_le_pos; [exact Hs|].
    apply Rlt_le, Rinv_0_lt_compat; exact Hl.
Qed.

Lemma rfft_abs_nonneg (frame : list R) :
  Forall (fun x => 0 <= x) (rfft_abs frame).
Proof.
  unfold rfft_abs. apply Forall_forall. intros y Hy.
  apply in_map_iff in Hy. destruct Hy as [k [<- _]]. apply sqrt_pos.
Qed.

Lemma bands_shape (spectrum : list R) :
  Forall (fun x => 0 <= x) spectrum ->
  List.length (bands spectrum) = n_bins /\
  Forall (fun x => 0 <= x) (bands spectrum).
Proof.
  intros H. unfold bands. split.
  - rewrite length_map, length_seq; reflexivity.
  - apply Forall_forall. intros y Hy.
    apply in_map_iff in Hy. destruct Hy as [b [<- _]].
    destruct (_ <? _)%nat; [|lra].
    apply mean_nonneg. rewrite Forall_forall in *.
    intros x Hx. apply H. apply In_slice in Hx; exact Hx.
Qed.

(** Every signature is a fingerprint of [n_bins] bands. *)
Lemma audio_to_fingerprint_is_fingerprint (pcm : list Z) :
  is_fingerprint n_bins (audio_to_fingerprint pcm).
Proof.
  unfold audio_to_fingerprint, is_fingerprint.
  destruct (_ =? _)%nat; [constructor|].
  apply Forall_forall. intros f Hf.
  apply in_map_iff in Hf. destruct Hf as [i [<- _]].
  apply bands_shape, rfft_abs_nonneg.
Qed.

End FingerprintShape.

(** ** Facts about fingerprint similarity *)

Section SimilarityFacts.
Local Open Scope R_scope.

Lemma fingerprint_similarity_comm (a b : fingerprint) :
  fingerprint_similarity a b = fingerprint_similarity b a.
Proof.
  unfold fingerprint_similarity.
  rewrite (orb_comm (List.length a =? 0)%nat).
  rewrite (Nat.min_comm (List.length a)), (Nat.max_comm (List.length a)).
  destruct (_ || _)%bool; [reflexivity|].
  destruct (Rlt_dec _ _); [reflexivity|].
  unfold np_dot. rewrite (Nat.eqb_sym (List.length (List.concat _))).
  destruct (_ =? _)%nat; [|reflexivity].
  rewrite (orb_comm (is_zero (norm (List.concat (firstn _ a))))).
  destruct (_ || _)%bool; [reflexivity|].
  rewrite dot_comm, (Rmult_comm (norm (List.concat (firstn _ a)))).
  reflexivity.
Qed.

Lemma fingerprint_similarity_empty (a b : fingerprint) :
  a = [] \/ b = [] -> fingerprint_similarity a b = Some 0.
Proof.
  unfold fingerprint_similarity. intros [-> | ->]; simpl;
    [|rewrite orb_true_r]; reflexivity.
Qed.

Lemma concat_length_uniform (n : nat) (l : fingerprint) :
  Forall (fun f => List.length f = n) l ->
  List.length (List.concat l) = (List.length l * n)%nat.
Proof.
  induction 1 as [|f l Hf Hl IH]; simpl; [reflexivity|].
  rewrite length_app, Hf, IH; reflexivity.
Qed.

Lemma is_fingerprint_firstn (n k : nat) (a : fingerprint) :
  is_fingerprint n a -> is_fingerprint n (firstn k a).
Proof.
  unfold is_fingerprint. rewrite !Forall_forall. intros H f Hf.
  apply H. rewrite <- (firstn_skipn k a). apply in_or_app; left; exact Hf.
Qed.

Lemma is_fingerprint_flat (n : nat) (a : fingerprint) :
  is_fingerprint n a ->
  List.length (List.concat a) = (List.length a * n)%nat /\
  Forall (fun x => 0 <= x) (List.concat a).
Proof.
  intros H. split.
  - apply concat_length_uniform.
    eapply Forall_impl; [|exact H]. intros f [Hf _]; exact Hf.
  - apply Forall_concat.
    eapply Forall_impl; [|exact H]. intros f [_ Hf]; exact Hf.
Qed.

Lemma len_ratio_le_1 (p q : nat) :
  (0 < p)%nat -> (0 < q)%nat ->
  0 < INR (Nat.min p q) / INR (Nat.max p q) <= 1.
Proof.
  intros Hp Hq.
  assert (Hmin : (0 < Nat.min p q)%nat) by lia.
  assert (Hle : (Nat.min p q <= Nat.max p q)%nat) by lia.
  apply lt_INR in Hmin. apply le_INR in Hle. simpl in Hmin.
  assert (Hmax : 0 < INR (Nat.max p q)) by lra.
  split.
  - apply Rdiv_lt_0_compat; assumption.
  - apply Rmult_le_reg_r with (INR (Nat.max p q)); [exact Hmax|].
    unfold Rdiv. rewrite Rmult_assoc, Rinv_l by lra. lra.
Qed.

(** On fingerprints of one band count the similarity is defined and
    lies in [0, 1]. *)
Lemma fingerprint_similarity_range (n : nat) (a b : fingerprint) :
  is_fingerprint n a -> is_fingerprint n b ->
  exists r, fingerprint_similarity a b = Some r /\ 0 <= r <= 1.
Proof.
  intros Ha Hb. unfold fingerprint_similarity.
  destruct (_ || _)%bool eqn:E0; [exists 0; split; [reflexivity | lra]|].
  apply orb_false_iff in E0. destruct E0 as [Ea Eb].
  apply Nat.eqb_neq in Ea, Eb.
  set (m := Nat.min (List.length a) (List.length b)).
  set (ratio := INR m / INR (Nat.max (List.length a) (List.length b))).
  destruct (Rlt_dec ratio 0.5) as [_|Hr];
    [exists 0; split; [reflexivity | lra]|].
  assert (Hratio : 0 < ratio <= 1) by (apply len_ratio_le_1; lia).
  destruct (is_fingerprint_flat n _ (is_fingerprint_firstn n m a Ha))
    as [Hla Hpa].
  destruct (is_fingerprint_flat n _ (is_fingerprint_firstn n m b Hb))
    as [Hlb Hpb].
  unfold np_dot. rewrite Hla, Hlb, !length_firstn.
  replace (Nat.min m (List.length a)) with m by (unfold m; lia).
  replace (Nat.min m (List.length b)) with m by (unfold m; lia).
  rewrite Nat.eqb_refl.
  destruct (_ || _)%bool eqn:E1; [exists 0; split; [reflexivity | lra]|].
  apply orb_false_iff in E1. destruct E1 as [Eza Ezb].
  apply is_zero_false in Eza, Ezb.
  eexists; split; [reflexivity|].
  pose proof (cosine_range _ _ Hpa Hpb Eza Ezb) as Hc.
  split; [apply Rmult_le_pos; lra|].
  rewrite <- (Rmult_1_r 1). apply Rmult_le_compat; lra.
Qed.

Lemma dot_self_zero (v : vector) : dot v v = 0 -> Forall (fun x => x = 0) v.
Proof.
  induction v as [|x v IH]; simpl; intros H; [constructor|].
  pose proof (dot_self_nonneg v) as Hv.
  pose proof (Rle_0_sqr x) as Hx. unfold Rsqr in Hx.
  constructor; [|apply IH; lra].
  assert (Hxx : x * x = 0) by lra.
  apply Rmult_integral in Hxx. destruct Hxx; assumption.
Qed.

Lemma dot_all_zero (v : vector) : Forall (fun x => x = 0) v -> dot v v = 0.
Proof.
  induction 1 as [|x v Hx Hv IH]; simpl; [reflexivity|].
  rewrite Hx, IH; ring.
Qed.

Lemma norm_zero_iff (v : vector) : norm v = 0 <-> Forall (fun x => x = 0) v.
Proof.
  unfold norm. split; intros H.
  - apply dot_self_zero, sqrt_eq_0; [apply dot_self_nonneg | exact H].
  - rewrite (dot_all_zero v H). apply sqrt_0.
Qed.

(** A fingerprint with a non-zero band is exactly similar to itself. *)
Lemma fingerprint_similarity_self (a : fingerprint) :
  Exists (Exists (fun x => x <> 0)) a ->
  fingerprint_similarity a a = Some 1.
Proof.
  intros Hex.
  assert (Hnorm : norm (List.concat a) <> 0).
  { intros H0. apply norm_zero_iff in H0.
    apply Exists_exists in Hex. destruct Hex as [f [Hf Hx]].
    apply Exists_exists in Hx. destruct Hx as [x [Hx Hne]].
    apply Hne. rewrite Forall_forall in H0. apply H0.
    apply in_concat. exists f; split; assumption. }
  unfold fingerprint_similarity.
  destruct a as [|f a]; [inversion Hex|].
  cbn [List.length Nat.eqb orb]. rewrite Nat.min_id, Nat.max_id.
  set (len := S (List.length a)).
  assert (Hlen : 0 < INR len) by (apply lt_0_INR; unfold len; lia).
  assert (Hratio : INR len / INR len = 1) by (field; lra).
  rewrite Hratio.
  destruct (Rlt_dec 1 0.5) as [H|_]; [lra|].
  replace (firstn len (f :: a)) with (f :: a)
    by (symmetry; apply (firstn_all (f :: a))).
  unfold np_dot. rewrite Nat.eqb_refl.
  rewrite (proj2 (is_zero_false _) Hnorm). cbn [orb].
  f_equal. rewrite norm_sqr.
  assert (Hd : dot (List.concat (f :: a)) (List.concat (f :: a)) <> 0).
  { rewrite <- norm_sqr. intros H.
    apply Rmult_integral in H. destruct H; contradiction. }
  field. exact Hd.
Qed.

(** A fingerprint of zeros, such as silence yields, has similarity 0
    to itself. *)
Lemma fingerprint_similarity_self_zero (a : fingerprint) :
  Forall (Forall (fun x => x = 0)) a ->
  fingerprint_similarity a a = Some 0.
Proof.
  intros Hz. unfold fingerprint_similarity.
  destruct a as [|f a]; [reflexivity|].
  cbn [List.length Nat.eqb orb]. rewrite Nat.min_id, Nat.max_id.
  destruct (Rlt_dec _ _); [reflexivity|].
  replace (firstn (S (List.length a)) (f :: a)) with (f :: a)
    by (symmetry; apply (firstn_all (f :: a))).
  unfold np_dot. rewrite Nat.eqb_refl.
  assert (Hn : norm (List.concat (f :: a)) = 0).
  { apply norm_zero_iff, Forall_concat; exact Hz. }
  rewrite (proj2 (is_zero_true _) Hn). reflexivity.
Qed.

(** C5 (amended).  [fingerprint_similarity] is symmetric; it is 0
    whenever either fingerprint is empty; and a fingerprint of zeros
    only, which is not empty when it comes from a silent clip, has
    similarity 0 to itself.  Over the reals, that is but for the
    rounding of the floats, it lies in [0, 1] on fingerprints (rows of
    one band count, no negative band), and a fingerprint with at least
    one non-zero band has similarity exactly 1 to itself; in double
    precision the result can exceed 1, also for a fingerprint and
    itself. *)
Theorem fingerprint_similarity_spec :
  (forall a b : fingerprint,
      fingerprint_similarity a b = fingerprint_similarity b a) /\
  (forall (n : nat) (a b : fingerprint),
      is_fingerprint n a -> is_fingerprint n b ->
      exists r, fingerprint_similarity a b = Some r /\ 0 <= r <= 1) /\
  (forall a b : fingerprint,
      a = [] \/ b = [] -> fingerprint_similarity a b = Some 0) /\
  (forall a : fingerprint,
      Exists (Exists (fun x => x <> 0)) a ->
      fingerprint_similarity a a = Some 1) /\
  (forall a : fingerprint,
      Forall (Forall (fun x => x = 0)) a ->
      fingerprint_similarity a a = Some 0).
Proof.
  split; [exact fingerprint_similarity_comm|].
  split; [exact fingerprint_similarity_range|].
  split; [exact fingerprint_similarity_empty|].
  split; [exact fingerprint_similarity_self|].
  exact fingerprint_similarity_self_zero.
Qed.

Lemma fingerprint_similarity_spec_witness :
  (exists r, fingerprint_similarity [[1; 0]; [0; 2]] [[0; 3]; [1; 1]; [4; 0]]
             = Some r /\ 0 <= r <= 1) /\
  fingerprint_similarity [[1; 0]; [0; 2]] [] = Some 0 /\
  fingerprint_similarity [[1; 0]; [0; 2]] [[1; 0]; [0; 2]] = Some 1.
Proof.
  destruct fingerprint_similarity_spec as [_ [Hrange [Hempty [Hself _]]]].
  split; [|split].
  - apply (Hrange 2%nat); repeat constructor; lra.
  - apply Hempty. right; reflexivity.
  - apply Hself. left. left. lra.
Defined.

(** C5 as stated fails in two ways.  The fingerprint of a silent clip
    is not empty, and its similarity to itself is 0, which is not
    close to 1.  And in double precision the result is not always in
    [0, 1]: a fingerprint of one frame with the bands 2 and 3 has the
    similarity [1.0000000000000002] to itself. *)
Lemma fingerprint_similarity_not_as_claimed :
  (audio_to_fingerprint silence <> [] /\
   fingerprint_similarity (audio_to_fingerprint silence)
     (audio_to_fingerprint silence) = Some 0 /\
   forall eps : R, eps < 1 -> ~ Rabs (0 - 1) <= eps) /\
  (Doubles.fingerprint_similarity Doubles.one_frame Doubles.one_frame
   = Some Doubles.above_one /\
   Doubles.at_most_one Doubles.above_one = false).
Proof.
  split.
  - rewrite audio_to_fingerprint_silence.
    split; [discriminate|]. split.
    + apply fingerprint_similarity_self_zero.
      apply Forall_forall. intros f Hf. apply repeat_spec in Hf. subst f.
      apply Forall_forall. intros x Hx. apply repeat_spec in Hx. exact Hx.
    + intros eps Heps H.
      replace (0 - 1) with (-1) in H by ring.
      rewrite Rabs_left in H by lra. lra.
  - split; reflexivity.
Qed.

End SimilarityFacts.

(** ** Facts about the duplicate resolver *)

Lemma delete_all_lookup (l : list pystr) (dir : gmap pystr (list N))
  (name : pystr) :
  fold_right (fun clip_file dir => delete clip_file dir) dir l !! name
  = if decide (name ∈ l) then None else dir !! name.
Proof.
  induction l as [|f l IH]; simpl.
  - destruct (decide (name ∈ [])) as [H|_]; [|reflexivity].
    inversion H.
  - destruct (decide (f = name)) as [->|Hne].
    + rewrite lookup_delete_eq.
      destruct (decide (name ∈ name :: l)) as [_|H]; [reflexivity|].
      exfalso; apply H; left.
    + rewrite lookup_delete_ne by exact Hne. rewrite IH.
      destruct (decide (name ∈ l)) as [Hin|Hin];
        destruct (decide (name ∈ f :: l)) as [Hin'|Hin'];
        try reflexivity.
      * exfalso; apply Hin'; right; exact Hin.
      * exfalso. inversion Hin'; subst; [apply Hne; reflexivity|].
        contradiction.
Qed.

Lemma remove_all_lookup (remove_files : gset pystr)
  (dir : gmap pystr (list N)) (name : pystr) :
  remove_all remove_files dir !! name
  = if decide (name ∈ remove_files) then None else dir !! name.
Proof.
  unfold remove_all. rewrite delete_all_lookup.
  destruct (decide (name ∈ elements remove_files)) as [H|H];
    destruct (decide (name ∈ remove_files)) as [H'|H']; try reflexivity.
  - exfalso; apply H', elem_of_elements, H.
  - exfalso; apply H, elem_of_elements, H'.
Qed.

Section ResolverFacts.
Variable raw_bytes_hash : list N -> N.
Variable decode : list N -> option (list Z).
Variable round3 : R -> R.

Local Abbreviation find_dupes :=
  (find_duplicates raw_bytes_hash decode round3).
Local Abbreviation run_main := (main raw_bytes_hash decode round3).

Lemma main_preview (a : args) (fs : files) :
  arg_delete a = false -> files_after (run_main a fs) = fs.
Proof.
  intros Hd. unfold main. rewrite Hd.
  destruct (find_dupes fs (arg_threshold a)) as [[dupes data]|];
    [|reflexivity].
  destruct dupes; reflexivity.
Qed.

Lemma main_reported (a : args) (fs : files) (dupes : list dupe)
  (data : option catalog) :
  find_dupes fs (arg_threshold a) = Some (dupes, data) ->
  reported (run_main a fs) = dupes.
Proof.
  intros H. unfold main. rewrite H.
  destruct dupes as [|d dupes]; [reflexivity|].
  destruct (negb (arg_delete a)); [reflexivity|].
  destruct data; reflexivity.
Qed.

(** What delete mode writes. *)
Lemma main_delete (a : args) (fs : files) (dupes : list dupe)
  (data : catalog) :
  arg_delete a = true ->
  find_dupes fs (arg_threshold a) = Some (dupes, Some data) ->
  dupes <> [] ->
  let removed := List.map (fun d => clip_file (remove d)) dupes in
  exists written : catalog,
    catalog_json (files_after (run_main a fs)) = Some written /\
    clips written
    = List.filter (fun c => negb (bool_decide (clip_file c ∈ removed)))
        (clips data) /\
    total_clips written = Z.of_nat (List.length (clips written)) /\
    forall name : pystr,
      clip_dir (files_after (run_main a fs)) !! name
      = if decide (name ∈ removed) then None else clip_dir fs !! name.
Proof.
  intros Hd Hf Hne removed. unfold main. rewrite Hf, Hd.
  destruct dupes as [|d dupes]; [contradiction|].
  cbn [negb]. cbv zeta. cbn [files_after catalog_json clip_dir].
  eexists. split; [reflexivity|]. cbn [clips total_clips].
  split; [|split; [reflexivity|]].
  - apply filter_ext. intros c. f_equal.
    apply bool_decide_ext. apply elem_of_list_to_set.
  - intros name. rewrite remove_all_lookup.
    destruct (decide (name ∈ _)) as [H|H];
      destruct (decide (name ∈ removed)) as [H'|H']; try reflexivity.
    + exfalso; apply H'. apply elem_of_list_to_set in H; exact H.
    + exfalso; apply H. apply elem_of_list_to_set; exact H'.
Qed.

(** Whatever the mode, a catalog that the tool leaves behind is the
    one it found or one whose count is the number of its clips. *)
Lemma main_total_clips (a : args) (fs : files) (after : catalog) :
  catalog_json (files_after (run_main a fs)) = Some after ->
  catalog_json fs = Some after \/
  total_clips after = Z.of_nat (List.length (clips after)).
Proof.
  unfold main.
  destruct (find_dupes fs (arg_threshold a)) as [[dupes data]|];
    [|left; assumption].
  destruct dupes as [|d dupes]; [left; assumption|].
  destruct (negb (arg_delete a)); [left; assumption|].
  destruct data as [data|]; [|left; assumption].
  cbn [files_after catalog_json]. intros [= <-]. right; reflexivity.
Qed.

End ResolverFacts.

(** C9.  Without [--delete], which is the default, the tool lists the
    duplicates it finds and leaves the catalog file and every clip
    file as they were; so the files change only under [--delete], and
    then the entries of the clips to remove leave the catalog (with
    the count updated) and their files are deleted. *)
Theorem main_preview_no_mutation
  (raw_bytes_hash : list N -> N) (decode : list N -> option (list Z))
  (round3 : R -> R) :
  let find_dupes := find_duplicates raw_bytes_hash decode round3 in
  let run_main := main raw_bytes_hash decode round3 in
  arg_delete default_args = false /\
  (forall (a : args) (fs : files),
      arg_delete a = false -> files_after (run_main a fs) = fs) /\
  (forall (a : args) (fs : files) (dupes : list dupe)
          (data : option catalog),
      find_dupes fs (arg_threshold a) = Some (dupes, data) ->
      reported (run_main a fs) = dupes) /\
  (forall (a : args) (fs : files),
      files_after (run_main a fs) <> fs -> arg_delete a = true) /\
  (forall (a : args) (fs : files) (dupes : list dupe) (data : catalog),
      arg_delete a = true ->
      find_dupes fs (arg_threshold a) = Some (dupes, Some data) ->
      dupes <> [] ->
      let removed := List.map (fun d => clip_file (remove d)) dupes in
      exists written : catalog,
        catalog_json (files_after (run_main a fs)) = Some written /\
        clips written
        = List.filter (fun c => negb (bool_decide (clip_file c ∈ removed)))
            (clips data) /\
        total_clips written = Z.of_nat (List.length (clips written)) /\
        forall name : pystr,
          clip_dir (files_after (run_main a fs)) !! name
          = if decide (name ∈ removed) then None else clip_dir fs !! name).
Proof.
  intros find_dupes run_main.
  split; [reflexivity|].
  split; [apply main_preview|].
  split; [apply main_reported|].
  split; [|apply main_delete].
  intros a fs Hne. destruct (arg_delete a) eqn:E; [reflexivity|].
  exfalso. apply Hne. apply main_preview; exact E.
Qed.

Lemma twin_duplicates (threshold : R) :
  find_duplicates sum_hash no_decode no_round twin_files threshold
  = Some ([ mk_dupe (clip_named "talk_0000.wav" "hello there" 1)
              (clip_named "talk_0001.wav" "hello there" 1) 1%R exact ],
          catalog_json twin_files).
Proof. reflexivity. Qed.

Lemma main_preview_no_mutation_witness :
  files_after (main sum_hash no_decode no_round default_args twin_files)
  = twin_files /\
  reported (main sum_hash no_decode no_round default_args twin_files)
  = [ mk_dupe (clip_named "talk_0000.wav" "hello there" 1)
        (clip_named "talk_0001.wav" "hello there" 1) 1%R exact ].
Proof.
  destruct (main_preview_no_mutation sum_hash no_decode no_round)
    as [_ [Hpreview [Hreport _]]].
  split.
  - apply Hpreview. reflexivity.
  - apply (Hreport default_args twin_files _ (catalog_json twin_files)).
    apply twin_duplicates.
Defined.

(** Two clips with identical bytes: delete mode takes exactly one
    entry out of the catalog and exactly one file off the disk. *)
Example main_delete_twins :
  let after :=
    files_after
      (main sum_hash no_decode no_round (mk_args 0.90%R true) twin_files) in
  option_map (fun c => (total_clips c, List.map clip_file (clips c)))
    (catalog_json after)
  = Some (2%Z, [str "talk_0000.wav"; str "talk_0002.wav"]) /\
  clip_dir after !! str "talk_0000.wav" = Some [82; 73; 70; 70; 1]%N /\
  clip_dir after !! str "talk_0001.wav" = None /\
  clip_dir after !! str "talk_0002.wav" = Some [82; 73; 70; 70; 2]%N.
Proof.
  cbv zeta. unfold main. rewrite twin_duplicates.
  cbn [negb arg_delete files_after catalog_json clip_dir].
  repeat split; reflexivity.
Qed.

End Deduplicator.

(** * The catalog count after a write *)

(** C10.  The two writers of the catalog leave [total_clips] equal to
    the number of clips: a run of the catalog builder that reaches its
    end has written such a catalog (and one that exits early has
    written nothing); a catalog left by the deduplicator is the one it
    found or such a catalog, and in delete mode with duplicates it is
    such a catalog. *)
Theorem catalog_total_clips_after_write :
  (forall (lower : PyStr.pystr -> PyStr.pystr)
          (load_model : PyStr.pystr -> bool)
          (process_audio_file :
             PyStr.pystr -> PyStr.pystr -> Catalog.files ->
             option (list Catalog.clip * Catalog.files))
          (now : PyStr.pystr) (audio_files : list PyStr.pystr)
          (a : ClipParser.args) (fs fs' : Catalog.files),
      ClipParser.main lower load_model process_audio_file now audio_files
        a fs
      = ClipParser.Completed fs' ->
      exists written : Catalog.catalog,
        Catalog.catalog_json fs' = Some written /\
        Catalog.total_clips written
        = Z.of_nat (List.length (Catalog.clips written))) /\
  (forall (lower : PyStr.pystr -> PyStr.pystr)
          (load_model : PyStr.pystr -> bool)
          (process_audio_file :
             PyStr.pystr -> PyStr.pystr -> Catalog.files ->
             option (list Catalog.clip * Catalog.files))
          (now : PyStr.pystr) (audio_files : list PyStr.pystr)
          (a : ClipParser.args) (fs fs' : Catalog.files),
      ClipParser.main lower load_model process_audio_file now audio_files
        a fs
      = ClipParser.Exited fs' ->
      fs' = fs) /\
  (forall (raw_bytes_hash : list N -> N)
          (decode : list N -> option (list Z)) (round3 : R -> R)
          (a : Deduplicator.args) (fs : Catalog.files)
          (after : Catalog.catalog),
      Catalog.catalog_json
        (Deduplicator.files_after
           (Deduplicator.main raw_bytes_hash decode round3 a fs))
      = Some after ->
      Catalog.catalog_json fs = Some after \/
      Catalog.total_clips after
      = Z.of_nat (List.length (Catalog.clips after))) /\
  (forall (raw_bytes_hash : list N -> N)
          (decode : list N -> option (list Z)) (round3 : R -> R)
          (a : Deduplicator.args) (fs : Catalog.files)
          (dupes : list Deduplicator.dupe) (data : Catalog.catalog),
      Deduplicator.arg_delete a = true ->
      Deduplicator.find_duplicates raw_bytes_hash decode round3 fs
        (Deduplicator.arg_threshold a) = Some (dupes, Some data) ->
      dupes <> [] ->
      exists written : Catalog.catalog,
        Catalog.catalog_json
          (Deduplicator.files_after
             (Deduplicator.main raw_bytes_hash decode round3 a fs))
        = Some written /\
        Catalog.total_clips written
        = Z.of_nat (List.length (Catalog.clips written))).
Proof.
  split; [exact ClipParser.main_completed_total_clips|].
  split; [exact ClipParser.main_exited_unchanged|].
  split; [exact Deduplicator.main_total_clips|].
  intros h d r a fs dupes data Hd Hf Hne.
  destruct (Deduplicator.main_delete h d r a fs dupes data Hd Hf Hne)
    as [written [Hw [_ [Ht _]]]].
  exists written. split; assumption.
Qed.

Lemma catalog_total_clips_after_write_witness :
  (exists written : Catalog.catalog,
      Catalog.catalog_json
        (ClipParser.finish ClipParser.ascii_lower_str
           (PyStr.str "2024-02-02T00:00:00")
           (ClipParser.mk_args (PyStr.str "base") false true)
           (match Catalog.catalog_json ClipParser.repeated_files with
            | Some data => Catalog.clips data
            | None => []
            end)
           ClipParser.repeated_files)
      = Some written /\
      Catalog.total_clips written
      = Z.of_nat (List.length (Catalog.clips written))) /\
  (exists written : Catalog.catalog,
      Catalog.catalog_json
        (Deduplicator.files_after
           (Deduplicator.main Deduplicator.sum_hash Deduplicator.no_decode
              Deduplicator.no_round (Deduplicator.mk_args 0.90%R true)
              Deduplicator.twin_files))
      = Some written /\
      Catalog.total_clips written
      = Z.of_nat (List.length (Catalog.clips written))).
Proof.
  destruct catalog_total_clips_after_write as [Hbuild [_ [_ Hdelete]]].
  split.
  - apply (Hbuild ClipParser.ascii_lower_str ClipParser.any_model
             ClipParser.no_whisper
             (PyStr.str "2024-02-02T00:00:00") []
             (ClipParser.mk_args (PyStr.str "base") false true)
             ClipParser.repeated_files).
    reflexivity.
  - eapply (Hdelete Deduplicator.sum_hash Deduplicator.no_decode
              Deduplicator.no_round (Deduplicator.mk_args 0.90%R true)
              Deduplicator.twin_files).
    + reflexivity.
    + apply Deduplicator.twin_duplicates.
    + discriminate.
Defined.

(** * More of [utils.py] *)

Module UtilsMore.
Import PyStr Regex Numpy Catalog Utils.

(** ** Definitions *)

(** [k * a] on an array. *)
Definition scale (k : R) (a : vector) : vector :=
  List.map (fun x => (k * x)%R) a.

(** A sentence terminator of [split_regex]. *)
Definition is_terminator (c : N) : bool := existsb (N.eqb c) (str ".!?;").

(** The stock video outros of [_HALLUCINATION_PATTERNS]. *)
Definition outro_phrases : list string :=
  ["please subscribe"; "like and subscribe"; "see you in the next"]%string.

(** ** The message log *)

Section LogDefs.

(** The decimal digits above the ASCII range (the Unicode character
    database is not part of the repository). *)
Variable uni_digit : N -> bool.

(** The class [\d] of [re] on [str] patterns. *)
Definition is_digit (c : N) : bool :=
  if (c <? 128)%N then ((48 <=? c) && (c <=? 57))%N else uni_digit c.

(** The class [.]: everything but a newline. *)
Definition not_newline (c : N) : bool := negb (c =? 10)%N.

(** [\[\d{2}:\d{2}:\d{2}\]] *)
Definition timestamp : regex :=
  seq_of
    (List.map Chr
       [ N.eqb 91; is_digit; is_digit; N.eqb 58; is_digit; is_digit;
         N.eqb 58; is_digit; is_digit; N.eqb 93 ]).

(** The group [(.+)] tried at one cursor: what its first match
    captures. *)
Definition group_at (c1 : cursor) : list pystr :=
  match rmatch (plus (Chr not_newline)) c1 with
  | c2 :: _ => [firstn (remaining c1 - remaining c2) (snd c1)]
  | [] => []
  end.

(** [re.match(r"\[\d{2}:\d{2}:\d{2}\]\s*(.+)", line)] and its
    [group(1)]: the engine takes the first way of matching the
    timestamp and the spaces after which the group matches. *)
Definition match_group (line : pystr) : option pystr :=
  hd_error
    (flat_map group_at (rmatch (Cat timestamp (Star ws)) (None, line))).

(** The body of the loop over the lines: the message appended for one
    line, if any. *)
Definition message_of_line (line : pystr) : option pystr :=
  match match_group line with
  | Some g => Some (strip g)
  | None => None
  end.

(** [read_new_messages], from what opening the log and reading on
    from [last_pos] gives: nothing when the file does not exist, else
    the lines up to the end and the position of the end. *)
Definition read_new_messages (log : option (list pystr * nat))
  (last_pos : nat) : list pystr * nat :=
  match log with
  | None => ([], last_pos)
  | Some (lines, end_pos) =>
      (flat_map
         (fun line =>
            match message_of_line line with
            | Some m => [m]
            | None => []
            end)
         lines,
       end_pos)
  end.

End LogDefs.

(** The digit table restricted to ASCII. *)
Definition ascii_digits : N -> bool := fun _ => false.

(** ** The transcript length filter *)

(** The class [[a-zA-Z0-9]] *)
Definition ascii_alnum (c : N) : bool :=
  (((48 <=? c) && (c <=? 57)) || ((65 <=? c) && (c <=? 90))
   || ((97 <=? c) && (c <=? 122)))%N.

(** [is_transcript_too_short(text)]: the substitution deletes every
    character outside the class. *)
Definition is_transcript_too_short (text : pystr) : bool :=
  let cleaned := List.filter ascii_alnum text in
  (Z.of_nat (List.length cleaned) <? ClipParser.MIN_TRANSCRIPT_LENGTH)%Z.

(** ** Cosine similarity *)

Section CosineFacts.
Local Open Scope R_scope.

Lemma dot_scale_l (k : R) (a b : vector) :
  dot (scale k a) b = k * dot a b.
Proof.
  revert b; induction a as [|x a IH]; intros [|y b]; simpl;
    try (ring). rewrite IH. ring.
Qed.

Lemma dot_scale_both (k : R) (a : vector) :
  dot (scale k a) (scale k a) = k * k * dot a a.
Proof.
  induction a as [|x a IH]; simpl; [ring|]. rewrite IH. ring.
Qed.

Lemma norm_scale (k : R) (a : vector) :
  0 <= k -> norm (scale k a) = k * norm a.
Proof.
  intros Hk. unfold norm. rewrite dot_scale_both.
  rewrite sqrt_mult_alt by nra.
  rewrite sqrt_square by exact Hk. reflexivity.
Qed.

Lemma dot_abs_le (a b : vector) : Rabs (dot a b) <= norm a * norm b.
Proof.
  pose proof (dot_sqr_le a b) as H.
  rewrite <- (norm_sqr a), <- (norm_sqr b) in H.
  pose proof (norm_nonneg a) as Ha. pose proof (norm_nonneg b) as Hb.
  assert (Hp : 0 <= norm a * norm b) by (apply Rmult_le_pos; assumption).
  destruct (Rle_dec (Rabs (dot a b)) (norm a * norm b)) as [Hle|Hgt];
    [exact Hle|].
  exfalso. apply Rnot_le_lt in Hgt.
  assert (Hsq : Rabs (dot a b) * Rabs (dot a b) = dot a b * dot a b).
  { unfold Rabs. destruct (Rcase_abs _); ring. }
  assert (norm a * norm b * (norm a * norm b)
          < Rabs (dot a b) * Rabs (dot a b)).
  { apply Rmult_le_0_lt_compat; assumption. }
  nra.
Qed.

(** X1.  [cosine_similarity] is symmetric, also in what it raises. *)
Theorem cosine_similarity_comm (a b : vector) :
  cosine_similarity a b = cosine_similarity b a.
Proof.
  unfold cosine_similarity.
  rewrite (orb_comm (is_zero (norm a))).
  destruct (_ || _)%bool; [reflexivity|].
  unfold np_dot. rewrite (Nat.eqb_sym (List.length a)).
  destruct (_ =? _)%nat; [|reflexivity].
  rewrite dot_comm, (Rmult_comm (norm a)). reflexivity.
Qed.

(** The quotient that [cosine_similarity] returns on arrays that are
    not zero. *)
Lemma cosine_quotient_range (a b : vector) :
  norm a <> 0 -> norm b <> 0 ->
  -1 <= dot a b / (norm a * norm b) <= 1.
Proof.
  intros Ea Eb.
  pose proof (norm_nonneg a) as Ha. pose proof (norm_nonneg b) as Hb.
  assert (Hp : 0 < norm a * norm b) by (apply Rmult_lt_0_compat; lra).
  pose proof (dot_abs_le a b) as Habs.
  assert (Hd : - (norm a * norm b) <= dot a b <= norm a * norm b).
  { unfold Rabs in Habs. destruct (Rcase_abs _); lra. }
  split.
  - apply Rmult_le_reg_r with (norm a * norm b); [exact Hp|].
    unfold Rdiv. rewrite Rmult_assoc, Rinv_l by lra. lra.
  - apply Rmult_le_reg_r with (norm a * norm b); [exact Hp|].
    unfold Rdiv. rewrite Rmult_assoc, Rinv_l by lra. lra.
Qed.

(** X2.  On two arrays of one length [cosine_similarity] returns a
    number, over the reals one between -1 and 1. *)
Theorem cosine_similarity_bounds (a b : vector) :
  List.length a = List.length b ->
  exists r, cosine_similarity a b = Some r /\ -1 <= r <= 1.
Proof.
  intros Hlen. unfold cosine_similarity, np_dot.
  rewrite Hlen, Nat.eqb_refl.
  destruct (_ || _)%bool eqn:E; [exists 0; split; [reflexivity | lra]|].
  apply orb_false_iff in E. destruct E as [Ea Eb].
  apply is_zero_false in Ea, Eb.
  eexists; split; [reflexivity|].
  apply cosine_quotient_range; assumption.
Qed.

Lemma cosine_similarity_bounds_witness :
  exists r, cosine_similarity [1; 2] [3; -4] = Some r /\ -1 <= r <= 1.
Proof. apply cosine_similarity_bounds. reflexivity. Defined.

(** X3.  A zero array has similarity 0 with every array, whatever the
    lengths. *)
Theorem cosine_similarity_zero (a b : vector) :
  Forall (fun x => x = 0) a -> cosine_similarity a b = Some 0.
Proof.
  intros Hz. unfold cosine_similarity.
  assert (Hn : norm a = 0).
  { unfold norm. replace (dot a a) with 0; [apply sqrt_0|].
    symmetry. induction Hz as [|x a Hx Ha IH]; simpl; [reflexivity|].
    rewrite Hx, IH; ring. }
  rewrite (proj2 (is_zero_true _) Hn). reflexivity.
Qed.

Lemma cosine_similarity_zero_witness :
  cosine_similarity [0; 0] [1; 2; 3] = Some 0.
Proof. apply cosine_similarity_zero. repeat constructor. Defined.

(** X4.  Over the reals, that is but for the rounding of the floats, the
    similarity does not depend on the magnitude of an embedding:
    scaling one array by a positive factor changes nothing. *)
Theorem cosine_similarity_scale (k : R) (a b : vector) :
  0 < k -> cosine_similarity (scale k a) b = cosine_similarity a b.
Proof.
  intros Hk. unfold cosine_similarity.
  rewrite (norm_scale k a) by lra.
  assert (Hz : is_zero (k * norm a) = is_zero (norm a)).
  { destruct (is_zero (norm a)) eqn:E.
    - apply is_zero_true in E. apply is_zero_true. rewrite E; ring.
    - apply is_zero_false in E. apply is_zero_false.
      intros H. apply Rmult_integral in H. destruct H; lra. }
  rewrite Hz.
  destruct (is_zero (norm a) || is_zero (norm b))%bool eqn:E;
    [reflexivity|].
  apply orb_false_iff in E. destruct E as [Ea Eb].
  apply is_zero_false in Ea, Eb.
  unfold np_dot, scale. rewrite length_map.
  destruct (_ =? _)%nat; [|reflexivity].
  fold (scale k a). rewrite dot_scale_l. f_equal. field.
  repeat split; lra.
Qed.

Lemma cosine_similarity_scale_witness :
  cosine_similarity (scale 3 [1; 2]) [3; -4] = cosine_similarity [1; 2] [3; -4].
Proof. apply cosine_similarity_scale. lra. Defined.

End CosineFacts.

(** ** Clip matching *)

Lemma ranked_head_best (q : vector) (clips : list embedded_clip) (m : R)
  (n : nat) (best : embedded_clip) (rest : list embedded_clip) :
  ranked q clips m n = best :: rest ->
  forall c, In c clips -> (similarity q c <= similarity q best)%R.
Proof.
  intros Hres c Hc. unfold ranked in Hres.
  set (scored := List.map (fun c => (similarity q c, c)) clips) in *.
  set (F := List.filter (fun p => Rleb m (fst p)) (sort_desc scored)) in *.
  assert (HsF : StronglySorted desc F)
    by apply StronglySorted_filter, sort_desc_sorted.
  assert (HcF : Forall (consistent q) F).
  { apply Forall_forall. intros p Hp. apply filter_In in Hp.
    destruct Hp as [Hp _].
    apply (Permutation_in _ (sort_desc_perm scored)) in Hp.
    pose proof (scored_consistent q clips) as Hs.
    rewrite Forall_forall in Hs. apply Hs, Hp. }
  destruct F as [|p F'] eqn:EF; [destruct n; discriminate|].
  destruct n as [|n]; [discriminate|].
  simpl in Hres. injection Hres as Hbest _.
  inversion HcF as [|p0 l0 Hp _]; subst p0 l0.
  unfold consistent in Hp. rewrite Hbest in Hp.
  assert (HpF : In p (List.filter (fun p => Rleb m (fst p))
                        (sort_desc scored)))
    by (fold F; rewrite EF; left; reflexivity).
  apply filter_In in HpF. destruct HpF as [_ Hpm].
  apply Rleb_true in Hpm.
  destruct (Rle_dec m (similarity q c)) as [Hge|Hlt].
  - assert (Hin : In (similarity q c, c) (p :: F')).
    { rewrite <- EF. unfold F. apply filter_In. split.
      - apply (Permutation_in _ (Permutation_sym (sort_desc_perm scored))).
        apply in_map_iff. exists c; split; [reflexivity | exact Hc].
      - apply Rleb_true; exact Hge. }
    destruct Hin as [Heq|Hin]; [rewrite Heq in Hp; simpl in Hp; lra|].
    inversion HsF as [|p0 l0 _ Hall]; subst p0 l0.
    rewrite Forall_forall in Hall. specialize (Hall _ Hin).
    unfold desc in Hall. simpl in Hall. lra.
  - lra.
Qed.

(** X5.  The first clip that [find_best_clips] returns is a best match of
    the whole catalog: no clip is more similar to the query. *)
Theorem find_best_clips_best_first (encode_text : pystr -> vector)
  (phrase_text : pystr) (clips : list embedded_clip) (top_n : Z)
  (min_similarity : option R) (best : embedded_clip)
  (rest : list embedded_clip) :
  (0 <= top_n)%Z ->
  Forall (fun c => List.length (embedding c)
                   = List.length (encode_text phrase_text)) clips ->
  find_best_clips encode_text phrase_text clips top_n min_similarity
  = Some (best :: rest) ->
  forall c : embedded_clip,
    In c clips ->
    (similarity (encode_text phrase_text) c
     <= similarity (encode_text phrase_text) best)%R.
Proof.
  intros Hn Hdim Hres.
  rewrite (find_best_clips_ranked _ _ _ _ _ Hn Hdim) in Hres.
  injection Hres as Hres.
  exact (ranked_head_best _ _ _ _ _ _ Hres).
Qed.

Lemma find_best_clips_best_first_witness :
  (similarity (fixed_encoder (str "yes")) opposite_clip
   <= similarity (fixed_encoder (str "yes")) (agreeing_clip "b_0000.wav"))%R.
Proof.
  apply (find_best_clips_best_first fixed_encoder (str "yes")
           [opposite_clip; agreeing_clip "b_0000.wav"] 1 (Some 0%R)
           (agreeing_clip "b_0000.wav") []).
  - lia.
  - repeat constructor.
  - unfold find_best_clips, fixed_encoder.
    cbn [score_clips embedding agreeing_clip opposite_clip].
    rewrite cosine_similarity_opposite, cosine_similarity_agreeing.
    cbn [sort_desc fold_right insert_desc fst].
    rewrite (proj2 (Rleb_false 1 (-1))) by lra.
    cbn [List.filter fst insert_desc].
    rewrite (proj2 (Rleb_true 0 1)) by lra.
    rewrite (proj2 (Rleb_false 0 (-1))) by lra.
    reflexivity.
  - left; reflexivity.
Defined.

(** ** Beat splitting *)

Lemma split_go_no_terminator (fuel : nat) :
  forall (cur : cursor) (acc : pystr),
    (remaining cur < fuel)%nat ->
    Forall (fun c => is_terminator c = false) acc ->
    Forall (Forall (fun c => is_terminator c = false))
      (split_go split_regex fuel cur acc).
Proof.
  induction fuel as [|f IH]; intros cur acc Hfuel Hacc; [lia|].
  cbn [split_go].
  assert (Hrev : Forall (fun c => is_terminator c = false) (rev acc)).
  { apply Forall_forall. intros c Hc. apply in_rev in Hc.
    rewrite Forall_forall in Hacc. apply Hacc, Hc. }
  destruct (first_match split_regex cur) as [cur'|] eqn:E.
  - constructor; [exact Hrev|].
    apply IH; [|constructor].
    apply first_match_progress in E. lia.
  - destruct cur as [prev [|c t]]; cbn [snd].
    + constructor; [exact Hrev | constructor].
    + apply IH; [unfold remaining in *; simpl in *; lia|].
      constructor; [|exact Hacc].
      rewrite (first_match_consuming _ _ split_regex_consuming) in E.
      unfold split_regex in E. cbn [rmatch one_of snd] in E.
      fold (is_terminator c) in E.
      destruct (is_terminator c); [discriminate E | reflexivity].
Qed.

(** X6.  Unless the fallback applies, no beat contains a sentence
    terminator. *)
Theorem split_semantic_beats_no_terminator (text : pystr) :
  beats_of text <> [] ->
  Forall (Forall (fun c => is_terminator c = false))
    (split_semantic_beats text).
Proof.
  intros Hne. unfold split_semantic_beats.
  destruct (beats_of text) as [|b bs] eqn:E; [contradiction|].
  rewrite <- E. unfold beats_of.
  apply Forall_forall. intros x Hx. apply in_map_iff in Hx.
  destruct Hx as [p [<- Hp]]. apply filter_In in Hp. destruct Hp as [Hp _].
  assert (Hpiece : Forall (fun c => is_terminator c = false) p).
  { assert (H : Forall (Forall (fun c => is_terminator c = false))
                  (re_split split_regex text)).
    { apply split_go_no_terminator;
        [unfold remaining; simpl; lia | constructor]. }
    rewrite Forall_forall in H. apply H, Hp. }
  destruct (strip_infix p) as [pre [post Hps]].
  rewrite Hps in Hpiece.
  apply Forall_app in Hpiece. destruct Hpiece as [_ Hpiece].
  apply Forall_app in Hpiece. destruct Hpiece as [Hpiece _]. exact Hpiece.
Qed.

Lemma split_semantic_beats_no_terminator_witness :
  Forall (Forall (fun c => is_terminator c = false))
    (split_semantic_beats (str "Wait! What; no.")).
Proof.
  apply split_semantic_beats_no_terminator. vm_compute. discriminate.
Defined.

(** ** Hallucination detection *)

Section DetectorFacts.
Variable uni_alnum : N -> bool.

(** X7.  Very long transcripts are always flagged. *)
Theorem is_whisper_hallucination_long (text : pystr) :
  (500 < List.length text)%nat ->
  is_whisper_hallucination uni_alnum text = true.
Proof.
  intros Hlen. unfold is_whisper_hallucination.
  destruct text as [|c t]; [simpl in Hlen; lia|].
  cbn [nonempty negb orb].
  destruct (List.length (c :: t) <? 50)%nat eqn:E;
    [apply Nat.ltb_lt in E; lia|].
  destruct (existsb _ _); [reflexivity|].
  destruct (existsb _ _); [reflexivity|].
  apply Nat.ltb_lt in Hlen. rewrite Hlen. reflexivity.
Qed.

Lemma rmatch_seq_of_cons (r : regex) (rs : list regex) (cur : cursor) :
  rmatch (seq_of (r :: rs)) cur
  = flat_map (rmatch (seq_of rs)) (rmatch r cur).
Proof.
  destruct rs as [|r2 rs]; [|reflexivity].
  cbn [seq_of rmatch]. induction (rmatch r cur) as [|c l IH];
    [reflexivity|]. simpl. rewrite <- IH. reflexivity.
Qed.

(** The test of [chr_ci]. *)
Definition ci_match (x c : N) : bool :=
  ((unicode_tolower c =? x) || ((x =? 115) && (c =? 383))
   || ((x =? 105) && (c =? 305)))%N.

Lemma lit_ci_match (s m : pystr) (prev : option N) (post : pystr) :
  Forall2 (fun x c => ci_match x c = true) s m ->
  exists prev', rmatch (seq_of (List.map chr_ci s)) (prev, m ++ post)
                = [(prev', post)].
Proof.
  intros H; revert prev; induction H as [|x c s m Hxc Hsm IH]; intros prev.
  - exists prev; reflexivity.
  - cbn [List.map]. rewrite rmatch_seq_of_cons.
    cbn [rmatch chr_ci snd app]. fold (ci_match x c). rewrite Hxc.
    cbn [flat_map]. rewrite app_nil_r. apply IH.
Qed.

Lemma ascii_lower_ci_match (x c : N) :
  (x < 128)%N -> ascii_lower c = x -> ci_match x c = true.
Proof.
  intros Hx Hc. unfold ci_match, unicode_tolower. unfold ascii_lower in Hc.
  destruct ((65 <=? c) && (c <=? 90))%N eqn:E.
  - subst x. rewrite N.eqb_refl. reflexivity.
  - subst x.
    destruct (c =? 304)%N eqn:E1; [apply N.eqb_eq in E1; lia|].
    destruct (c =? 8490)%N eqn:E2; [apply N.eqb_eq in E2; lia|].
    rewrite N.eqb_refl. reflexivity.
Qed.

Lemma ascii_lower_Forall2 (m : pystr) :
  Forall (fun x => (x < 128)%N) (List.map ascii_lower m) ->
  Forall2 (fun x c => ci_match x c = true) (List.map ascii_lower m) m.
Proof.
  induction m as [|c m IH]; intros H; [constructor|].
  inversion H as [|x l Hc Hm]; subst.
  constructor; [apply ascii_lower_ci_match; auto | apply IH; exact Hm].
Qed.

Lemma search_from_app (r : regex) (pre t : pystr) :
  (forall prev, rmatch r (prev, t) <> []) ->
  forall prev, search_from r prev (pre ++ t) = true.
Proof.
  intros H. induction pre as [|c pre IH]; intros prev.
  - simpl. specialize (H prev).
    destruct t; simpl; destruct (rmatch r _); try reflexivity;
      contradiction.
  - cbn [app search_from].
    destruct (rmatch r _); [apply IH | reflexivity].
Qed.

(** X8.  A text of 50 characters or more that contains a stock outro, in
    any mix of upper and lower case, is flagged. *)
Theorem is_whisper_hallucination_outro_phrase (text pre m post : pystr)
  (phrase : string) :
  In phrase outro_phrases ->
  text = pre ++ m ++ post ->
  List.map ascii_lower m = str phrase ->
  (50 <= List.length text)%nat ->
  is_whisper_hallucination uni_alnum text = true.
Proof.
  intros Hin Htext Hm Hlen. unfold is_whisper_hallucination.
  destruct text as [|c0 t0] eqn:Et; [simpl in Hlen; lia|].
  cbn [nonempty negb orb].
  destruct (List.length (c0 :: t0) <? 50)%nat eqn:E;
    [apply Nat.ltb_lt in E; lia|].
  assert (Hs : search (lit_ci phrase) (c0 :: t0) = true).
  { rewrite Htext. unfold search. apply search_from_app. intros prev.
    assert (H2 : Forall2 (fun x c => ci_match x c = true) (str phrase) m).
    { rewrite <- Hm. apply ascii_lower_Forall2.
      rewrite Hm. destruct Hin as [<-|[<-|[<-|[]]]]; repeat constructor. }
    destruct (lit_ci_match _ _ prev post H2) as [prev' Hr].
    unfold lit_ci. intros Hnil.
    pose proof (eq_trans (eq_sym Hr) Hnil) as Habs. discriminate Habs. }
  assert (Hex : existsb (fun pattern => search pattern (c0 :: t0))
                  (_HALLUCINATION_PATTERNS uni_alnum) = true).
  { apply existsb_exists. exists (lit_ci phrase). split; [|exact Hs].
    unfold _HALLUCINATION_PATTERNS.
    destruct Hin as [<-|[<-|[<-|[]]]]; simpl; tauto. }
  rewrite Hex. reflexivity.
Qed.

Lemma slice_app_middle {A : Type} (pre mid post : list A) :
  slice (pre ++ mid ++ post) (List.length pre)
    (List.length pre + List.length mid) = mid.
Proof.
  unfold slice.
  replace (List.length pre + List.length mid - List.length pre)%nat
    with (List.length mid) by lia.
  rewrite skipn_app, skipn_all, Nat.sub_diag, skipn_O, app_nil_l.
  rewrite firstn_app, firstn_all, Nat.sub_diag, firstn_O.
  apply app_nil_r.
Qed.

(** X9.  A text of 50 characters or more in which a chunk of 8 to 30
    characters occurs three times in a row, with at least one more
    character after it, is flagged. *)
Theorem is_whisper_hallucination_triple (text pre chunk post : pystr) :
  text = pre ++ chunk ++ chunk ++ chunk ++ post ->
  (8 <= List.length chunk <= 30)%nat ->
  post <> [] ->
  (50 <= List.length text)%nat ->
  is_whisper_hallucination uni_alnum text = true.
Proof.
  intros Htext HL Hpost Hlen. unfold is_whisper_hallucination.
  destruct text as [|c0 t0] eqn:Et; [simpl in Hlen; lia|].
  cbn [nonempty negb orb].
  destruct (List.length (c0 :: t0) <? 50)%nat eqn:E;
    [apply Nat.ltb_lt in E; lia|].
  destruct (existsb _ (_HALLUCINATION_PATTERNS uni_alnum));
    [reflexivity|].
  set (L := List.length chunk) in *. set (i := List.length pre).
  assert (Hrep : repeats_thrice (c0 :: t0) L i = true).
  { unfold repeats_thrice. rewrite Htext.
    assert (H1 : slice (pre ++ chunk ++ chunk ++ chunk ++ post) i (i + L)
                 = chunk) by apply slice_app_middle.
    assert (H2 : slice (pre ++ chunk ++ chunk ++ chunk ++ post) (i + L)
                   (i + L * 2) = chunk).
    { replace (pre ++ chunk ++ chunk ++ chunk ++ post)
        with ((pre ++ chunk) ++ chunk ++ chunk ++ post)
        by (rewrite <- app_assoc; reflexivity).
      replace (i + L)%nat with (List.length (pre ++ chunk))
        by (rewrite length_app; reflexivity).
      replace (i + L * 2)%nat
        with (List.length (pre ++ chunk) + List.length chunk)%nat
        by (rewrite length_app; unfold i, L; lia).
      apply slice_app_middle. }
    assert (H3 : slice (pre ++ chunk ++ chunk ++ chunk ++ post) (i + L * 2)
                   (i + L * 3) = chunk).
    { replace (pre ++ chunk ++ chunk ++ chunk ++ post)
        with ((pre ++ chunk ++ chunk) ++ chunk ++ post)
        by (repeat rewrite <- app_assoc; reflexivity).
      replace (i + L * 2)%nat with (List.length (pre ++ chunk ++ chunk))
        by (rewrite !length_app; unfold i, L; lia).
      replace (i + L * 3)%nat
        with (List.length (pre ++ chunk ++ chunk) + List.length chunk)%nat
        by (rewrite !length_app; unfold i, L; lia).
      apply slice_app_middle. }
    rewrite H1, H2, H3.
    rewrite (proj2 (pystr_eqb_eq chunk chunk) eq_refl). reflexivity. }
  assert (Hex : existsb
                  (fun length =>
                     existsb (repeats_thrice (c0 :: t0) length)
                       (seq 0 (List.length (c0 :: t0) - length * 3)))
                  (seq 8 23) = true).
  { apply existsb_exists. exists L. split; [apply in_seq; lia|].
    apply existsb_exists. exists i. split; [|exact Hrep].
    apply in_seq. rewrite Htext, !length_app.
    destruct post; [contradiction|]. simpl. unfold i, L. lia. }
  rewrite Hex. reflexivity.
Qed.

End DetectorFacts.

Lemma is_whisper_hallucination_outro_phrase_witness :
  is_whisper_hallucination ascii_only
    (str "Thanks for watching and Please SUBSCRIBE to my channel") = true.
Proof.
  apply (is_whisper_hallucination_outro_phrase ascii_only _
           (str "Thanks for watching and ") (str "Please SUBSCRIBE")
           (str " to my channel") "please subscribe").
  - left; reflexivity.
  - reflexivity.
  - reflexivity.
  - simpl; lia.
Defined.

Lemma is_whisper_hallucination_triple_witness :
  is_whisper_hallucination ascii_only
    (str "so I said go away, go away, go away, and that was the end of it")
  = true.
Proof.
  apply (is_whisper_hallucination_triple ascii_only _
           (str "so I said") (str " go away,") (str " and that was the end of it")).
  - reflexivity.
  - simpl; lia.
  - discriminate.
  - simpl; lia.
Defined.

Lemma is_whisper_hallucination_long_witness :
  is_whisper_hallucination ascii_only (repeat 120%N 501) = true.
Proof.
  apply is_whisper_hallucination_long. rewrite repeat_length. lia.
Defined.

(** ** The message log *)

(** The cursors after a greedy run of [p]: the longest first. *)
Fixpoint runs (p : N -> bool) (prev : option N) (t : pystr) : list cursor :=
  match t with
  | c :: t' =>
      if p c then runs p (Some c) t' ++ [(prev, t)] else [(prev, t)]
  | [] => [(prev, [])]
  end.

Lemma star_chr_runs (p : N -> bool) (t : pystr) :
  forall (prev : option N) (fuel : nat),
    (List.length t < fuel)%nat ->
    star_iter (rmatch (Chr p)) fuel (prev, t) = runs p prev t.
Proof.
  induction t as [|c t IH]; intros prev fuel Hf;
    (destruct fuel as [|f]; [simpl in Hf; lia|]).
  - reflexivity.
  - cbn [star_iter rmatch snd runs]. destruct (p c); [|reflexivity].
    cbn [flat_map]. unfold remaining at 1 2. cbn [snd List.length].
    rewrite (proj2 (Nat.ltb_lt _ _) (Nat.lt_succ_diag_r _)).
    rewrite app_nil_r. rewrite IH by (simpl in Hf; lia). reflexivity.
Qed.

Lemma rmatch_star_chr (p : N -> bool) (prev : option N) (t : pystr) :
  rmatch (Star (Chr p)) (prev, t) = runs p prev t.
Proof. cbn [rmatch]. apply star_chr_runs. unfold remaining; simpl; lia. Qed.

Lemma rmatch_chr_seq (ps : list (N -> bool)) (m : pystr) :
  Forall2 (fun p c => p c = true) ps m ->
  forall (prev : option N) (rest : pystr),
    exists prev', rmatch (seq_of (List.map Chr ps))
                    (prev, (m ++ rest : pystr))
                  = [(prev', rest)].
Proof.
  induction 1 as [|p c ps m Hpc Hm IH]; intros prev rest.
  - exists prev; reflexivity.
  - cbn [List.map]. rewrite rmatch_seq_of_cons.
    cbn [rmatch snd app]. rewrite Hpc. cbn [flat_map].
    rewrite app_nil_r. apply IH.
Qed.

Lemma rmatch_cat (r1 r2 : regex) (cur : cursor) :
  rmatch (Cat r1 r2) cur = flat_map (rmatch r2) (rmatch r1 cur).
Proof. reflexivity. Qed.

(** The longest run comes first. *)
Lemma runs_head (p : N -> bool) (l ending : pystr) :
  Forall (fun c => p c = true) l ->
  match ending with c :: _ => p c = false | [] => True end ->
  forall prev, exists prev' tl, runs p prev (l ++ ending)
                                = (prev', ending) :: tl.
Proof.
  intros Hl He. induction Hl as [|c l Hc Hl IH]; intros prev.
  - destruct ending as [|e ending]; simpl.
    + exists prev, []; reflexivity.
    + rewrite He. exists prev, []; reflexivity.
  - cbn [app runs]. rewrite Hc.
    destruct (IH (Some c)) as [prev' [tl Htl]]. rewrite Htl.
    exists prev', (tl ++ [(prev, c :: l ++ ending)]). reflexivity.
Qed.

Definition line_ending (ending : pystr) : Prop :=
  ending = [] \/ ending = [10%N].

Lemma group_at_body (prev : option N) (body ending : pystr) :
  body <> [] -> Forall (fun c => c <> 10%N) body -> line_ending ending ->
  group_at (prev, body ++ ending) = [body].
Proof.
  intros Hne Hnl He. unfold group_at.
  destruct body as [|c body]; [contradiction|].
  inversion Hnl as [|c0 l0 Hc Hbody]; subst.
  unfold plus. cbn [rmatch snd app].
  assert (Hcn : not_newline c = true).
  { unfold not_newline. apply negb_true_iff, N.eqb_neq; exact Hc. }
  rewrite Hcn. cbn [flat_map]. rewrite app_nil_r.
  fold (rmatch (Star (Chr not_newline)) (Some c, body ++ ending)).
  rewrite rmatch_star_chr.
  destruct (runs_head not_newline body ending) with (prev := Some c)
    as [prev' [tl Htl]].
  - eapply Forall_impl; [|exact Hbody]. intros x Hx.
    unfold not_newline. apply negb_true_iff, N.eqb_neq; exact Hx.
  - destruct He as [-> | ->]; [exact I | reflexivity].
  - rewrite Htl. unfold remaining. cbn [snd List.length].
    rewrite length_app.
    replace (S (List.length body + List.length ending)
             - List.length ending)%nat
      with (List.length (c :: body)) by (simpl; lia).
    change (c :: body ++ ending) with ((c :: body) ++ ending).
    rewrite firstn_app, firstn_all, Nat.sub_diag, firstn_O, app_nil_r.
    reflexivity.
Qed.

Lemma group_at_ending (prev : option N) (ending : pystr) :
  line_ending ending -> group_at (prev, ending) = [].
Proof. intros [-> | ->]; reflexivity. Qed.

Lemma strip_space_cons (c : N) (t : pystr) :
  is_space c = true -> strip (c :: t) = strip t.
Proof. intros Hc. unfold strip. simpl. rewrite Hc. reflexivity. Qed.

(** What the spaces and the group capture on the rest of a line. *)
Lemma groups_after_spaces (body ending : pystr) :
  Forall (fun c => c <> 10%N) body -> line_ending ending ->
  forall prev,
    match body with
    | [] => flat_map group_at (runs is_space prev (body ++ ending)) = []
    | _ :: _ =>
        exists g tl,
          flat_map group_at (runs is_space prev (body ++ ending)) = g :: tl /\
          strip g = strip body
    end.
Proof.
  intros Hnl He. induction Hnl as [|c body Hc Hbody IH]; intros prev.
  - destruct He as [-> | ->]; reflexivity.
  - cbn [app runs]. destruct (is_space c) eqn:Hs.
    + rewrite flat_map_app. cbn [flat_map]. rewrite app_nil_r.
      specialize (IH (Some c)).
      destruct body as [|c2 body].
      * rewrite IH. cbn [app].
        exists [c], []. split; [|reflexivity].
        apply (group_at_body prev [c] ending);
          [discriminate | constructor; assumption | exact He].
      * destruct IH as [g [tl [Hg Hst]]]. rewrite Hg.
        eexists g, _. split; [reflexivity|].
        rewrite Hst. symmetry. apply strip_space_cons; exact Hs.
    + cbn [flat_map]. rewrite app_nil_r.
      exists (c :: body), []. split; [|reflexivity].
      apply (group_at_body prev (c :: body) ending);
        [discriminate | constructor; assumption | exact He].
Qed.

Section LogFacts.
Variable uni_digit : N -> bool.

(** X10.  A log line that is a timestamp [[HH:MM:SS]] followed by a body
    yields the body, trimmed, as its message; a timestamp with nothing
    after it yields no message. *)
Theorem message_of_line_timestamped (d1 d2 d3 d4 d5 d6 : N)
  (body ending : pystr) :
  Forall (fun d => is_digit uni_digit d = true) [d1; d2; d3; d4; d5; d6] ->
  Forall (fun c => c <> 10%N) body ->
  line_ending ending ->
  message_of_line uni_digit
    ([91; d1; d2; 58; d3; d4; 58; d5; d6; 93]%N ++ body ++ ending)
  = match body with
    | [] => None
    | _ :: _ => Some (strip body)
    end.
Proof.
  intros Hd Hnl He. unfold message_of_line, match_group.
  rewrite rmatch_cat. unfold timestamp.
  assert (H2 : Forall2 (fun p c => p c = true)
                 [ N.eqb 91; is_digit uni_digit; is_digit uni_digit;
                   N.eqb 58; is_digit uni_digit; is_digit uni_digit;
                   N.eqb 58; is_digit uni_digit; is_digit uni_digit;
                   N.eqb 93 ]
                 [91; d1; d2; 58; d3; d4; 58; d5; d6; 93]%N).
  { repeat match goal with
           | H : Forall _ (_ :: _) |- _ => inversion H; clear H; subst
           end.
    repeat constructor; assumption. }
  destruct (rmatch_chr_seq _ _ H2 None (body ++ ending)) as [prev' Hr].
  rewrite Hr. cbn [flat_map]. rewrite app_nil_r.
  unfold ws. rewrite rmatch_star_chr.
  pose proof (groups_after_spaces body ending Hnl He prev') as Hg.
  destruct body as [|c body].
  - rewrite Hg. reflexivity.
  - destruct Hg as [g [tl [Hg Hst]]]. rewrite Hg. cbn [hd_error].
    rewrite Hst. reflexivity.
Qed.

(** Every message read from the log is trimmed. *)
Lemma read_new_messages_trimmed (log : option (list pystr * nat))
  (last_pos : nat) :
  Forall (fun m => strip m = m) (fst (read_new_messages uni_digit log last_pos)).
Proof.
  unfold read_new_messages. destruct log as [[lines end_pos]|];
    [|constructor].
  cbn [fst]. apply Forall_forall. intros m Hm.
  apply in_flat_map in Hm. destruct Hm as [line [_ Hm]].
  unfold message_of_line in Hm.
  destruct (match_group uni_digit line) as [g|]; [|destruct Hm].
  destruct Hm as [<-|[]]. apply strip_idem.
Qed.

End LogFacts.

Lemma message_of_line_timestamped_witness :
  message_of_line ascii_digits (str "[12:34:56]   hello there  " ++ [10%N])
  = Some (str "hello there").
Proof.
  apply (message_of_line_timestamped ascii_digits 49 50 51 52 53 54
           (str "   hello there  ") [10%N]).
  - repeat constructor.
  - repeat constructor; discriminate.
  - right; reflexivity.
Defined.

(** ** The transcript length filter *)

(** X11.  A transcript without an ASCII character, whatever its length, is
    too short: only ASCII letters and digits count. *)
Theorem is_transcript_too_short_other_script (text : pystr) :
  Forall (fun c => (128 <= c)%N) text ->
  is_transcript_too_short text = true.
Proof.
  intros H. unfold is_transcript_too_short.
  assert (E : List.filter ascii_alnum text = []).
  { induction H as [|c text Hc Ht IH]; [reflexivity|].
    cbn [List.filter]. rewrite IH.
    assert (Hn : ascii_alnum c = false).
    { unfold ascii_alnum.
      rewrite (proj2 (N.leb_gt c 57)), (proj2 (N.leb_gt c 90)),
        (proj2 (N.leb_gt c 122)) by lia.
      rewrite !andb_false_r. reflexivity. }
    rewrite Hn. reflexivity. }
  rewrite E. reflexivity.
Qed.

Lemma is_transcript_too_short_other_script_witness :
  is_transcript_too_short [1087; 1088; 1080; 1074; 1077; 1090]%N = true.
Proof.
  apply (is_transcript_too_short_other_script
           [1087; 1088; 1080; 1074; 1077; 1090]%N).
  repeat constructor; lia.
Defined.

End UtilsMore.

(** * More of [clip_parser.py] *)

Module ClipParserMore.
Import PyStr Catalog ClipParser.
Local Open Scope Q_scope.

(** ** Definitions *)

(** [" ".join(w["word"].strip() for w in group)] *)
Definition words_text (group : list word) : pystr :=
  join (str " ") (List.map (fun w => strip (w_word w)) group).

(** The body of the inner loop of [create_phrase_clips]: what the
    window [words[i:i + n]] adds to [phrases].  The window is never
    empty, for [1 <= n] and [i + n <= len(words)].  The duration is
    taken exactly where the code rounds it to a float, and a float is
    below the float [0.2] exactly when it is below one fifth. *)
Definition phrase_at (words : list word) (n i : nat) : list segment :=
  let group := slice words i (i + n) in
  match group with
  | [] => []
  | g0 :: _ =>
      let text := words_text group in
      let dur := last_end group - w_start g0 in
      if (n =? 1)%nat && negb (Qle_bool (2 # 10) dur) then []
      else if (List.length (strip text) <? 2)%nat then []
      else [ {| seg_start := w_start g0;
                seg_end := last_end group;
                seg_text := text;
                seg_words := [] |} ]
  end.

(** [create_phrase_clips(segment, phrase_size)]: [range(1, phrase_size + 1)]
    is empty for [phrase_size <= 0], and [range(len(words) - n + 1)]
    for [len(words) + 1 <= n]. *)
Definition create_phrase_clips (seg : segment) (phrase_size : Z)
  : list segment :=
  let words := seg_words seg in
  match words with
  | [] => []
  | _ :: _ =>
      flat_map
        (fun n =>
           flat_map (phrase_at words n) (seq 0 (List.length words + 1 - n)))
        (seq 1 (Z.to_nat phrase_size))
  end.

(** [config.MAX_PHRASE_WORDS] *)
Definition MAX_PHRASE_WORDS : Z := 4.

(** The key of the deduplication pass. *)
Definition dedupe_key (lower : pystr -> pystr) (c : clip) : pystr * pystr :=
  (source_file c, strip (lower (text c))).

Section Filename.

(** [str.isalnum] above the ASCII range. *)
Variable uni_alnum : N -> bool.

(** [c.isalnum()] of one character *)
Definition isalnum (c : N) : bool :=
  if (c <? 128)%N then
    (((48 <=? c) && (c <=? 57)) || ((65 <=? c) && (c <=? 90))
     || ((97 <=? c) && (c <=? 122)))%N
  else uni_alnum c.

(** [c.isalnum() or c in "-_ "] *)
Definition allowed (c : N) : bool :=
  isalnum c || existsb (N.eqb c) (str "-_ ").

(** [safe_filename(name)] *)
Definition safe_filename (name : pystr) : pystr :=
  strip (List.map (fun c => if allowed c then c else 95%N) name).

End Filename.

(** Three words of a quarter second each, an eighth apart. *)
Definition three_words : segment :=
  {| seg_start := 0; seg_end := 1; seg_text := str " oh yeah sure";
     seg_words := [ mk_word (str " oh") 0 (1 # 4);
                    mk_word (str " yeah") (3 # 8) (5 # 8);
                    mk_word (str " sure") (3 # 4) 1 ] |}.

(** The floats written [8.1], [16.1], [0.1] and [0.3], at their exact
    values. *)
Definition float_8_1 : Q := 4559894622712627 # 562949953421312.
Definition float_16_1 : Q := 2265873562520781 # 140737488355328.
Definition float_0_1 : Q := 3602879701896397 # 36028797018963968.
Definition float_0_3 : Q := 5404319552844595 # 18014398509481984.

(** Two words that span [8.1] to [16.1]. *)
Definition tight_words : segment :=
  {| seg_start := float_8_1; seg_end := float_16_1;
     seg_text := str " so long";
     seg_words := [ mk_word (str " so") float_8_1 9;
                    mk_word (str " long") 9 float_16_1 ] |}.

(** One word from [0.1] to [0.3]. *)
Definition brief_word : segment :=
  {| seg_start := float_0_1; seg_end := float_0_3; seg_text := str " hey";
     seg_words := [ mk_word (str " hey") float_0_1 float_0_3 ] |}.

(** ** Facts about the splitter *)

Lemma join_app (sep : pystr) (a b : list pystr) :
  a <> [] -> b <> [] ->
  join sep (a ++ b) = join sep a ++ sep ++ join sep b.
Proof.
  intros Ha Hb. induction a as [|x a IH]; [contradiction|].
  destruct a as [|y a].
  - destruct b as [|z b]; [contradiction|]. reflexivity.
  - change (join sep ((x :: y :: a) ++ b))
      with (x ++ sep ++ join sep ((y :: a) ++ b)).
    rewrite IH by discriminate.
    change (join sep (x :: y :: a)) with (x ++ sep ++ join sep (y :: a)).
    rewrite <- !app_assoc. reflexivity.
Qed.

Lemma words_text_app (a b : list word) :
  a <> [] -> b <> [] ->
  words_text (a ++ b) = words_text a ++ str " " ++ words_text b.
Proof.
  intros Ha Hb. unfold words_text. rewrite map_app.
  apply join_app; destruct a, b; try contradiction; discriminate.
Qed.

Lemma chunk_segment_text (c : list word) :
  seg_text (chunk_segment c) = words_text c.
Proof. destruct c; reflexivity. Qed.

(** Joining the texts of runs joins the words. *)
Lemma join_chunk_texts (chunks : list (list word)) :
  Forall (fun c => c <> []) chunks ->
  join (str " ") (List.map seg_text (List.map chunk_segment chunks))
  = words_text (List.concat chunks).
Proof.
  induction 1 as [|c chunks Hc Hne IH]; [reflexivity|].
  destruct chunks as [|c2 chunks].
  - simpl. rewrite app_nil_r. apply chunk_segment_text.
  - change (List.concat (c :: c2 :: chunks))
      with (c ++ List.concat (c2 :: chunks)).
    rewrite words_text_app.
    + rewrite <- IH, <- chunk_segment_text. reflexivity.
    + exact Hc.
    + inversion Hne as [|x l Hc2 _]; subst.
      destruct c2; [contradiction|]. discriminate.
Qed.

(** The sub-segments as runs of the words (the loop invariant at the
    end of the loop). *)
Lemma split_segment_by_words_runs (seg : segment) (max_dur : Q) :
  seg_words seg <> [] ->
  exists chunks : list (list word),
    split_segment_by_words seg max_dur = List.map chunk_segment chunks /\
    List.concat chunks = seg_words seg /\
    Forall (fun c => c <> []) chunks /\
    Forall (bounded max_dur) chunks.
Proof.
  intros Hw. unfold split_segment_by_words.
  destruct (seg_words seg) as [|w0 ws] eqn:Ews; [contradiction|].
  destruct (split_loop_inv max_dur w0 ws)
    as [chunks [w [cur [Hst [Hcat [Hne [Hbd Hcur]]]]]]].
  rewrite Hst. cbn [nonempty_words].
  exists (chunks ++ [w :: cur]).
  split; [rewrite map_app; reflexivity|].
  split; [rewrite concat_app; simpl; rewrite app_nil_r; exact Hcat|].
  split; apply Forall_app; split; try assumption;
    constructor; try constructor; [discriminate | exact Hcur].
Qed.

(** X12.  No word is lost, repeated or reordered by the splitter: the texts
    of the sub-segments, joined by single spaces, are the trimmed words
    of the segment joined by single spaces. *)
Theorem split_segment_by_words_text (seg : segment) (max_dur : Q) :
  seg_words seg <> [] ->
  join (str " ") (List.map seg_text (split_segment_by_words seg max_dur))
  = words_text (seg_words seg).
Proof.
  intros Hw.
  destruct (split_segment_by_words_runs seg max_dur Hw)
    as [chunks [-> [<- [Hne _]]]].
  apply join_chunk_texts; exact Hne.
Qed.

Lemma split_segment_by_words_text_witness :
  join (str " ") (List.map seg_text (split_segment_by_words two_words 5))
  = words_text (seg_words two_words).
Proof.
  apply (split_segment_by_words_text two_words 5). discriminate.
Defined.



Lemma split_loop_fits (max_dur : Q) (ws : list word) :
  forall (subs : list segment) (cur : list word) (chunk_start : Q),
    Forall (fun w => w_end w - chunk_start <= max_dur) ws ->
    fold_left (split_step max_dur) ws (subs, cur, chunk_start)
    = (subs, cur ++ ws, chunk_start).
Proof.
  induction ws as [|w ws IH]; intros subs cur chunk_start Hfit.
  - rewrite app_nil_r. reflexivity.
  - inversion Hfit as [|w' l Hw Hws]; subst.
    cbn [fold_left split_step].
    rewrite (proj2 (Qle_bool_iff _ _) Hw). cbn [negb].
    rewrite andb_false_r. rewrite IH by exact Hws.
    rewrite <- app_assoc. reflexivity.
Qed.

(** X14.  A segment all of whose words end within [max_dur] of the start of
    the first one, the timings taken at the exact values of the
    floats, comes back as one sub-segment, timed by its first and
    last word and with the text rebuilt from the words. *)
Theorem split_segment_by_words_whole (seg : segment) (max_dur : Q)
  (w0 : word) (ws : list word) :
  seg_words seg = w0 :: ws ->
  Forall (fun w => w_end w - w_start w0 <= max_dur) (seg_words seg) ->
  split_segment_by_words seg max_dur
  = [ {| seg_start := w_start w0;
         seg_end := last_end (seg_words seg);
         seg_text := words_text (seg_words seg);
         seg_words := [] |} ].
Proof.
  intros Ews Hfit. unfold split_segment_by_words. rewrite Ews in *.
  rewrite split_loop_fits by exact Hfit. reflexivity.
Qed.

Lemma split_segment_by_words_whole_witness :
  split_segment_by_words three_words 1
  = [ {| seg_start := 0;
         seg_end := 1;
         seg_text := str "oh yeah sure";
         seg_words := [] |} ].
Proof.
  apply (split_segment_by_words_whole three_words 1
           (mk_word (str " oh") 0 (1 # 4))
           [ mk_word (str " yeah") (3 # 8) (5 # 8);
             mk_word (str " sure") (3 # 4) 1 ]).
  - reflexivity.
  - repeat constructor; vm_compute; discriminate.
Defined.

(** The floats [8.1] and [16.1] are more than 8 apart, by the rounding
    of the two literals, so with [max_dur = 8.0] the segment is cut. *)
Example split_segment_by_words_tight :
  ~ (float_16_1 - float_8_1 <= 8) /\
  split_segment_by_words tight_words 8
  = [ mk_segment float_8_1 9 (str "so") [];
      mk_segment 9 float_16_1 (str "long") [] ].
Proof.
  split; [|reflexivity]. intros H. apply H. reflexivity.
Qed.

(** ** Facts about the phrase clips *)

(** What one window adds. *)
Lemma phrase_at_chunk (words : list word) (n i : nat) (p : segment) :
  In p (phrase_at words n i) <->
  exists (g0 : word) (group : list word),
    slice words i (i + n) = g0 :: group /\
    p = chunk_segment (g0 :: group) /\
    (n = 1%nat -> 2 # 10 <= seg_end p - seg_start p) /\
    (2 <= List.length (strip (seg_text p)))%nat.
Proof.
  unfold phrase_at. split.
  - intros Hp.
    destruct (slice words i (i + n)) as [|g0 group] eqn:Eg; [destruct Hp|].
    destruct ((n =? 1)%nat
              && negb (Qle_bool (2 # 10)
                         (last_end (g0 :: group) - w_start g0)))
      eqn:E1; [destruct Hp|].
    destruct (List.length (strip (words_text (g0 :: group))) <? 2)%nat
      eqn:E2; [destruct Hp|].
    destruct Hp as [<-|[]].
    exists g0, group.
    split; [reflexivity|]. split; [reflexivity|]. split.
    + intros ->. cbn [seg_end seg_start]. simpl in E1.
      apply negb_false_iff in E1. apply Qle_bool_iff; exact E1.
    + cbn [seg_text]. apply Nat.ltb_ge in E2; exact E2.
  - intros [g0 [group [Eg [-> [Hdur Htext]]]]]. rewrite Eg.
    cbn [chunk_segment close_chunk seg_end seg_start seg_text]
      in Hdur, Htext.
    fold (words_text (g0 :: group)) in Htext.
    assert (E1 : (n =? 1)%nat
                 && negb (Qle_bool (2 # 10)
                            (last_end (g0 :: group) - w_start g0))
                 = false).
    { destruct (n =? 1)%nat eqn:En; [|reflexivity].
      apply Nat.eqb_eq in En. simpl.
      apply negb_false_iff, Qle_bool_iff, Hdur, En. }
    rewrite E1.
    rewrite (proj2 (Nat.ltb_ge _ _) Htext).
    left; reflexivity.
Qed.

(** X15.  Every phrase clip is a window of one to [phrase_size]
    consecutive words, timed by its first and last word, whose text
    has two characters at least after trimming.  Conversely such a
    window is a phrase clip when it has two words or more (the
    duration filter applies to single words only), and also when it
    is a single word whose end minus start, taken exactly, is a fifth
    of a second or more. *)
Theorem create_phrase_clips_windows (seg : segment) (phrase_size : Z) :
  (forall p : segment,
      In p (create_phrase_clips seg phrase_size) ->
      exists (n i : nat) (g0 : word) (group : list word),
        (1 <= n)%nat /\ (Z.of_nat n <= phrase_size)%Z /\
        (i + n <= List.length (seg_words seg))%nat /\
        slice (seg_words seg) i (i + n) = g0 :: group /\
        p = chunk_segment (g0 :: group) /\
        (2 <= List.length (strip (seg_text p)))%nat) /\
  (forall (n i : nat) (g0 : word) (group : list word),
      (1 <= n)%nat -> (Z.of_nat n <= phrase_size)%Z ->
      (i + n <= List.length (seg_words seg))%nat ->
      slice (seg_words seg) i (i + n) = g0 :: group ->
      (2 <= List.length (strip (words_text (g0 :: group))))%nat ->
      (n = 1%nat -> 2 # 10 <= w_end g0 - w_start g0) ->
      In (chunk_segment (g0 :: group))
        (create_phrase_clips seg phrase_size)).
Proof.
  unfold create_phrase_clips. split.
  - intros p Hp.
    destruct (seg_words seg) as [|w0 ws] eqn:Ews; [destruct Hp|].
    set (words := w0 :: ws) in *.
    apply in_flat_map in Hp. destruct Hp as [n [Hn Hp]].
    apply in_flat_map in Hp. destruct Hp as [i [Hi Hp]].
    apply in_seq in Hn. apply in_seq in Hi.
    apply phrase_at_chunk in Hp.
    destruct Hp as [g0 [group [Eg [Ep [_ Ht]]]]].
    exists n, i, g0, group.
    split; [lia|]. split; [lia|]. split; [lia|].
    split; [exact Eg|]. split; [exact Ep | exact Ht].
  - intros n i g0 group Hn Hk Hi Eg Ht Hdur.
    destruct (seg_words seg) as [|w0 ws] eqn:Ews; [simpl in Hi; lia|].
    set (words := w0 :: ws) in *.
    apply in_flat_map. exists n. split; [apply in_seq; lia|].
    apply in_flat_map. exists i. split; [apply in_seq; lia|].
    apply phrase_at_chunk. exists g0, group.
    split; [exact Eg|]. split; [reflexivity|]. split; [|exact Ht].
    intros En. cbn [chunk_segment close_chunk seg_end seg_start].
    assert (Hg : group = []).
    { subst n. assert (Hlen : (List.length (g0 :: group) <= 1)%nat).
      { rewrite <- Eg. unfold slice. rewrite length_firstn. lia. }
      destruct group; [reflexivity | simpl in Hlen; lia]. }
    subst group. apply Hdur; exact En.
Qed.

Lemma create_phrase_clips_windows_witness :
  In (chunk_segment [ mk_word (str " oh") 0 (1 # 4);
                      mk_word (str " yeah") (3 # 8) (5 # 8) ])
    (create_phrase_clips three_words MAX_PHRASE_WORDS).
Proof.
  apply (proj2 (create_phrase_clips_windows three_words MAX_PHRASE_WORDS)
           2%nat 0%nat).
  - lia.
  - unfold MAX_PHRASE_WORDS; lia.
  - simpl; lia.
  - reflexivity.
  - vm_compute; lia.
  - intros H; discriminate H.
Defined.

(** The floats [0.1] and [0.3] are less than a fifth apart, by the
    rounding of the two literals, so the word is no phrase clip. *)
Example create_phrase_clips_brief :
  ~ (2 # 10 <= float_0_3 - float_0_1) /\
  create_phrase_clips brief_word MAX_PHRASE_WORDS = [].
Proof.
  split; [|reflexivity]. intros H. apply H. reflexivity.
Qed.

(** X16.  Every phrase clip of a segment whose word timings follow one
    another starts no later than it ends. *)
Theorem create_phrase_clips_span (seg : segment) (phrase_size : Z) :
  chained (List.map word_span (seg_words seg)) ->
  Forall (fun p => seg_start p <= seg_end p)
    (create_phrase_clips seg phrase_size).
Proof.
  intros Hch. apply Forall_forall. intros p Hp.
  assert (Hw : exists n i, In p (phrase_at (seg_words seg) n i)).
  { unfold create_phrase_clips in Hp.
    destruct (seg_words seg) as [|w0 ws]; [destruct Hp|].
    apply in_flat_map in Hp. destruct Hp as [n [_ Hp]].
    apply in_flat_map in Hp. destruct Hp as [i [_ Hp]].
    exists n, i; exact Hp. }
  destruct Hw as [n [i Hw]]. apply phrase_at_chunk in Hw.
  destruct Hw as [g0 [group [Eg [-> _]]]].
  cbn [chunk_segment close_chunk seg_start seg_end].
  unfold slice in Eg.
  rewrite <- (firstn_skipn i (seg_words seg)) in Hch.
  rewrite <- (firstn_skipn (i + n - i) (skipn i (seg_words seg))) in Hch.
  rewrite Eg in Hch.
  set (pre := firstn i (seg_words seg)) in Hch.
  clearbody pre. clear Eg.
  induction pre as [|x pre IH].
  - apply (chained_chunk g0 group _ Hch).
  - apply IH. cbn [app List.map chained] in Hch.
    destruct (word_span x). apply Hch.
Qed.

Lemma create_phrase_clips_span_witness :
  Forall (fun p => seg_start p <= seg_end p)
    (create_phrase_clips three_words MAX_PHRASE_WORDS).
Proof.
  apply (create_phrase_clips_span three_words MAX_PHRASE_WORDS).
  vm_compute. repeat split; discriminate.
Defined.

(** ** Facts about the deduplication pass *)

Section DedupeFacts.
Variable lower : pystr -> pystr.

Local Abbreviation key := (dedupe_key lower).

Lemma dedupe_cons (seen : gset (pystr * pystr)) (c : clip)
  (rest : list clip) :
  dedupe lower seen (c :: rest)
  = if bool_decide (key c ∈ seen) then dedupe lower seen rest
    else c :: dedupe lower ({[ key c ]} ∪ seen) rest.
Proof. reflexivity. Qed.

Lemma dedupe_fresh (l : list clip) :
  forall (seen : gset (pystr * pystr)) (c : clip),
    In c (dedupe lower seen l) -> key c ∉ seen.
Proof.
  induction l as [|x l IH]; intros seen c Hc; [destruct Hc|].
  rewrite dedupe_cons in Hc. case_bool_decide as Hx.
  - apply IH; exact Hc.
  - destruct Hc as [<-|Hc]; [exact Hx|].
    apply IH in Hc. set_solver.
Qed.

Lemma dedupe_nodup (l : list clip) :
  forall seen : gset (pystr * pystr),
    List.NoDup (List.map key (dedupe lower seen l)).
Proof.
  induction l as [|x l IH]; intros seen; [constructor|].
  rewrite dedupe_cons. case_bool_decide as Hx; [apply IH|].
  cbn [List.map]. constructor; [|apply IH].
  intros Hin. apply in_map_iff in Hin. destruct Hin as [c [Hk Hc]].
  apply dedupe_fresh in Hc. rewrite Hk in Hc. set_solver.
Qed.

Lemma dedupe_sublist (l : list clip) :
  forall seen : gset (pystr * pystr), sublist (dedupe lower seen l) l.
Proof.
  induction l as [|x l IH]; intros seen; [constructor|].
  rewrite dedupe_cons. case_bool_decide.
  - apply sublist_cons, IH.
  - apply sublist_skip, IH.
Qed.

Lemma dedupe_covers (l : list clip) :
  forall (seen : gset (pystr * pystr)) (c : clip),
    In c l ->
    key c ∈ seen \/
    exists c', In c' (dedupe lower seen l) /\ key c' = key c.
Proof.
  induction l as [|x l IH]; intros seen c Hc; [destruct Hc|].
  rewrite dedupe_cons. case_bool_decide as Hx.
  - destruct Hc as [<-|Hc]; [left; exact Hx|]. apply IH; exact Hc.
  - destruct Hc as [<-|Hc].
    + right. exists x. split; [left|]; reflexivity.
    + destruct (IH ({[ key x ]} ∪ seen) c Hc) as [Hs|[c' [Hc' Hk]]].
      * apply elem_of_union in Hs. destruct Hs as [Hs|Hs]; [|left; exact Hs].
        apply elem_of_singleton in Hs.
        right. exists x. split; [left; reflexivity | symmetry; exact Hs].
      * right. exists c'. split; [right; exact Hc' | exact Hk].
Qed.

(** X17.  After the deduplication pass no two clips share the pair of their
    source file and lowered, trimmed text; the clips kept are in
    their old order; and every clip that went in has a clip of its
    key among those kept. *)
Theorem dedupe_unique_keys (l : list clip) :
  List.NoDup (List.map key (dedupe lower ∅ l)) /\
  sublist (dedupe lower ∅ l) l /\
  forall c : clip,
    In c l -> exists c', In c' (dedupe lower ∅ l) /\ key c' = key c.
Proof.
  split; [apply dedupe_nodup|]. split; [apply dedupe_sublist|].
  intros c Hc. destruct (dedupe_covers l ∅ c Hc) as [Hs|H]; [|exact H].
  set_solver.
Qed.

Lemma dedupe_none_of_key (k : pystr * pystr) (l : list clip) :
  forall seen : gset (pystr * pystr),
    k ∈ seen ->
    List.filter (fun x => bool_decide (key x = k)) (dedupe lower seen l)
    = [].
Proof.
  intros seen Hk.
  destruct (List.filter _ _) as [|x f] eqn:E; [reflexivity|].
  assert (Hx : In x (List.filter (fun x => bool_decide (key x = k))
                       (dedupe lower seen l)))
    by (rewrite E; left; reflexivity).
  apply filter_In in Hx. destruct Hx as [Hx Hkx].
  apply bool_decide_eq_true in Hkx. apply dedupe_fresh in Hx.
  rewrite Hkx in Hx. contradiction.
Qed.

Lemma dedupe_first_of_key (pre : list clip) (c : clip) (post : list clip) :
  forall seen : gset (pystr * pystr),
    key c ∉ seen ->
    (forall c', In c' pre -> key c' <> key c) ->
    List.filter (fun x => bool_decide (key x = key c))
      (dedupe lower seen (pre ++ c :: post))
    = [c].
Proof.
  induction pre as [|x pre IH]; intros seen Hc Hpre.
  - cbn [app]. rewrite dedupe_cons.
    rewrite bool_decide_eq_false_2 by exact Hc.
    cbn [List.filter]. rewrite bool_decide_eq_true_2 by reflexivity.
    f_equal. apply dedupe_none_of_key. set_solver.
  - cbn [app]. rewrite dedupe_cons.
    assert (Hx : key x <> key c) by (apply Hpre; left; reflexivity).
    case_bool_decide as Hs.
    + apply IH; [exact Hc|]. intros c' Hc'. apply Hpre; right; exact Hc'.
    + cbn [List.filter]. rewrite bool_decide_eq_false_2 by exact Hx.
      apply IH; [|intros c' Hc'; apply Hpre; right; exact Hc'].
      intros Hin. apply elem_of_union in Hin. destruct Hin as [Hin|Hin].
      * apply elem_of_singleton in Hin. apply Hx. symmetry; exact Hin.
      * contradiction.
Qed.

(** X18.  Of the clips that share a key, the deduplication pass keeps the
    first one of the catalog and no other. *)
Theorem dedupe_keeps_first (pre : list clip) (c : clip)
  (post : list clip) :
  (forall c', In c' pre -> key c' <> key c) ->
  List.filter (fun x => bool_decide (key x = key c))
    (dedupe lower ∅ (pre ++ c :: post))
  = [c].
Proof. intros Hpre. apply dedupe_first_of_key; [set_solver | exact Hpre]. Qed.

End DedupeFacts.

Lemma dedupe_keeps_first_witness :
  List.filter
    (fun x =>
       bool_decide
         (dedupe_key ascii_lower_str x
          = dedupe_key ascii_lower_str (Deduplicator.clip_named "talk_0001.wav" "bye" 1)))
    (dedupe ascii_lower_str ∅
       ([ Deduplicator.clip_named "talk_0000.wav" "hello" 1 ]
          ++ Deduplicator.clip_named "talk_0001.wav" "bye" 1
          :: [ Deduplicator.clip_named "talk_0002.wav" " Bye " 2 ]))
  = [ Deduplicator.clip_named "talk_0001.wav" "bye" 1 ].
Proof.
  apply (dedupe_keeps_first ascii_lower_str
           [ Deduplicator.clip_named "talk_0000.wav" "hello" 1 ]
           (Deduplicator.clip_named "talk_0001.wav" "bye" 1)
           [ Deduplicator.clip_named "talk_0002.wav" " Bye " 2 ]).
  intros c' [<-|[]]. vm_compute. discriminate.
Defined.

(** ** Facts about the end of a run *)

Section FinishFacts.
Variable lower : pystr -> pystr.
Variable load_model : pystr -> bool.
Variable process_audio_file :
  pystr -> pystr -> files -> option (list clip * files).
Variable now : pystr.
Variable audio_files : list pystr.

Lemma listdir_lookup (dir : gmap pystr (list N)) (f : pystr) :
  In f (List.map fst (map_to_list dir)) <-> is_Some (dir !! f).
Proof.
  split.
  - intros H. apply in_map_iff in H. destruct H as [[f' b] [<- H]].
    apply list_elem_of_In, elem_of_map_to_list in H. exists b; exact H.
  - intros [b Hb]. apply in_map_iff. exists (f, b).
    split; [reflexivity|].
    apply list_elem_of_In, elem_of_map_to_list; exact Hb.
Qed.

(** X19.  The files left in the clip directory when a run ends: a [.wav]
    file that no clip of the catalog just written names is gone, and
    every other file is as it was. *)
Theorem finish_orphans (a : args) (all_clips : list clip) (fs : files) :
  exists written : catalog,
    catalog_json (finish lower now a all_clips fs) = Some written /\
    clips written = dedupe lower ∅ all_clips /\
    forall f : pystr,
      clip_dir (finish lower now a all_clips fs) !! f
      = if endswith f (str ".wav")
           && negb (bool_decide (f ∈ List.map clip_file (clips written)))
        then None
        else clip_dir fs !! f.
Proof.
  eexists. split; [reflexivity|]. split; [reflexivity|].
  intros f. cbn [finish clip_dir clips]. unfold finish.
  cbn [clip_dir]. unfold remove_files.
  rewrite Deduplicator.delete_all_lookup.
  set (kept := dedupe lower ∅ all_clips).
  assert (Hset : bool_decide
                   (f ∈ (list_to_set (List.map clip_file kept) : gset pystr))
                 = bool_decide (f ∈ List.map clip_file kept)).
  { apply bool_decide_ext. apply elem_of_list_to_set. }
  destruct (decide (f ∈ _)) as [Hin|Hout].
  - apply list_elem_of_In, filter_In in Hin. destruct Hin as [_ Hc].
    rewrite Hset in Hc. rewrite Hc. reflexivity.
  - destruct (endswith f (str ".wav")
              && negb (bool_decide (f ∈ List.map clip_file kept)))
      eqn:Hc; [|reflexivity].
    destruct (clip_dir fs !! f) as [b|] eqn:Hf; [|reflexivity].
    exfalso. apply Hout. apply list_elem_of_In, filter_In.
    split; [apply listdir_lookup; exists b; exact Hf|].
    rewrite Hset. exact Hc.
Qed.



End FinishFacts.


(** ** Facts about [safe_filename] *)

Section FilenameFacts.
Variable uni_alnum : N -> bool.

Lemma strip_Forall (P : N -> Prop) (t : pystr) :
  Forall P t -> Forall P (strip t).
Proof.
  intros H. destruct (strip_infix t) as [p [s E]].
  rewrite E in H. apply Forall_app in H. destruct H as [_ H].
  apply Forall_app in H. apply H.
Qed.

Lemma strip_length (t : pystr) : (List.length (strip t) <= List.length t)%nat.
Proof.
  destruct (strip_infix t) as [p [s E]].
  rewrite E at 2. rewrite !length_app. lia.
Qed.

Lemma safe_char_allowed (c : N) :
  allowed uni_alnum (if allowed uni_alnum c then c else 95%N) = true.
Proof.
  destruct (allowed uni_alnum c) eqn:E; [exact E|].
  unfold allowed. apply orb_true_r.
Qed.

Lemma map_safe_id (t : pystr) :
  Forall (fun c => allowed uni_alnum c = true) t ->
  List.map (fun c => if allowed uni_alnum c then c else 95%N) t = t.
Proof.
  induction 1 as [|c t Hc Ht IH]; [reflexivity|].
  cbn [List.map]. rewrite Hc, IH. reflexivity.
Qed.

(** X21.  A sanitized name holds only alphanumeric characters, hyphens,
    underscores and spaces, is no longer than the name, and sanitizing
    it again changes nothing. *)
Theorem safe_filename_allowed (name : pystr) :
  Forall (fun c => allowed uni_alnum c = true)
    (safe_filename uni_alnum name) /\
  (List.length (safe_filename uni_alnum name) <= List.length name)%nat /\
  safe_filename uni_alnum (safe_filename uni_alnum name)
  = safe_filename uni_alnum name.
Proof.
  assert (Hall : Forall (fun c => allowed uni_alnum c = true)
                   (safe_filename uni_alnum name)).
  { unfold safe_filename. apply strip_Forall.
    apply Forall_forall. intros c Hc. apply in_map_iff in Hc.
    destruct Hc as [x [<- _]]. apply safe_char_allowed. }
  split; [exact Hall|]. split.
  - unfold safe_filename.
    etransitivity; [apply strip_length|]. rewrite length_map. lia.
  - unfold safe_filename at 1. rewrite (map_safe_id _ Hall).
    unfold safe_filename. apply strip_idem.
Qed.

End FilenameFacts.

End ClipParserMore.

(** * More of [deduplicator.py] *)

Module DeduplicatorMore.
Import PyStr Numpy Catalog Deduplicator.

(** ** Definitions *)

(** The amplitude normalization of [audio_to_fingerprint]. *)
Definition normalise (samples : list R) : list R :=
  let peak := abs_max samples in
  if Rlt_dec 0 peak then List.map (fun x => (x / peak)%R) samples
  else samples.

(** The loop over the frames. *)
Definition frames_of (samples : list R) : fingerprint :=
  List.map
    (fun i =>
       let start := (i * Z.to_nat hop)%nat in
       let frame := slice samples start (start + Z.to_nat window) in
       let frame := times frame (hanning (List.length frame)) in
       let spectrum := rfft_abs frame in
       bands spectrum)
    (seq 0 (Z.to_nat (n_frames (List.length samples)))).

(** A fingerprint as the comparison loop finds it in [fingerprints]:
    [None], or rows of [n_bins] bands. *)
Definition fp_ok (o : option fingerprint) : Prop :=
  match o with
  | Some f => is_fingerprint n_bins f
  | None => True
  end.

(** The clips of the catalog of a file system, none when there is no
    catalog. *)
Definition clips_of (fs : files) : list clip :=
  match catalog_json fs with
  | Some data => clips data
  | None => []
  end.

(** The catalog of [twin_files]. *)
Definition twin_catalog : catalog :=
  {| generated_at := str "2024-01-01T00:00:00";
     whisper_model := str "base";
     whisper_prompt := str "...";
     catalog_filters := mk_filters true true true (-45) 4;
     total_clips := 3;
     clips := [ clip_named "talk_0000.wav" "hello there" 1;
                clip_named "talk_0001.wav" "hello there" 1;
                clip_named "talk_0002.wav" "bye" (1 # 2) ] |}.

(** ** Facts about the fingerprints *)

Section GainFacts.
Local Open Scope R_scope.

Lemma audio_to_fingerprint_frames (pcm : list Z) :
  audio_to_fingerprint pcm
  = if (List.length pcm =? 0)%nat then []
    else frames_of (normalise (List.map IZR pcm)).
Proof.
  unfold audio_to_fingerprint. rewrite length_map. reflexivity.
Qed.

Lemma fold_Rmax_scale (k : R) (l : list R) :
  0 <= k ->
  forall x : R,
    fold_left Rmax (List.map (Rmult k) l) (k * x) = k * fold_left Rmax l x.
Proof.
  intros Hk. induction l as [|y l IH]; intros x; [reflexivity|].
  cbn [List.map fold_left]. rewrite RmaxRmult by exact Hk. apply IH.
Qed.

Lemma abs_max_scale (k : R) (s : list R) :
  0 <= k -> abs_max (List.map (Rmult k) s) = k * abs_max s.
Proof.
  intros Hk. unfold abs_max. destruct s as [|x s]; [simpl; ring|].
  cbn [List.map]. rewrite Rabs_mult, (Rabs_pos_eq k) by exact Hk.
  rewrite <- fold_Rmax_scale by exact Hk. f_equal.
  rewrite !map_map. apply map_ext. intros y.
  rewrite Rabs_mult, (Rabs_pos_eq k) by exact Hk. reflexivity.
Qed.

Lemma fold_Rmax_init (l : list R) : forall x : R, x <= fold_left Rmax l x.
Proof.
  induction l as [|y l IH]; intros x; [apply Rle_refl|].
  cbn [fold_left]. eapply Rle_trans; [apply (Rmax_l x y) | apply IH].
Qed.

Lemma fold_Rmax_In (l : list R) :
  forall x y : R, In y l -> y <= fold_left Rmax l x.
Proof.
  induction l as [|z l IH]; intros x y Hy; [destruct Hy|].
  cbn [fold_left]. destruct Hy as [<-|Hy].
  - eapply Rle_trans; [apply (Rmax_r x z) | apply fold_Rmax_init].
  - apply IH; exact Hy.
Qed.

Lemma abs_max_ge (s : list R) (x : R) : In x s -> Rabs x <= abs_max s.
Proof.
  intros Hx. unfold abs_max. destruct s as [|y s]; [destruct Hx|].
  cbn [List.map]. destruct Hx as [<-|Hx].
  - apply fold_Rmax_init.
  - apply fold_Rmax_In. apply in_map; exact Hx.
Qed.

Lemma abs_max_zero (s : list R) :
  ~ 0 < abs_max s -> Forall (fun x => x = 0) s.
Proof.
  intros Hp. apply Forall_forall. intros x Hx.
  pose proof (abs_max_ge s x Hx) as Hle.
  pose proof (Rabs_pos x) as H0.
  destruct (Req_dec x 0) as [E|E]; [exact E|].
  pose proof (Rabs_pos_lt x E). lra.
Qed.

Lemma normalise_scale (k : R) (s : list R) :
  0 < k -> normalise (List.map (Rmult k) s) = normalise s.
Proof.
  intros Hk. unfold normalise.
  rewrite abs_max_scale by lra.
  destruct (Rlt_dec 0 (abs_max s)) as [Hp|Hp].
  - destruct (Rlt_dec 0 (k * abs_max s)) as [_|Hn].
    + rewrite map_map. apply map_ext. intros x. field. lra.
    + exfalso. apply Hn. apply Rmult_lt_0_compat; assumption.
  - pose proof (abs_max_zero s Hp) as Hz.
    assert (Hs : List.map (Rmult k) s = s).
    { clear Hp. induction Hz as [|x s Hx Hz IH]; [reflexivity|].
      cbn [List.map]. rewrite IH, Hx. f_equal. ring. }
    rewrite Hs.
    destruct (Rlt_dec 0 (k * abs_max s)) as [Hn|_]; [|reflexivity].
    exfalso. apply Hp. nra.
Qed.

(** X22.  A recording and the same recording [k] times as loud have the
    same fingerprint: the peak normalization cancels the gain. *)
Theorem audio_to_fingerprint_gain (k : Z) (pcm : list Z) :
  (0 < k)%Z ->
  audio_to_fingerprint (List.map (Z.mul k) pcm) = audio_to_fingerprint pcm.
Proof.
  intros Hk. rewrite !audio_to_fingerprint_frames. rewrite length_map.
  destruct (List.length pcm =? 0)%nat; [reflexivity|].
  f_equal. rewrite map_map.
  rewrite <- (normalise_scale (IZR k) (List.map IZR pcm))
    by (apply IZR_lt; exact Hk).
  f_equal. rewrite map_map. apply map_ext. intros x. apply mult_IZR.
Qed.

Lemma audio_to_fingerprint_gain_witness :
  audio_to_fingerprint (List.map (Z.mul 3) [120; -700; 15]%Z)
  = audio_to_fingerprint [120; -700; 15]%Z.
Proof. apply (audio_to_fingerprint_gain 3 [120; -700; 15]%Z). lia. Defined.

(** X23.  The fingerprint of a recording with samples has
    [max(1, (len - 1600) // 800)] frames, each of [n_bins] bands, none
    of them negative. *)
Theorem audio_to_fingerprint_shape (pcm : list Z) :
  pcm <> [] ->
  List.length (audio_to_fingerprint pcm)
  = Z.to_nat (Z.max 1 ((Z.of_nat (List.length pcm) - 1600) / 800)) /\
  Forall (fun frame =>
            List.length frame = 32%nat /\ Forall (fun x => 0 <= x) frame)
    (audio_to_fingerprint pcm).
Proof.
  intros Hne. split; [|apply audio_to_fingerprint_is_fingerprint].
  rewrite audio_to_fingerprint_frames.
  destruct pcm as [|x pcm]; [contradiction|].
  cbn [List.length Nat.eqb]. unfold frames_of.
  rewrite length_map, length_seq. unfold normalise.
  destruct (Rlt_dec _ _); rewrite ?length_map; reflexivity.
Qed.

Lemma audio_to_fingerprint_shape_witness :
  List.length (audio_to_fingerprint [120; -700; 15]%Z)
  = Z.to_nat (Z.max 1 ((Z.of_nat 3 - 1600) / 800)) /\
  Forall (fun frame =>
            List.length frame = 32%nat /\ Forall (fun x => 0 <= x) frame)
    (audio_to_fingerprint [120; -700; 15]%Z).
Proof. apply (audio_to_fingerprint_shape [120; -700; 15]%Z). discriminate. Defined.

(** The similarity of the fingerprints of any two recordings is
    defined, for their rows have one length, and lies in [0, 1]. *)
Lemma audio_similarity_defined (pcm1 pcm2 : list Z) :
  exists r : R,
    fingerprint_similarity (audio_to_fingerprint pcm1)
      (audio_to_fingerprint pcm2) = Some r /\
    0 <= r <= 1.
Proof.
  apply (fingerprint_similarity_range n_bins);
    apply audio_to_fingerprint_is_fingerprint.
Qed.

(** X24.  Fingerprints one of which has more than twice the frames of the
    other have similarity 0, whatever their rows. *)
Theorem fingerprint_similarity_lengths (a b : fingerprint) :
  (2 * List.length a < List.length b)%nat ->
  fingerprint_similarity a b = Some 0 /\
  fingerprint_similarity b a = Some 0.
Proof.
  intros Hlen.
  assert (H : fingerprint_similarity a b = Some 0).
  { unfold fingerprint_similarity.
    destruct (List.length a =? 0)%nat eqn:Ea; [reflexivity|].
    apply Nat.eqb_neq in Ea.
    destruct (List.length b =? 0)%nat eqn:Eb; [reflexivity|].
    cbn [orb]. cbv zeta.
    rewrite Nat.min_l, Nat.max_r by lia.
    destruct (Rlt_dec _ _) as [_|Hn]; [reflexivity|].
    exfalso. apply Hn.
    assert (Hb : 0 < INR (List.length b)) by (apply lt_0_INR; lia).
    apply (Rmult_lt_reg_r (INR (List.length b))); [exact Hb|].
    unfold Rdiv. rewrite Rmult_assoc, Rinv_l, Rmult_1_r by lra.
    apply lt_INR in Hlen. rewrite mult_INR in Hlen. simpl in Hlen. lra. }
  split; [exact H|]. rewrite fingerprint_similarity_comm. exact H.
Qed.

Lemma fingerprint_similarity_lengths_witness :
  fingerprint_similarity [[1; 2]] [[1; 2]; [3; 4]; [5; 6]] = Some 0 /\
  fingerprint_similarity [[1; 2]; [3; 4]; [5; 6]] [[1; 2]] = Some 0.
Proof.
  apply (fingerprint_similarity_lengths [[1; 2]] [[1; 2]; [3; 4]; [5; 6]]).
  simpl. lia.
Defined.

End GainFacts.

(** ** Facts about [find_duplicates] *)

Section FinderFacts.
Variable raw_bytes_hash : list N -> N.
Variable decode : list N -> option (list Z).
Variable round3 : R -> R.

Local Abbreviation find_dupes :=
  (find_duplicates raw_bytes_hash decode round3).

Lemma fingerprint_of_ok (fs : files) (c : clip) :
  fp_ok (fingerprint_of decode fs c).
Proof.
  unfold fingerprint_of. destruct (clip_dir fs !! clip_file c); [|exact I].
  destruct (decode l); [|exact I].
  apply audio_to_fingerprint_is_fingerprint.
Qed.

Lemma fingerprint_of_exists (fs : files) (c : clip) (f : fingerprint) :
  fingerprint_of decode fs c = Some f ->
  is_Some (clip_dir fs !! clip_file c).
Proof.
  unfold fingerprint_of.
  destruct (clip_dir fs !! clip_file c) as [b|]; [|discriminate].
  intros _. exists b; reflexivity.
Qed.

(** What the comparison loop ranges over: catalog clips, each with
    its own fingerprint. *)
Definition item_ok (fs : files) (data : catalog)
  (item : nat * (clip * option fingerprint)) : Prop :=
  In (fst (snd item)) (clips data) /\
  snd (snd item) = fingerprint_of decode fs (fst (snd item)).

Definition present (fs : files) (data : catalog) (c : clip) : Prop :=
  In c (clips data) /\ is_Some (clip_dir fs !! clip_file c).

Definition pair_ok (fs : files) (data : catalog) (p : wave_pair) : Prop :=
  present fs data (clip_a p) /\ present fs data (clip_b p).

Definition state_ok (fs : files) (data : catalog) (st : pair_state)
  : Prop :=
  exists wave_dupes seen_pairs,
    st = Some (wave_dupes, seen_pairs) /\
    Forall (pair_ok fs data) wave_dupes.

Lemma items_ok (fs : files) (data : catalog) :
  Forall (item_ok fs data)
    (combine (seq 0 (List.length (clips data)))
       (combine (clips data)
          (List.map (fingerprint_of decode fs) (clips data)))).
Proof.
  apply Forall_forall. intros [i [c f]] Hin.
  apply in_combine_r in Hin.
  assert (H : forall l, In (c, f)
                          (combine l (List.map (fingerprint_of decode fs) l)) ->
                        In c l /\ f = fingerprint_of decode fs c).
  { induction l as [|x l IH]; [intros []|].
    cbn [List.map combine]. intros [E|Hl].
    - injection E as -> <-. split; [left|]; reflexivity.
    - destruct (IH Hl) as [H1 H2]. split; [right; exact H1 | exact H2]. }
  apply H in Hin. exact Hin.
Qed.

Lemma compare_pair_ok (fs : files) (data : catalog) (threshold : R)
  (i : nat) (ci : clip) (fi : fingerprint) (st : pair_state)
  (item : nat * (clip * option fingerprint)) :
  present fs data ci -> is_fingerprint n_bins fi ->
  item_ok fs data item -> state_ok fs data st ->
  state_ok fs data (compare_pair round3 threshold i ci fi st item).
Proof.
  intros Hci Hfi [Hcj Hfj] [wd [sp [-> Hwd]]].
  destruct item as [j [cj fj]]. cbn [fst snd] in Hcj, Hfj.
  unfold compare_pair.
  destruct fj as [fj|]; [|exists wd, sp; split; [reflexivity | exact Hwd]].
  destruct (durations_differ _ _);
    [exists wd, sp; split; [reflexivity | exact Hwd]|].
  assert (Hok : is_fingerprint n_bins fj).
  { pose proof (fingerprint_of_ok fs cj) as H. rewrite <- Hfj in H.
    exact H. }
  destruct (fingerprint_similarity_range n_bins fi fj Hfi Hok)
    as [r [-> _]].
  destruct (Rleb threshold r);
    [|exists wd, sp; split; [reflexivity | exact Hwd]].
  destruct (pair_seen _ _);
    [exists wd, sp; split; [reflexivity | exact Hwd]|].
  eexists _, _. split; [reflexivity|].
  apply Forall_app. split; [exact Hwd|].
  constructor; [|constructor]. split; [exact Hci|].
  split; [exact Hcj|]. cbn [clip_b].
  apply (fingerprint_of_exists fs cj fj). symmetry; exact Hfj.
Qed.

Lemma fold_compare_pair_ok (fs : files) (data : catalog) (threshold : R)
  (i : nat) (ci : clip) (fi : fingerprint)
  (items : list (nat * (clip * option fingerprint))) :
  present fs data ci -> is_fingerprint n_bins fi ->
  Forall (item_ok fs data) items ->
  forall st : pair_state,
    state_ok fs data st ->
    state_ok fs data
      (fold_left (compare_pair round3 threshold i ci fi) items st).
Proof.
  intros Hci Hfi Hitems. induction Hitems as [|x items Hx Hitems IH];
    intros st Hst; [exact Hst|].
  cbn [fold_left]. apply IH. apply compare_pair_ok; assumption.
Qed.

Lemma compare_from_ok (fs : files) (data : catalog) (threshold : R)
  (items : list (nat * (clip * option fingerprint))) (st : pair_state)
  (item : nat * (clip * option fingerprint)) :
  Forall (item_ok fs data) items -> item_ok fs data item ->
  state_ok fs data st ->
  state_ok fs data (compare_from round3 threshold items st item).
Proof.
  intros Hitems [Hci Hfi] Hst. destruct item as [i [ci fi]].
  cbn [fst snd] in Hci, Hfi. unfold compare_from.
  destruct fi as [fi|]; [|exact Hst].
  apply fold_compare_pair_ok.
  - split; [exact Hci|].
    apply (fingerprint_of_exists fs ci fi). symmetry; exact Hfi.
  - pose proof (fingerprint_of_ok fs ci) as H. rewrite <- Hfi in H.
    exact H.
  - apply Forall_forall. intros x Hx.
    rewrite Forall_forall in Hitems. apply Hitems.
    rewrite <- (firstn_skipn (S i) items). apply in_or_app.
    right; exact Hx.
  - exact Hst.
Qed.

Lemma fold_compare_from_ok (fs : files) (data : catalog) (threshold : R)
  (items todo : list (nat * (clip * option fingerprint))) :
  Forall (item_ok fs data) items -> Forall (item_ok fs data) todo ->
  forall st : pair_state,
    state_ok fs data st ->
    state_ok fs data
      (fold_left (compare_from round3 threshold items) todo st).
Proof.
  intros Hitems Htodo. induction Htodo as [|x todo Hx Htodo IH];
    intros st Hst; [exact Hst|].
  cbn [fold_left]. apply IH. apply compare_from_ok; assumption.
Qed.

(** The members of a hash group: catalog clips whose files exist and
    hash to the key of the group. *)
Definition hashed (fs : files) (data : catalog) (h : N) (c : clip)
  : Prop :=
  In c (clips data) /\
  exists bytes, clip_dir fs !! clip_file c = Some bytes /\
                raw_bytes_hash bytes = h.

Definition groups_ok (fs : files) (data : catalog)
  (groups : list (N * list clip)) : Prop :=
  Forall (fun hg => Forall (hashed fs data (fst hg)) (snd hg)) groups.

Lemma group_add_ok (fs : files) (data : catalog) (h : N) (c : clip)
  (groups : list (N * list clip)) :
  hashed fs data h c -> groups_ok fs data groups ->
  groups_ok fs data (group_add h c groups).
Proof.
  intros Hc. induction 1 as [|[h' g] groups Hg Hrest IH].
  - constructor; [|constructor]. constructor; [exact Hc | constructor].
  - cbn [group_add]. destruct (h =? h')%N eqn:E.
    + apply N.eqb_eq in E. subst h'. constructor; [|exact Hrest].
      cbn [fst snd] in *. apply Forall_app. split; [exact Hg|].
      constructor; [exact Hc | constructor].
    + constructor; [exact Hg | exact IH].
Qed.

Lemma hash_groups_ok (fs : files) (data : catalog) (l : list clip) :
  (forall c, In c l -> In c (clips data)) ->
  forall groups : list (N * list clip),
    groups_ok fs data groups ->
    groups_ok fs data
      (fold_left
         (fun groups c =>
            match clip_dir fs !! clip_file c with
            | None => groups
            | Some bytes => group_add (raw_bytes_hash bytes) c groups
            end)
         l groups).
Proof.
  induction l as [|c l IH]; intros Hl groups Hg; [exact Hg|].
  cbn [fold_left]. apply IH; [intros x Hx; apply Hl; right; exact Hx|].
  destruct (clip_dir fs !! clip_file c) as [bytes|] eqn:E; [|exact Hg].
  apply group_add_ok; [|exact Hg].
  split; [apply Hl; left; reflexivity|].
  exists bytes. split; [exact E | reflexivity].
Qed.

(** What a reported duplicate is made of. *)
Definition dupe_ok (fs : files) (data : catalog) (d : dupe) : Prop :=
  present fs data (keep d) /\ present fs data (remove d) /\
  match dupe_kind d with
  | exact =>
      dupe_similarity d = 1%R /\
      option_map raw_bytes_hash (clip_dir fs !! clip_file (keep d))
      = option_map raw_bytes_hash (clip_dir fs !! clip_file (remove d))
  | waveform =>
      (List.length (text (remove d)) <= List.length (text (keep d)))%nat
  end.

Lemma hashed_present (fs : files) (data : catalog) (h : N) (c : clip) :
  hashed fs data h c -> present fs data c.
Proof.
  intros [Hin [b [Hb _]]]. split; [exact Hin | exists b; exact Hb].
Qed.

Lemma exact_pairs_ok (fs : files) (data : catalog) (h : N)
  (group : list clip) :
  Forall (hashed fs data h) group ->
  Forall (dupe_ok fs data) (exact_pairs group).
Proof.
  intros Hg. destruct group as [|k rest]; [constructor|].
  inversion Hg as [|k' l Hk Hrest]; subst.
  cbn [exact_pairs]. apply Forall_forall. intros d Hd.
  apply in_map_iff in Hd. destruct Hd as [c [<- Hc]].
  rewrite Forall_forall in Hrest. specialize (Hrest c Hc).
  split; [apply (hashed_present _ _ h); exact Hk|].
  split; [apply (hashed_present _ _ h); exact Hrest|].
  cbn [dupe_kind dupe_similarity keep remove].
  split; [reflexivity|].
  destruct Hk as [_ [b1 [-> H1]]]. destruct Hrest as [_ [b2 [-> H2]]].
  cbn [option_map]. rewrite H1, H2. reflexivity.
Qed.

Lemma resolve_pair_ok (fs : files) (data : catalog) (p : wave_pair) :
  pair_ok fs data p -> dupe_ok fs data (resolve_pair p).
Proof.
  intros [Ha Hb]. unfold resolve_pair.
  destruct (_ <=? _)%nat eqn:E.
  - apply Nat.leb_le in E. split; [exact Ha|]. split; [exact Hb|]. exact E.
  - apply Nat.leb_gt in E. split; [exact Hb|]. split; [exact Ha|].
    cbn [dupe_kind keep remove]. lia.
Qed.

(** Phase 1 of [find_duplicates]: the groups of clips by file hash,
    in the order in which the hashes were first met. *)
Definition hash_groups (fs : files) (data : catalog)
  : list (N * list clip) :=
  fold_left
    (fun groups c =>
       match clip_dir fs !! clip_file c with
       | None => groups
       | Some bytes => group_add (raw_bytes_hash bytes) c groups
       end)
    (clips data) [].

(** The two parts of the result on a catalog with clips. *)
Lemma find_duplicates_parts (fs : files) (threshold : R) (data : catalog) :
  catalog_json fs = Some data -> clips data <> [] ->
  exists wave_dupes : list wave_pair,
    Forall (pair_ok fs data) wave_dupes /\
    find_dupes fs threshold
    = Some (flat_map (fun hg => exact_pairs (snd hg))
              (List.filter (fun hg => (1 <? List.length (snd hg))%nat)
                 (hash_groups fs data))
              ++ List.map resolve_pair wave_dupes,
            Some data).
Proof.
  intros Hcat Hne. unfold find_duplicates. rewrite Hcat.
  destruct (clips data) as [|c0 cs] eqn:Ec; [contradiction|].
  rewrite <- Ec.
  set (items := combine _ _).
  assert (Hitems : Forall (item_ok fs data) items) by apply items_ok.
  assert (Hst : state_ok fs data (Some ([], []))).
  { exists [], []. split; [reflexivity | constructor]. }
  destruct (fold_compare_from_ok fs data threshold items items
              Hitems Hitems _ Hst) as [wd [sp [-> Hwd]]].
  exists wd. split; [exact Hwd | reflexivity].
Qed.

Lemma find_duplicates_ok (fs : files) (threshold : R) :
  exists (dupes : list dupe) (data : option catalog),
    find_dupes fs threshold = Some (dupes, data) /\
    data = catalog_json fs /\
    match data with
    | Some data => Forall (dupe_ok fs data) dupes
    | None => dupes = []
    end.
Proof.
  destruct (catalog_json fs) as [data|] eqn:Hcat.
  2: { exists [], None. unfold find_duplicates. rewrite Hcat.
       repeat split. }
  destruct (clips data) as [|c0 cs] eqn:Ec.
  { exists [], (Some data). unfold find_duplicates. rewrite Hcat, Ec.
    repeat split. constructor. }
  destruct (find_duplicates_parts fs threshold data Hcat)
    as [wd [Hwd ->]]; [rewrite Ec; discriminate|].
  eexists _, (Some data). split; [reflexivity|]. split; [reflexivity|].
  apply Forall_app. split.
  - apply Forall_forall. intros d Hd.
    apply in_flat_map in Hd. destruct Hd as [[h g] [Hg Hd]].
    apply filter_In in Hg. destruct Hg as [Hg _].
    pose proof (hash_groups_ok fs data (clips data) (fun c H => H) []
                  ltac:(constructor)) as Hgroups.
    unfold groups_ok in Hgroups. rewrite Forall_forall in Hgroups.
    specialize (Hgroups _ Hg). cbn [fst snd] in Hgroups, Hd.
    pose proof (exact_pairs_ok fs data h g Hgroups) as Hall.
    rewrite Forall_forall in Hall. apply Hall; exact Hd.
  - apply Forall_forall. intros d Hd.
    apply in_map_iff in Hd. destruct Hd as [p [<- Hp]].
    rewrite Forall_forall in Hwd. apply resolve_pair_ok, Hwd, Hp.
Qed.

(** X25.  [find_duplicates] never raises: fingerprints that were computed
    can always be compared. *)
Theorem find_duplicates_defined (fs : files) (threshold : R) :
  exists dupes : list dupe,
    find_dupes fs threshold = Some (dupes, catalog_json fs).
Proof.
  destruct (find_duplicates_ok fs threshold) as [dupes [data [H [-> _]]]].
  exists dupes; exact H.
Qed.

(** X26.  Every duplicate reported names two clips of the catalog whose
    files exist; an exact duplicate has similarity 1 and files with
    one hash; of a waveform pair the clip to remove is the one whose
    text is not the longer. *)
Theorem find_duplicates_members (fs : files) (threshold : R)
  (dupes : list dupe) (data : catalog) :
  find_dupes fs threshold = Some (dupes, Some data) ->
  Forall
    (fun d =>
       (In (keep d) (clips data) /\
        is_Some (clip_dir fs !! clip_file (keep d))) /\
       (In (remove d) (clips data) /\
        is_Some (clip_dir fs !! clip_file (remove d))) /\
       match dupe_kind d with
       | exact =>
           dupe_similarity d = 1%R /\
           option_map raw_bytes_hash (clip_dir fs !! clip_file (keep d))
           = option_map raw_bytes_hash (clip_dir fs !! clip_file (remove d))
       | waveform =>
           (List.length (text (remove d)) <= List.length (text (keep d)))%nat
       end)
    dupes.
Proof.
  intros H.
  destruct (find_duplicates_ok fs threshold) as [dupes' [data' [H' [_ Hok]]]].
  rewrite H in H'. injection H' as <- <-. exact Hok.
Qed.

End FinderFacts.

Lemma find_duplicates_members_witness :
  Forall
    (fun d =>
       (In (keep d) (clips_of twin_files) /\
        is_Some (clip_dir twin_files !! clip_file (keep d))) /\
       (In (remove d) (clips_of twin_files) /\
        is_Some (clip_dir twin_files !! clip_file (remove d))) /\
       match dupe_kind d with
       | exact =>
           dupe_similarity d = 1%R /\
           option_map sum_hash (clip_dir twin_files !! clip_file (keep d))
           = option_map sum_hash (clip_dir twin_files !! clip_file (remove d))
       | waveform =>
           (List.length (text (remove d)) <= List.length (text (keep d)))%nat
       end)
    [ mk_dupe (clip_named "talk_0000.wav" "hello there" 1)
        (clip_named "talk_0001.wav" "hello there" 1) 1%R exact ].
Proof.
  unfold clips_of.
  eapply (find_duplicates_members sum_hash no_decode no_round twin_files
            0.9%R).
  reflexivity.
Defined.

(** *** Byte-identical files *)

Section ExactFacts.
Variable raw_bytes_hash : list N -> N.
Variable decode : list N -> option (list Z).
Variable round3 : R -> R.

(** [hash_groups[h]], empty when the key is absent. *)
Definition group_of (h : N) (groups : list (N * list clip)) : list clip :=
  match List.find (fun hg => (h =? fst hg)%N) groups with
  | Some hg => snd hg
  | None => []
  end.

(** The file of the clip exists and hashes to [h]. *)
Definition has_hash (fs : files) (h : N) (c : clip) : bool :=
  match clip_dir fs !! clip_file c with
  | Some bytes => (raw_bytes_hash bytes =? h)%N
  | None => false
  end.

Lemma group_add_lookup (h : N) (c : clip) (groups : list (N * list clip))
  (h' : N) :
  group_of h' (group_add h c groups)
  = group_of h' groups ++ (if (h =? h')%N then [c] else []).
Proof.
  unfold group_of. induction groups as [|[h0 g] groups IH].
  - cbn [group_add List.find fst snd]. rewrite (N.eqb_sym h' h).
    destruct (h =? h')%N; reflexivity.
  - cbn [group_add]. destruct (h =? h0)%N eqn:E.
    + apply N.eqb_eq in E. subst h0. cbn [List.find fst snd].
      rewrite (N.eqb_sym h' h).
      destruct (h =? h')%N; [reflexivity|]. rewrite app_nil_r. reflexivity.
    + cbn [List.find fst snd]. destruct (h' =? h0)%N eqn:E'; [|exact IH].
      apply N.eqb_eq in E'. subst h0. rewrite E, app_nil_r. reflexivity.
Qed.

Lemma hash_groups_lookup (fs : files) (h : N) (l : list clip) :
  forall groups : list (N * list clip),
    group_of h
      (fold_left
         (fun groups c =>
            match clip_dir fs !! clip_file c with
            | None => groups
            | Some bytes => group_add (raw_bytes_hash bytes) c groups
            end)
         l groups)
    = group_of h groups ++ List.filter (has_hash fs h) l.
Proof.
  induction l as [|c l IH]; intros groups;
    [rewrite app_nil_r; reflexivity|].
  cbn [fold_left List.filter]. rewrite IH. unfold has_hash at 2.
  destruct (clip_dir fs !! clip_file c) as [bytes|]; [|reflexivity].
  rewrite group_add_lookup.
  destruct (raw_bytes_hash bytes =? h)%N;
    [rewrite <- app_assoc | rewrite app_nil_r]; reflexivity.
Qed.

Lemma group_of_In (h : N) (groups : list (N * list clip)) :
  group_of h groups <> [] -> In (h, group_of h groups) groups.
Proof.
  unfold group_of. destruct (List.find _ groups) as [[h0 g]|] eqn:E;
    [|intros H; contradiction].
  intros _. apply find_some in E. destruct E as [Hin Hh].
  cbn [fst] in Hh. apply N.eqb_eq in Hh. subst h0. exact Hin.
Qed.

(** X27.  A clip whose file has the hash of the file of an earlier clip of
    the catalog is reported as an exact duplicate to remove, and the
    clip to keep is one that comes before it in the catalog. *)
Theorem find_duplicates_exact (fs : files) (threshold : R)
  (data : catalog) (pre : list clip) (c0 : clip) (mid : list clip)
  (c : clip) (post : list clip) (b0 b : list N) :
  catalog_json fs = Some data ->
  clips data = pre ++ c0 :: mid ++ c :: post ->
  clip_dir fs !! clip_file c0 = Some b0 ->
  clip_dir fs !! clip_file c = Some b ->
  raw_bytes_hash b0 = raw_bytes_hash b ->
  exists (dupes : list dupe) (k : clip),
    find_duplicates raw_bytes_hash decode round3 fs threshold
    = Some (dupes, Some data) /\
    In k (pre ++ c0 :: mid) /\
    In (mk_dupe k c 1%R exact) dupes.
Proof.
  intros Hcat Hclips H0 Hb Hh.
  destruct (find_duplicates_parts raw_bytes_hash decode round3 fs threshold
              data Hcat) as [wd [_ ->]].
  { rewrite Hclips. destruct pre; discriminate. }
  set (h := raw_bytes_hash b).
  assert (Hg : group_of h (hash_groups raw_bytes_hash fs data)
               = List.filter (has_hash fs h) (pre ++ c0 :: mid)
                   ++ c :: List.filter (has_hash fs h) post).
  { unfold hash_groups. rewrite hash_groups_lookup. cbn [group_of List.find app].
    rewrite Hclips.
    change (pre ++ c0 :: mid ++ c :: post)
      with (pre ++ (c0 :: mid) ++ c :: post).
    rewrite app_assoc, filter_app. cbn [List.filter].
    unfold has_hash at 2. rewrite Hb. unfold h. rewrite N.eqb_refl.
    reflexivity. }
  assert (Hc0 : In c0 (List.filter (has_hash fs h) (pre ++ c0 :: mid))).
  { apply filter_In. split; [apply in_or_app; right; left; reflexivity|].
    unfold has_hash. rewrite H0. apply N.eqb_eq. exact Hh. }
  destruct (List.filter (has_hash fs h) (pre ++ c0 :: mid))
    as [|k rest] eqn:Ef; [destruct Hc0|].
  assert (Hk : In k (pre ++ c0 :: mid)).
  { assert (Hin : In k (List.filter (has_hash fs h) (pre ++ c0 :: mid)))
      by (rewrite Ef; left; reflexivity).
    apply filter_In in Hin. apply Hin. }
  eexists _, k. split; [reflexivity|]. split; [exact Hk|].
  apply in_or_app. left. apply in_flat_map.
  exists (h, group_of h (hash_groups raw_bytes_hash fs data)). split.
  - apply filter_In. split.
    + apply group_of_In. rewrite Hg. discriminate.
    + cbn [snd]. rewrite Hg. cbn [app List.length].
      rewrite length_app. cbn [List.length]. apply Nat.ltb_lt. lia.
  - cbn [snd]. rewrite Hg. cbn [app exact_pairs].
    apply in_map_iff. exists c. split; [reflexivity|].
    apply in_or_app. right; left; reflexivity.
Qed.

End ExactFacts.

Lemma find_duplicates_exact_witness :
  exists (dupes : list dupe) (k : clip),
    find_duplicates sum_hash no_decode no_round twin_files 0.9%R
    = Some (dupes, Some (twin_catalog)) /\
    In k ([] ++ clip_named "talk_0000.wav" "hello there" 1 :: []) /\
    In (mk_dupe k (clip_named "talk_0001.wav" "hello there" 1) 1%R exact)
      dupes.
Proof.
  apply (find_duplicates_exact sum_hash no_decode no_round twin_files 0.9%R
           twin_catalog [] (clip_named "talk_0000.wav" "hello there" 1) []
           (clip_named "talk_0001.wav" "hello there" 1)
           [clip_named "talk_0002.wav" "bye" (1 # 2)]
           [82; 73; 70; 70; 1]%N [82; 73; 70; 70; 1]%N);
    reflexivity.
Defined.

End DeduplicatorMore.

(** * [main.py] and [helper.py]: what is played and what is reported *)

Module MainMore.
Import PyStr Numpy Catalog Utils.
Local Open Scope R_scope.

(** ** Definitions *)

(** [config.HELPER_THRESHOLD] *)
Definition HELPER_THRESHOLD : R := 75 / 100.

(** One iteration of the loop over the clips in [helper.py]; an
    exception in [cosine_similarity] ends the run. *)
Definition best_step (beat_emb : vector) (best_sim : option R)
  (clip : embedded_clip) : option R :=
  match best_sim with
  | None => None
  | Some best =>
      match cosine_similarity beat_emb (embedding clip) with
      | None => None
      | Some sim => if Rlt_dec best sim then Some sim else Some best
      end
  end.

Section Reporting.
Variable encode_text : pystr -> vector.

(** [best_sim] of one beat, from [0.0]. *)
Definition best_sim (beat : pystr) (clips : list embedded_clip)
  : option R :=
  fold_left (best_step (encode_text beat)) clips (Some 0).

(** The mark shown next to the beat. *)
Definition matched (best : R) : bool := Rleb HELPER_THRESHOLD best.

End Reporting.

(** [load_clips()]: the clips of the catalog with their embeddings;
    [None] when the run ends in [sys.exit(1)], for want of a catalog
    or of clips in it. *)
Definition load_clips (encode_text : pystr -> vector) (fs : files)
  : option (list embedded_clip) :=
  match catalog_json fs with
  | None => None
  | Some data =>
      match clips data with
      | [] => None
      | _ :: _ =>
          Some (List.map (fun c => mk_embedded c (encode_text (text c)))
                  (clips data))
      end
  end.

(** The clips of [process_message] that are played: those whose file
    exists. *)
Definition playable (fs : files) (selected : list embedded_clip)
  : list embedded_clip :=
  List.filter
    (fun c =>
       match clip_dir fs !! clip_file (meta c) with
       | Some _ => true
       | None => false
       end)
    selected.

(** ** Facts about the report of [helper.py] *)

Section ReportingFacts.
Variable encode_text : pystr -> vector.

Lemma similarity_in_range (q : vector) (c : embedded_clip) :
  List.length (embedding c) = List.length q ->
  cosine_similarity q (embedding c) = Some (similarity q c) /\
  -1 <= similarity q c <= 1.
Proof.
  intros Hlen. unfold similarity, cosine_similarity, np_dot.
  rewrite Hlen, Nat.eqb_refl.
  destruct (_ || _)%bool eqn:E; [split; [reflexivity | lra]|].
  apply orb_false_iff in E. destruct E as [Ea Eb].
  apply is_zero_false in Ea, Eb.
  split; [reflexivity|].
  apply UtilsMore.cosine_quotient_range; assumption.
Qed.

Lemma best_sim_fold (q : vector) (clips : list embedded_clip) :
  Forall (fun c => List.length (embedding c) = List.length q) clips ->
  forall b0 : R,
    exists b : R,
      fold_left (best_step q) clips (Some b0) = Some b /\
      b0 <= b /\
      (forall c, In c clips -> similarity q c <= b) /\
      (b = b0 \/ exists c, In c clips /\ similarity q c = b).
Proof.
  induction 1 as [|c clips Hc Hcs IH]; intros b0.
  - exists b0. split; [reflexivity|]. split; [lra|].
    split; [intros c []|]. left; reflexivity.
  - cbn [fold_left best_step].
    destruct (similarity_in_range q c Hc) as [-> _].
    destruct (Rlt_dec b0 (similarity q c)) as [Hlt|Hge].
    + destruct (IH (similarity q c)) as [b [Hb [Hle [Hall Hex]]]].
      exists b. split; [exact Hb|]. split; [lra|]. split.
      * intros x [<-|Hx]; [exact Hle | apply Hall; exact Hx].
      * right. destruct Hex as [->|[x [Hx Hs]]].
        -- exists c. split; [left|]; reflexivity.
        -- exists x. split; [right; exact Hx | exact Hs].
    + destruct (IH b0) as [b [Hb [Hle [Hall Hex]]]].
      exists b. split; [exact Hb|]. split; [exact Hle|]. split.
      * intros x [<-|Hx]; [lra | apply Hall; exact Hx].
      * destruct Hex as [->|[x [Hx Hs]]]; [left; reflexivity|].
        right. exists x. split; [right; exact Hx | exact Hs].
Qed.

(** X28.  The similarity that [helper.py] reports for a beat is the largest
    similarity of a clip to the beat, but never less than 0: it is
    not negative, no clip is more similar, and it is 0 or the
    similarity of some clip.  So a beat is marked as matched exactly
    when some clip reaches the threshold. *)
Theorem best_sim_spec (beat : pystr) (clips : list embedded_clip) :
  Forall (fun c => List.length (embedding c)
                   = List.length (encode_text beat)) clips ->
  exists best : R,
    best_sim encode_text beat clips = Some best /\
    0 <= best /\
    (forall c, In c clips -> similarity (encode_text beat) c <= best) /\
    (best = 0 \/
     exists c, In c clips /\ similarity (encode_text beat) c = best) /\
    (matched best = true <->
     exists c, In c clips /\
               HELPER_THRESHOLD <= similarity (encode_text beat) c).
Proof.
  intros Hdim. unfold best_sim.
  destruct (best_sim_fold (encode_text beat) clips Hdim 0)
    as [b [Hb [H0 [Hall Hex]]]].
  exists b. split; [exact Hb|].
  split; [exact H0|]. split; [exact Hall|]. split; [exact Hex|].
  unfold matched, HELPER_THRESHOLD. rewrite Rleb_true. split.
  - intros Ht. destruct Hex as [->|[c [Hc Hs]]]; [lra|].
    exists c. split; [exact Hc | lra].
  - intros [c [Hc Ht]]. specialize (Hall c Hc). lra.
Qed.

End ReportingFacts.

Lemma best_sim_spec_witness :
  exists best : R,
    best_sim fixed_encoder (str "no way") [opposite_clip] = Some best /\
    0 <= best /\
    (forall c, In c [opposite_clip] ->
               similarity (fixed_encoder (str "no way")) c <= best) /\
    (best = 0 \/
     exists c, In c [opposite_clip] /\
               similarity (fixed_encoder (str "no way")) c = best) /\
    (matched best = true <->
     exists c, In c [opposite_clip] /\
               HELPER_THRESHOLD
               <= similarity (fixed_encoder (str "no way")) c).
Proof.
  apply (best_sim_spec fixed_encoder (str "no way") [opposite_clip]).
  repeat constructor.
Defined.

(** ** Facts about the selection of [process_message] *)

Section SelectionFacts.
Variable encode_text : pystr -> vector.

(** X29.  What [process_message] selects for a beat, on a catalog whose
    embeddings have the length of the beat's: at most
    [MAX_CLIPS_PER_BEAT] clips of the catalog, the best first.  When
    some clip reaches [SEMANTIC_THRESHOLD] every selected clip does,
    and there is one at least; when none does, the fallback selects at
    most one clip, whose similarity is not negative. *)
Theorem select_clips_spec (beat : pystr) (clips : list embedded_clip) :
  Forall (fun c => List.length (embedding c)
                   = List.length (encode_text beat)) clips ->
  let sim := similarity (encode_text beat) in
  exists selected : list embedded_clip,
    select_clips encode_text beat clips = Some selected /\
    (Z.of_nat (List.length selected) <= MAX_CLIPS_PER_BEAT)%Z /\
    incl selected clips /\
    match selected with
    | best :: _ => forall c, In c clips -> sim c <= sim best
    | [] => True
    end /\
    ((exists c, In c clips /\ SEMANTIC_THRESHOLD <= sim c) ->
     selected <> [] /\
     Forall (fun c => SEMANTIC_THRESHOLD <= sim c) selected) /\
    ((forall c, In c clips -> sim c < SEMANTIC_THRESHOLD) ->
     (List.length selected <= 1)%nat /\
     Forall (fun c => 0 <= sim c) selected).
Proof.
  intros Hdim sim. unfold select_clips. cbn [MULTI_CLIP_MODE].
  set (q := encode_text beat) in *.
  rewrite (find_best_clips_ranked encode_text beat clips MAX_CLIPS_PER_BEAT
             None) by (unfold MAX_CLIPS_PER_BEAT; lia || exact Hdim).
  rewrite (find_best_clips_ranked encode_text beat clips 1 (Some 0))
    by (lia || exact Hdim).
  fold q.
  destruct (ranked_spec q clips SEMANTIC_THRESHOLD
              (Z.to_nat MAX_CLIPS_PER_BEAT))
    as [Hlen [_ [Hthr [_ Hincl]]]].
  destruct (ranked_spec q clips 0 (Z.to_nat 1))
    as [Hlen1 [_ [Hthr1 [_ Hincl1]]]].
  destruct (ranked q clips SEMANTIC_THRESHOLD (Z.to_nat MAX_CLIPS_PER_BEAT))
    as [|best rest] eqn:Emain.
  - exists (ranked q clips 0 (Z.to_nat 1)).
    split; [reflexivity|].
    split; [unfold MAX_CLIPS_PER_BEAT; simpl in Hlen1; lia|].
    split; [exact Hincl1|]. split.
    + destruct (ranked q clips 0 (Z.to_nat 1)) as [|b1 r1] eqn:E1;
        [exact I|].
      apply (UtilsMore.ranked_head_best q clips 0 (Z.to_nat 1) b1 r1 E1).
    + split.
      * intros [c [Hc Ht]]. exfalso.
        apply (ranked_nonempty q clips SEMANTIC_THRESHOLD
                 (Z.to_nat MAX_CLIPS_PER_BEAT) c Hc Ht);
          [unfold MAX_CLIPS_PER_BEAT; simpl; lia | exact Emain].
      * intros _. split; [simpl in Hlen1; exact Hlen1 | exact Hthr1].
  - exists (best :: rest). split; [reflexivity|].
    split; [unfold MAX_CLIPS_PER_BEAT in *; lia|].
    split; [exact Hincl|]. split.
    + apply (UtilsMore.ranked_head_best q clips SEMANTIC_THRESHOLD
               (Z.to_nat MAX_CLIPS_PER_BEAT) best rest Emain).
    + split.
      * intros _. split; [discriminate | exact Hthr].
      * intros Hnone. exfalso.
        inversion Hthr as [|b l Hb _]; subst.
        assert (Hin : In best clips) by (apply Hincl; left; reflexivity).
        specialize (Hnone best Hin). fold sim in Hb. unfold sim in *. lra.
Qed.

Lemma playable_selected (fs : files) (beat : pystr)
  (clips : list embedded_clip) :
  Forall (fun c => List.length (embedding c)
                   = List.length (encode_text beat)) clips ->
  exists selected : list embedded_clip,
    select_clips encode_text beat clips = Some selected /\
    (Z.of_nat (List.length (playable fs selected)) <= MAX_CLIPS_PER_BEAT)%Z /\
    Forall (fun c => In c clips /\
                     is_Some (clip_dir fs !! clip_file (meta c)))
      (playable fs selected).
Proof.
  intros Hdim. unfold select_clips. cbn [MULTI_CLIP_MODE].
  set (q := encode_text beat) in *.
  rewrite (find_best_clips_ranked encode_text beat clips MAX_CLIPS_PER_BEAT
             None) by (unfold MAX_CLIPS_PER_BEAT; lia || exact Hdim).
  rewrite (find_best_clips_ranked encode_text beat clips 1 (Some 0))
    by (lia || exact Hdim).
  fold q.
  destruct (ranked_spec q clips SEMANTIC_THRESHOLD
              (Z.to_nat MAX_CLIPS_PER_BEAT))
    as [Hlen [_ [_ [_ Hincl]]]].
  destruct (ranked_spec q clips 0 (Z.to_nat 1))
    as [Hlen1 [_ [_ [_ Hincl1]]]].
  assert (Hplay : forall sel : list embedded_clip,
             (List.length sel <= 3)%nat -> incl sel clips ->
             (Z.of_nat (List.length (playable fs sel))
              <= MAX_CLIPS_PER_BEAT)%Z /\
             Forall (fun c => In c clips /\
                              is_Some (clip_dir fs !! clip_file (meta c)))
               (playable fs sel)).
  { intros sel Hl Hi. split.
    - pose proof (filter_length_le
                    (fun c => match clip_dir fs !! clip_file (meta c) with
                              | Some _ => true
                              | None => false
                              end) sel) as Hle.
      unfold playable, MAX_CLIPS_PER_BEAT. lia.
    - apply Forall_forall. intros c Hc. unfold playable in Hc.
      apply filter_In in Hc. destruct Hc as [Hc Hf].
      split; [apply Hi; exact Hc|].
      destruct (clip_dir fs !! clip_file (meta c)) as [b|];
        [exists b; reflexivity | discriminate]. }
  destruct (ranked q clips SEMANTIC_THRESHOLD (Z.to_nat MAX_CLIPS_PER_BEAT))
    as [|best rest] eqn:Emain.
  - eexists. split; [reflexivity|].
    apply Hplay; [simpl in Hlen1; lia | exact Hincl1].
  - eexists. split; [reflexivity|].
    apply Hplay; [exact Hlen | exact Hincl].
Qed.

(** X30.  With an encoder whose embeddings all have one length, and the
    catalog loaded by [load_clips], the selection for a beat never
    raises, and what is played for the beat is at most
    [MAX_CLIPS_PER_BEAT] clips, each an entry of the catalog file
    whose clip file exists. *)
Theorem process_message_plays (fs : files) (d : nat) (beat : pystr)
  (clips : list embedded_clip) :
  (forall t : pystr, List.length (encode_text t) = d) ->
  load_clips encode_text fs = Some clips ->
  exists (data : catalog) (selected : list embedded_clip),
    catalog_json fs = Some data /\
    select_clips encode_text beat clips = Some selected /\
    (Z.of_nat (List.length (playable fs selected)) <= MAX_CLIPS_PER_BEAT)%Z /\
    Forall (fun c => In (meta c) (Catalog.clips data) /\
                     embedding c = encode_text (text (meta c)) /\
                     is_Some (clip_dir fs !! clip_file (meta c)))
      (playable fs selected).
Proof.
  intros Hd Hload. unfold load_clips in Hload.
  destruct (catalog_json fs) as [data|]; [|discriminate].
  assert (Hc : clips
               = List.map (fun c => mk_embedded c (encode_text (text c)))
                   (Catalog.clips data)).
  { destruct (Catalog.clips data) as [|c0 cs]; [discriminate|].
    injection Hload as <-. reflexivity. }
  clear Hload. subst clips.
  set (loaded := List.map _ (Catalog.clips data)).
  assert (Hdim : Forall (fun c => List.length (embedding c)
                                  = List.length (encode_text beat)) loaded).
  { apply Forall_forall. intros c Hc. apply in_map_iff in Hc.
    destruct Hc as [x [<- _]]. cbn [embedding]. rewrite !Hd. reflexivity. }
  destruct (playable_selected fs beat loaded Hdim)
    as [selected [Hsel [Hlen Hall]]].
  exists data, selected. split; [reflexivity|]. split; [exact Hsel|].
  split; [exact Hlen|].
  apply Forall_forall. intros c Hc.
  rewrite Forall_forall in Hall. destruct (Hall c Hc) as [Hin Hfile].
  apply in_map_iff in Hin. destruct Hin as [x [<- Hx]].
  cbn [meta embedding]. split; [exact Hx|]. split; [reflexivity|].
  exact Hfile.
Qed.

End SelectionFacts.

Lemma select_clips_spec_witness :
  let sim := similarity (fixed_encoder (str "yes")) in
  let clips := [opposite_clip; agreeing_clip "b_0000.wav"] in
  exists selected : list embedded_clip,
    select_clips fixed_encoder (str "yes") clips = Some selected /\
    (Z.of_nat (List.length selected) <= MAX_CLIPS_PER_BEAT)%Z /\
    incl selected clips /\
    match selected with
    | best :: _ => forall c, In c clips -> sim c <= sim best
    | [] => True
    end /\
    ((exists c, In c clips /\ SEMANTIC_THRESHOLD <= sim c) ->
     selected <> [] /\
     Forall (fun c => SEMANTIC_THRESHOLD <= sim c) selected) /\
    ((forall c, In c clips -> sim c < SEMANTIC_THRESHOLD) ->
     (List.length selected <= 1)%nat /\
     Forall (fun c => 0 <= sim c) selected).
Proof.
  apply (select_clips_spec fixed_encoder (str "yes")
           [opposite_clip; agreeing_clip "b_0000.wav"]).
  repeat constructor.
Defined.

Lemma process_message_plays_witness :
  exists (data : catalog) (selected : list embedded_clip),
    catalog_json Deduplicator.twin_files = Some data /\
    select_clips fixed_encoder (str "yes")
      (List.map (fun c => mk_embedded c (fixed_encoder (text c)))
         (Catalog.clips DeduplicatorMore.twin_catalog))
    = Some selected /\
    (Z.of_nat (List.length (playable Deduplicator.twin_files selected))
     <= MAX_CLIPS_PER_BEAT)%Z /\
    Forall (fun c => In (meta c) (Catalog.clips data) /\
                     embedding c = fixed_encoder (text (meta c)) /\
                     is_Some (clip_dir Deduplicator.twin_files
                              !! clip_file (meta c)))
      (playable Deduplicator.twin_files selected).
Proof.
  apply (process_message_plays fixed_encoder Deduplicator.twin_files 2
           (str "yes")).
  - reflexivity.
  - reflexivity.
Defined.

End MainMore.

